(** * Geospatial overlay viewer: the affine georeferencing, the raster
      ingestion, the texture synthesis and the render tick of
      [src/js/three.js], with the older variants of the same file.

    JavaScript numbers are IEEE-754 binary64 values; they are modelled
    with the executable specification of binary floating point of the
    Standard Library ([SpecFloat], precision 53, maximal exponent 1024),
    so that rounding, signed zeros, infinities and NaN are those of the
    program.  The rounding error of the coordinate transform is stated
    over the real numbers of the Standard Library. *)

From Stdlib Require Import ZArith Bool List Lia.
From Stdlib Require Import Reals Lra.
From Stdlib Require Import Floats.SpecFloat.
Import ListNotations.

Set Implicit Arguments.

(** ** ECMAScript numbers *)

Module Number.

Definition prec : Z := 53.
Definition emax : Z := 1024.

Definition number : Type := spec_float.

Definition NaN : number := S754_nan.
Definition Infinity : number := S754_infinity false.

Definition add : number -> number -> number := SFadd prec emax.
Definition sub : number -> number -> number := SFsub prec emax.
Definition mul : number -> number -> number := SFmul prec emax.
Definition div : number -> number -> number := SFdiv prec emax.
Definition neg : number -> number := SFopp.

(** The relational operators [<], [>] and [<=]: false as soon as an
    operand is NaN. *)
Definition lt (x y : number) : bool := SFltb x y.
Definition gt (x y : number) : bool := SFltb y x.
Definition le (x y : number) : bool := SFleb x y.

(** The number denoted by an integer literal or held by an int32. *)
Definition of_Z (z : Z) : number := binary_normalize prec emax z 0 false.

(** The number denoted by a decimal literal [n / 10^k]: the binary64
    nearest to the quotient, which is what the correctly rounded
    division of the two (exactly representable) integers gives. *)
Definition decimal (n : Z) (k : nat) : number :=
  div (of_Z n) (of_Z (10 ^ Z.of_nat k)).

Definition isNaN (x : number) : bool :=
  match x with S754_nan => true | _ => false end.

Definition isFinite (x : number) : bool :=
  match x with S754_zero _ | S754_finite _ _ _ => true | _ => false end.

Definition isZero (x : number) : bool :=
  match x with S754_zero _ => true | _ => false end.

(** The mathematical value of a finite number with its fraction
    removed, that is truncated toward zero: [m * 2^e] is an integer when
    [0 <= e], and shifting the magnitude right drops the fraction bits
    otherwise. *)
Definition integral_part (x : number) : option Z :=
  match x with
  | S754_zero _ => Some 0%Z
  | S754_finite s m e => Some (cond_Zopp s (Z.shiftl (Zpos m) e))
  | S754_infinity _ | S754_nan => None
  end.

(** [Math.trunc(x)]: NaN, the infinities and the zeros are returned
    unchanged; otherwise the integral part of [x], with the sign of [x]
    when that part is zero. *)
Definition Math_trunc (x : number) : number :=
  match x with
  | S754_finite s m e =>
      if (0 <=? e)%Z then x
      else match Z.shiftl (Zpos m) e with
           | Zpos m' => binary_round prec emax s m' 0
           | _ => S754_zero s
           end
  | _ => x
  end.

(** [ToInt32(x)]: NaN and the infinities give 0; otherwise the integral
    part of [x] modulo 2^32, read as a signed 32-bit integer. *)
Definition ToInt32 (x : number) : Z :=
  match integral_part x with
  | None => 0
  | Some z =>
      let int32bit := (z mod 2 ^ 32)%Z in
      if (2 ^ 31 <=? int32bit)%Z then (int32bit - 2 ^ 32)%Z else int32bit
  end.

(** [x | y] on numbers: the bitwise or of the two int32 values. *)
Definition bitor (x y : number) : number :=
  of_Z (Z.lor (ToInt32 x) (ToInt32 y)).

(** [Math.min(x, y)]: NaN when an operand is NaN, otherwise the smaller
    one, with -0 below +0. *)
Definition Math_min (x y : number) : number :=
  match SFcompare x y with
  | None => NaN
  | Some Lt => x
  | Some Gt => y
  | Some Eq =>
      match x, y with
      | S754_zero sx, S754_zero sy => S754_zero (sx || sy)
      | _, _ => x
      end
  end.

End Number.

Import Number.

(** ** Values

    The values the modelled code handles are numbers and [undefined] (an
    array slot past the end, a tag the file does not have).  Arithmetic
    applies [ToNumber] to its operands, and [ToNumber(undefined)] is
    NaN. *)

Inductive value : Type :=
  | VUndefined
  | VNumber (x : number).

Definition ToNumber (v : value) : number :=
  match v with
  | VUndefined => NaN
  | VNumber x => x
  end.

Definition js_add (x y : value) : value := VNumber (add (ToNumber x) (ToNumber y)).
Definition js_sub (x y : value) : value := VNumber (sub (ToNumber x) (ToNumber y)).
Definition js_mul (x y : value) : value := VNumber (mul (ToNumber x) (ToNumber y)).
Definition js_div (x y : value) : value := VNumber (div (ToNumber x) (ToNumber y)).
Definition js_neg (x : value) : value := VNumber (neg (ToNumber x)).
Definition js_trunc (x : value) : value := VNumber (Math_trunc (ToNumber x)).
Definition js_bitor (x y : value) : value := VNumber (bitor (ToNumber x) (ToNumber y)).

(** An integer literal, and a decimal literal [n / 10^k]. *)
Definition int (z : Z) : value := VNumber (of_Z z).
Definition dec (n : Z) (k : nat) : value := VNumber (decimal n k).

(** ** Arithmetic interface of the coordinate transform

    [transform] and the two matrices of [loadMethaneAssets] use only
    [+], [*], [/], unary [-], integer literals, [Math.trunc] (or [| 0] in
    the older variant) and the reading of an array slot.  They are written
    once over this interface, which is instantiated with the values of the
    program. *)

Class Arith (num : Type) : Type := {
  plus : num -> num -> num;
  times : num -> num -> num;
  over : num -> num -> num;
  minus : num -> num;
  lit : Z -> num;
  (** the content of an array slot that does not exist *)
  absent : num;
  (** [Math.trunc(v)] *)
  trunc : num -> num;
  (** [v | 0] *)
  or_zero : num -> num
}.

#[export] Instance javascript : Arith value := {
  plus := js_add;
  times := js_mul;
  over := js_div;
  minus := js_neg;
  lit := int;
  absent := VUndefined;
  trunc := js_trunc;
  or_zero := fun v => js_bitor v (int 0)
}.

(** ** The coordinate transform ([transform], three.js lines 34-37) *)

Section Transform.

Context {num : Type} `{Arith num}.

(** [M[i]]: the slot, or [undefined] outside the array. *)
Definition at_index (M : list num) (i : nat) : num := nth i M absent.

(** three.js: [const round = (v) => (roundToInt ? Math.trunc(v) : v)]. *)
Definition transform (a b : num) (M : list num) (roundToInt : bool) : list num :=
  let round := fun v => if roundToInt then trunc v else v in
  [ round (plus (plus (at_index M 0) (times (at_index M 1) a)) (times (at_index M 2) b));
    round (plus (plus (at_index M 3) (times (at_index M 4) a)) (times (at_index M 5) b)) ].

(** The older variant: [const round = (v) => (roundToInt ? v | 0 : v)]. *)
Definition transform_legacy (a b : num) (M : list num) (roundToInt : bool) : list num :=
  let round := fun v => if roundToInt then or_zero v else v in
  [ round (plus (plus (at_index M 0) (times (at_index M 1) a)) (times (at_index M 2) b));
    round (plus (plus (at_index M 3) (times (at_index M 4) a)) (times (at_index M 5) b)) ].

(** The two matrices of [loadMethaneAssets], from the tie point
    [(gx, gy)] and the pixel scale [(sx, sy)], where [sy] is the scale
    after [sy = -sy]:
    [pixelToGPS = [gx, sx, 0, gy, 0, sy]] and
    [gpsToPixel = [-gx / sx, 1 / sx, 0, -gy / sy, 0, 1 / sy]]. *)
Definition pixelToGPS (gx gy sx sy : num) : list num :=
  [gx; sx; lit 0; gy; lit 0; sy].

Definition gpsToPixel (gx gy sx sy : num) : list num :=
  [over (minus gx) sx; over (lit 1) sx; lit 0;
   over (minus gy) sy; lit 0; over (lit 1) sy].

End Transform.

(** ** Raster ingestion ([loadMethaneAssets], three.js lines 205-237)

    The function is asynchronous: it runs to its end or stops at the
    first exception, which rejects its promise.  What it leaves behind is
    the [testasset] field and the lines written to the console. *)

Inductive exn : Type :=
  | TypeError        (* raised by the language: destructuring [undefined] *)
  | LibraryFailure.  (* a rejection or an exception of the geotiff library *)

Inductive completion (A : Type) : Type :=
  | Normal (a : A)
  | Throw (e : exn).

Arguments Normal {A} a.
Arguments Throw {A} e.

Record GeoTIFFImage : Type := {
  (* image.fileDirectory.ModelPixelScale, [None] when the tag is absent *)
  ModelPixelScale : option (list number);
  (* image.fileDirectory.ModelTiepoint *)
  ModelTiepoint : option (list number);
  (* image.getBoundingBox() *)
  getBoundingBox : completion (list number)
}.

Record GeoTIFF : Type := {
  (* await asset.getImage() *)
  getImage : completion GeoTIFFImage
}.

Inductive log_entry : Type :=
  | LogAsset (asset : GeoTIFF)
  | LogModelPixelScale (s : list number)
  | LogPixelToGPS (M : list value)
  | LogGpsToPixel (M : list value)
  | LogLookup (lat long : value).

Record ingest_state : Type := {
  testasset : option GeoTIFF;
  console : list log_entry
}.

Definition Async (A : Type) : Type := ingest_state -> ingest_state * completion A.

Definition ret {A} (a : A) : Async A := fun st => (st, Normal a).

Definition bind {A B} (m : Async A) (k : A -> Async B) : Async B :=
  fun st =>
    match m st with
    | (st', Normal a) => k a st'
    | (st', Throw e) => (st', Throw e)
    end.

Notation "x <- m ;; k" := (bind m (fun x => k))
  (at level 61, m at next level, right associativity).
Notation "m ;;; k" := (bind m (fun _ => k))
  (at level 61, right associativity).

(** [await p]: the value of a settled promise, or its rejection. *)
Definition await {A} (p : completion A) : Async A := fun st => (st, p).

Definition console_log (l : log_entry) : Async unit :=
  fun st => ({| testasset := testasset st; console := console st ++ [l] |}, Normal tt).

Definition set_testasset (a : GeoTIFF) : Async unit :=
  fun st => ({| testasset := Some a; console := console st |}, Normal tt).

(** The source of an array destructuring [let [x, y, ...] = arr]:
    [undefined] is not iterable. *)
Definition iterate (arr : option (list number)) : Async (list value) :=
  match arr with
  | None => await (Throw TypeError)
  | Some l => ret (map VNumber l)
  end.

(** [const lerp = (a, b, t) => (1 - t) * a + t * b]. *)
Definition lerp (a b t : value) : value :=
  js_add (js_mul (js_sub (int 1) t) a) (js_mul t b).

(** [fromUrl] is the settled promise of [fromUrl(tifurl)]; [random1] and
    [random2] are the two results of [Math.random()]. *)
Definition loadMethaneAssets (fromUrl : completion GeoTIFF) (random1 random2 : number)
  : Async unit :=
  asset <- await fromUrl ;;
  set_testasset asset ;;;
  console_log (LogAsset asset) ;;;
  image <- await (getImage asset) ;;
  let s := ModelPixelScale image in
  let t := ModelTiepoint image in
  s_ <- iterate s ;;
  let sx := at_index s_ 0 in
  let sy := at_index s_ 1 in
  t_ <- iterate t ;;
  let gx := at_index t_ 3 in
  let gy := at_index t_ 4 in
  let sy := minus sy in
  console_log (LogModelPixelScale (match s with Some l => l | None => [] end)) ;;;
  let pixelToGPS := pixelToGPS gx gy sx sy in
  console_log (LogPixelToGPS pixelToGPS) ;;;
  let gpsToPixel := gpsToPixel gx gy sx sy in
  console_log (LogGpsToPixel gpsToPixel) ;;;
  bbox <- await (getBoundingBox image) ;;
  let bbox_ := map VNumber bbox in
  let gx1 := at_index bbox_ 0 in
  let gy1 := at_index bbox_ 1 in
  let gx2 := at_index bbox_ 2 in
  let gy2 := at_index bbox_ 3 in
  let lat := lerp gy1 gy2 (VNumber random1) in
  let long := lerp gx1 gx2 (VNumber random2) in
  console_log (LogLookup lat long).

Definition initial_ingest : ingest_state := {| testasset := None; console := [] |}.

(** The matrices a run wrote to the console. *)
Fixpoint logged_pixelToGPS (c : list log_entry) : option (list value) :=
  match c with
  | [] => None
  | LogPixelToGPS M :: _ => Some M
  | _ :: c' => logged_pixelToGPS c'
  end.

Fixpoint logged_gpsToPixel (c : list log_entry) : option (list value) :=
  match c with
  | [] => None
  | LogGpsToPixel M :: _ => Some M
  | _ :: c' => logged_gpsToPixel c'
  end.

(** The dataset of the end-to-end scenario:
    [pixelScale = (0.01, 0.01, 0)], [tiePoint = (0, 0, 0, -100, 40, 0)],
    bounding box [(-100, 30, -90, 40)]. *)
Definition scenario_image : GeoTIFFImage := {|
  ModelPixelScale := Some [decimal 1 2; decimal 1 2; of_Z 0];
  ModelTiepoint := Some [of_Z 0; of_Z 0; of_Z 0; of_Z (-100); of_Z 40; of_Z 0];
  getBoundingBox := Normal [of_Z (-100); of_Z 30; of_Z (-90); of_Z 40]
|}.

Definition scenario_asset : GeoTIFF := {| getImage := Normal scenario_image |}.

(** ** Scene objects, renderer and the visualization object

    Objects of the three.js library live in a store and are named by
    their index in it: the scene's children and the fields [planeMesh] and
    [methaneMesh] refer to the same meshes. *)

Definition ref : Type := nat.

Inductive texture : Type :=
  | ImageTexture (repeat_s repeat_t : Z)  (* TextureLoader().load(..), repeat.set(s, t) *)
  | TargetTexture (target : ref).         (* renderTarget.texture *)

Record Material : Type := {
  map_ : option texture;
  color : Z;
  transparent : bool;
  opacity : number
}.

Record Mesh : Type := {
  geometry : number * number;  (* PlaneGeometry(width, height) *)
  material : Material;
  visible : bool
}.

Inductive object3D : Type :=
  | PerspectiveCamera (aspect projected_aspect : number)
  | OrthographicCamera
  | AmbientLight
  | MeshObject (m : Mesh).

Definition store : Type := list object3D.

Definition alloc (h : store) (o : object3D) : ref * store := (length h, h ++ [o]).

Fixpoint update (h : store) (r : ref) (f : object3D -> object3D) : store :=
  match h, r with
  | [], _ => []
  | o :: h', O => f o :: h'
  | o :: h', S r' => o :: update h' r' f
  end.

Definition mesh_at (h : store) (r : ref) : option Mesh :=
  match nth_error h r with
  | Some (MeshObject m) => Some m
  | _ => None
  end.

(** [mesh.visible = b]. *)
Definition with_visible (b : bool) (m : Mesh) : Mesh :=
  {| geometry := geometry m; material := material m; visible := b |}.

Definition set_visible (b : bool) (o : object3D) : object3D :=
  match o with
  | MeshObject m => MeshObject (with_visible b m)
  | _ => o
  end.

(** The meshes of a scene, and those a draw shows. *)
Fixpoint meshes_of (h : store) (children : list ref) : list (ref * Mesh) :=
  match children with
  | [] => []
  | r :: rs =>
      match mesh_at h r with
      | Some m => (r, m) :: meshes_of h rs
      | None => meshes_of h rs
      end
  end.

Definition shown (h : store) (children : list ref) : list (ref * Mesh) :=
  filter (fun rm => visible (snd rm)) (meshes_of h children).

(** What the renderer was asked to do: a draw of the visible meshes of a
    scene into a target ([None] is the canvas), or a clear of a target. *)
Inductive gl_command : Type :=
  | Draw (target : option ref) (meshes : list (ref * Mesh))
  | Clear (target : option ref).

Record WebGLRenderer : Type := {
  size : number * number;
  pixelRatio : number;
  currentRenderTarget : option ref;
  renderTargets : list (number * number);  (* the targets created, by size *)
  commands : list gl_command
}.

Definition setSize (w h : number) (r : WebGLRenderer) : WebGLRenderer :=
  {| size := (w, h); pixelRatio := pixelRatio r;
     currentRenderTarget := currentRenderTarget r;
     renderTargets := renderTargets r; commands := commands r |}.

Definition setPixelRatio (v : number) (r : WebGLRenderer) : WebGLRenderer :=
  {| size := size r; pixelRatio := v;
     currentRenderTarget := currentRenderTarget r;
     renderTargets := renderTargets r; commands := commands r |}.

Definition getRenderTarget (r : WebGLRenderer) : option ref := currentRenderTarget r.

Definition setRenderTarget (t : option ref) (r : WebGLRenderer) : WebGLRenderer :=
  {| size := size r; pixelRatio := pixelRatio r;
     currentRenderTarget := t;
     renderTargets := renderTargets r; commands := commands r |}.

Definition newRenderTarget (w h : number) (r : WebGLRenderer) : ref * WebGLRenderer :=
  (length (renderTargets r),
   {| size := size r; pixelRatio := pixelRatio r;
      currentRenderTarget := currentRenderTarget r;
      renderTargets := renderTargets r ++ [(w, h)]; commands := commands r |}).

Definition issue (c : gl_command) (r : WebGLRenderer) : WebGLRenderer :=
  {| size := size r; pixelRatio := pixelRatio r;
     currentRenderTarget := currentRenderTarget r;
     renderTargets := renderTargets r; commands := commands r ++ [c] |}.

(** [renderer.render(scene, camera)] draws into the current target (a
    third argument, as the older variant passes, is not a parameter of the
    function in three.js 0.157 and is ignored). *)
Definition renderer_render (h : store) (children : list ref) (r : WebGLRenderer)
  : WebGLRenderer :=
  issue (Draw (currentRenderTarget r) (shown h children)) r.

Definition renderer_clear (r : WebGLRenderer) : WebGLRenderer :=
  issue (Clear (currentRenderTarget r)) r.

(** The module-level [device]; its field [pixelRatio] is named
    [devicePixelRatio] here, [pixelRatio] being the renderer's. *)
Record Device : Type := { width : number; height : number; devicePixelRatio : number }.

(** [window.innerWidth], [window.innerHeight], [window.devicePixelRatio]. *)
Record Window : Type := { innerWidth : number; innerHeight : number; windowPixelRatio : number }.

Record Layers : Type := { earth : bool; methane : bool; cow : bool; someCrop : bool }.

Inductive layer : Type := Earth | Methane | Cow | SomeCrop.

Definition declared_layers : list layer := [Earth; Methane; Cow; SomeCrop].

Definition set_layer (l : layer) (b : bool) (ls : Layers) : Layers :=
  match l with
  | Earth => {| earth := b; methane := methane ls; cow := cow ls; someCrop := someCrop ls |}
  | Methane => {| earth := earth ls; methane := b; cow := cow ls; someCrop := someCrop ls |}
  | Cow => {| earth := earth ls; methane := methane ls; cow := b; someCrop := someCrop ls |}
  | SomeCrop => {| earth := earth ls; methane := methane ls; cow := cow ls; someCrop := b |}
  end.

Inductive scale : Type := ScaleX | ScaleY | ScaleZ.

(** The controllers of the control panel: [folder.add(object, property,
    min, max)] on a number, [folder.add(object, property)] on a boolean. *)
Inductive controller : Type :=
  | NumberController (property : scale) (min max : number)
  | BooleanController (property : layer).

(** [Clock]: whether it runs, the time of the last reading and the
    elapsed seconds. *)
Record Clock : Type := { running : bool; oldTime : number; elapsedTime : number }.

Record Three : Type := {
  device : Device;                 (* the module-level [device] *)
  objects : store;
  scene : list ref;                (* this.scene.children *)
  camera : option ref;
  renderer : WebGLRenderer;
  clock : Clock;
  gui : list controller;
  earthtex : option texture;
  scaleX : number;
  scaleY : number;
  scaleZ : number;
  layers : Layers;
  planeMesh : option ref;
  methaneMesh : option ref;
  ambientLight : option ref;
  methaneTexture : option texture;
  animationFrames : nat;           (* callbacks given to requestAnimationFrame *)
  resizeListeners : nat
}.

(** Assignment to one field of the object. *)
Definition set_device (v : Device) (this : Three) : Three :=
  {| device := v; objects := objects this; scene := scene this;
     camera := camera this; renderer := renderer this; clock := clock this;
     gui := gui this; earthtex := earthtex this; scaleX := scaleX this;
     scaleY := scaleY this; scaleZ := scaleZ this; layers := layers this;
     planeMesh := planeMesh this; methaneMesh := methaneMesh this;
     ambientLight := ambientLight this;
     methaneTexture := methaneTexture this;
     animationFrames := animationFrames this;
     resizeListeners := resizeListeners this |}.

Definition set_objects (v : store) (this : Three) : Three :=
  {| device := device this; objects := v; scene := scene this;
     camera := camera this; renderer := renderer this; clock := clock this;
     gui := gui this; earthtex := earthtex this; scaleX := scaleX this;
     scaleY := scaleY this; scaleZ := scaleZ this; layers := layers this;
     planeMesh := planeMesh this; methaneMesh := methaneMesh this;
     ambientLight := ambientLight this;
     methaneTexture := methaneTexture this;
     animationFrames := animationFrames this;
     resizeListeners := resizeListeners this |}.

Definition set_scene (v : list ref) (this : Three) : Three :=
  {| device := device this; objects := objects this; scene := v;
     camera := camera this; renderer := renderer this; clock := clock this;
     gui := gui this; earthtex := earthtex this; scaleX := scaleX this;
     scaleY := scaleY this; scaleZ := scaleZ this; layers := layers this;
     planeMesh := planeMesh this; methaneMesh := methaneMesh this;
     ambientLight := ambientLight this;
     methaneTexture := methaneTexture this;
     animationFrames := animationFrames this;
     resizeListeners := resizeListeners this |}.

Definition set_camera (v : option ref) (this : Three) : Three :=
  {| device := device this; objects := objects this; scene := scene this;
     camera := v; renderer := renderer this; clock := clock this;
     gui := gui this; earthtex := earthtex this; scaleX := scaleX this;
     scaleY := scaleY this; scaleZ := scaleZ this; layers := layers this;
     planeMesh := planeMesh this; methaneMesh := methaneMesh this;
     ambientLight := ambientLight this;
     methaneTexture := methaneTexture this;
     animationFrames := animationFrames this;
     resizeListeners := resizeListeners this |}.

Definition set_renderer (v : WebGLRenderer) (this : Three) : Three :=
  {| device := device this; objects := objects this; scene := scene this;
     camera := camera this; renderer := v; clock := clock this;
     gui := gui this; earthtex := earthtex this; scaleX := scaleX this;
     scaleY := scaleY this; scaleZ := scaleZ this; layers := layers this;
     planeMesh := planeMesh this; methaneMesh := methaneMesh this;
     ambientLight := ambientLight this;
     methaneTexture := methaneTexture this;
     animationFrames := animationFrames this;
     resizeListeners := resizeListeners this |}.

Definition set_clock (v : Clock) (this : Three) : Three :=
  {| device := device this; objects := objects this; scene := scene this;
     camera := camera this; renderer := renderer this; clock := v;
     gui := gui this; earthtex := earthtex this; scaleX := scaleX this;
     scaleY := scaleY this; scaleZ := scaleZ this; layers := layers this;
     planeMesh := planeMesh this; methaneMesh := methaneMesh this;
     ambientLight := ambientLight this;
     methaneTexture := methaneTexture this;
     animationFrames := animationFrames this;
     resizeListeners := resizeListeners this |}.

Definition set_gui (v : list controller) (this : Three) : Three :=
  {| device := device this; objects := objects this; scene := scene this;
     camera := camera this; renderer := renderer this; clock := clock this;
     gui := v; earthtex := earthtex this; scaleX := scaleX this;
     scaleY := scaleY this; scaleZ := scaleZ this; layers := layers this;
     planeMesh := planeMesh this; methaneMesh := methaneMesh this;
     ambientLight := ambientLight this;
     methaneTexture := methaneTexture this;
     animationFrames := animationFrames this;
     resizeListeners := resizeListeners this |}.

Definition set_earthtex (v : option texture) (this : Three) : Three :=
  {| device := device this; objects := objects this; scene := scene this;
     camera := camera this; renderer := renderer this; clock := clock this;
     gui := gui this; earthtex := v; scaleX := scaleX this;
     scaleY := scaleY this; scaleZ := scaleZ this; layers := layers this;
     planeMesh := planeMesh this; methaneMesh := methaneMesh this;
     ambientLight := ambientLight this;
     methaneTexture := methaneTexture this;
     animationFrames := animationFrames this;
     resizeListeners := resizeListeners this |}.

Definition set_scaleX (v : number) (this : Three) : Three :=
  {| device := device this; objects := objects this; scene := scene this;
     camera := camera this; renderer := renderer this; clock := clock this;
     gui := gui this; earthtex := earthtex this; scaleX := v;
     scaleY := scaleY this; scaleZ := scaleZ this; layers := layers this;
     planeMesh := planeMesh this; methaneMesh := methaneMesh this;
     ambientLight := ambientLight this;
     methaneTexture := methaneTexture this;
     animationFrames := animationFrames this;
     resizeListeners := resizeListeners this |}.

Definition set_scaleY (v : number) (this : Three) : Three :=
  {| device := device this; objects := objects this; scene := scene this;
     camera := camera this; renderer := renderer this; clock := clock this;
     gui := gui this; earthtex := earthtex this; scaleX := scaleX this;
     scaleY := v; scaleZ := scaleZ this; layers := layers this;
     planeMesh := planeMesh this; methaneMesh := methaneMesh this;
     ambientLight := ambientLight this;
     methaneTexture := methaneTexture this;
     animationFrames := animationFrames this;
     resizeListeners := resizeListeners this |}.

Definition set_scaleZ (v : number) (this : Three) : Three :=
  {| device := device this; objects := objects this; scene := scene this;
     camera := camera this; renderer := renderer this; clock := clock this;
     gui := gui this; earthtex := earthtex this; scaleX := scaleX this;
     scaleY := scaleY this; scaleZ := v; layers := layers this;
     planeMesh := planeMesh this; methaneMesh := methaneMesh this;
     ambientLight := ambientLight this;
     methaneTexture := methaneTexture this;
     animationFrames := animationFrames this;
     resizeListeners := resizeListeners this |}.

Definition set_layers (v : Layers) (this : Three) : Three :=
  {| device := device this; objects := objects this; scene := scene this;
     camera := camera this; renderer := renderer this; clock := clock this;
     gui := gui this; earthtex := earthtex this; scaleX := scaleX this;
     scaleY := scaleY this; scaleZ := scaleZ this; layers := v;
     planeMesh := planeMesh this; methaneMesh := methaneMesh this;
     ambientLight := ambientLight this;
     methaneTexture := methaneTexture this;
     animationFrames := animationFrames this;
     resizeListeners := resizeListeners this |}.

Definition set_planeMesh (v : option ref) (this : Three) : Three :=
  {| device := device this; objects := objects this; scene := scene this;
     camera := camera this; renderer := renderer this; clock := clock this;
     gui := gui this; earthtex := earthtex this; scaleX := scaleX this;
     scaleY := scaleY this; scaleZ := scaleZ this; layers := layers this;
     planeMesh := v; methaneMesh := methaneMesh this;
     ambientLight := ambientLight this;
     methaneTexture := methaneTexture this;
     animationFrames := animationFrames this;
     resizeListeners := resizeListeners this |}.

Definition set_methaneMesh (v : option ref) (this : Three) : Three :=
  {| device := device this; objects := objects this; scene := scene this;
     camera := camera this; renderer := renderer this; clock := clock this;
     gui := gui this; earthtex := earthtex this; scaleX := scaleX this;
     scaleY := scaleY this; scaleZ := scaleZ this; layers := layers this;
     planeMesh := planeMesh this; methaneMesh := v;
     ambientLight := ambientLight this;
     methaneTexture := methaneTexture this;
     animationFrames := animationFrames this;
     resizeListeners := resizeListeners this |}.

Definition set_ambientLight (v : option ref) (this : Three) : Three :=
  {| device := device this; objects := objects this; scene := scene this;
     camera := camera this; renderer := renderer this; clock := clock this;
     gui := gui this; earthtex := earthtex this; scaleX := scaleX this;
     scaleY := scaleY this; scaleZ := scaleZ this; layers := layers this;
     planeMesh := planeMesh this; methaneMesh := methaneMesh this;
     ambientLight := v; methaneTexture := methaneTexture this;
     animationFrames := animationFrames this;
     resizeListeners := resizeListeners this |}.

Definition set_methaneTexture (v : option texture) (this : Three) : Three :=
  {| device := device this; objects := objects this; scene := scene this;
     camera := camera this; renderer := renderer this; clock := clock this;
     gui := gui this; earthtex := earthtex this; scaleX := scaleX this;
     scaleY := scaleY this; scaleZ := scaleZ this; layers := layers this;
     planeMesh := planeMesh this; methaneMesh := methaneMesh this;
     ambientLight := ambientLight this; methaneTexture := v;
     animationFrames := animationFrames this;
     resizeListeners := resizeListeners this |}.

Definition set_animationFrames (v : nat) (this : Three) : Three :=
  {| device := device this; objects := objects this; scene := scene this;
     camera := camera this; renderer := renderer this; clock := clock this;
     gui := gui this; earthtex := earthtex this; scaleX := scaleX this;
     scaleY := scaleY this; scaleZ := scaleZ this; layers := layers this;
     planeMesh := planeMesh this; methaneMesh := methaneMesh this;
     ambientLight := ambientLight this;
     methaneTexture := methaneTexture this; animationFrames := v;
     resizeListeners := resizeListeners this |}.

Definition set_resizeListeners (v : nat) (this : Three) : Three :=
  {| device := device this; objects := objects this; scene := scene this;
     camera := camera this; renderer := renderer this; clock := clock this;
     gui := gui this; earthtex := earthtex this; scaleX := scaleX this;
     scaleY := scaleY this; scaleZ := scaleZ this; layers := layers this;
     planeMesh := planeMesh this; methaneMesh := methaneMesh this;
     ambientLight := ambientLight this;
     methaneTexture := methaneTexture this;
     animationFrames := animationFrames this; resizeListeners := v |}.

(** ** The methods of the visualization object (three.js lines 71-295) *)

Definition setup_params (this : Three) : Three :=
  let this := set_scaleX (of_Z 1) this in
  let this := set_scaleY (of_Z 1) this in
  let this := set_scaleZ (of_Z 1) this in
  set_layers {| earth := true; methane := true; cow := true; someCrop := true |} this.

Definition renderUI (this : Three) : Three :=
  set_gui
    [ NumberController ScaleX (decimal 1 1) (of_Z 5);
      NumberController ScaleY (decimal 1 1) (of_Z 5);
      NumberController ScaleZ (decimal 1 1) (of_Z 5);
      BooleanController Earth;
      BooleanController Methane;
      BooleanController Cow;
      BooleanController SomeCrop ] this.

(** [scene.add(object)] for a newly created object. *)
Definition scene_add_new (o : object3D) (this : Three) : ref * Three :=
  let (r, h) := alloc (objects this) o in
  (r, set_scene (scene this ++ [r]) (set_objects h this)).

Definition setLights (this : Three) : Three :=
  let (r, this) := scene_add_new AmbientLight this in
  set_ambientLight (Some r) this.

Definition loadAssets (this : Three) : Three :=
  set_earthtex (Some (ImageTexture 5000 1)) this.

(** [new MeshBasicMaterial({ map, color })], white when no color is
    given. *)
Definition new_material (t : option texture) (c : Z) : Material :=
  {| map_ := t; color := c; transparent := false; opacity := of_Z 1 |}.

Definition new_mesh (w h : number) (m : Material) : Mesh :=
  {| geometry := (w, h); material := m; visible := true |}.

(** [generateTexture] (three.js lines 240-265): an offscreen scene with
    one plane is drawn into a new render target. *)
Definition generateTexture (this : Three) : texture * Three :=
  let resolution := of_Z 2000 in
  let (renderTarget, rd) :=
    newRenderTarget resolution (div resolution (of_Z 2)) (renderer this) in
  let (textureCamera, h) := alloc (objects this) OrthographicCamera in
  let (plane, h) :=
    alloc h (MeshObject (new_mesh (decimal 1 1) (decimal 3 1)
                         (new_material None 0xFF0000))) in
  let textureScene := [plane] in
  let orig := getRenderTarget rd in
  let rd := setRenderTarget (Some renderTarget) rd in
  let rd := renderer_render h textureScene rd in
  let rd := setRenderTarget orig rd in
  let rd := renderer_clear rd in
  (TargetTexture renderTarget, set_renderer rd (set_objects h this)).

(** The older variant (lines 180-204 of the earlier copy of the file):
    the target is passed to [render] and never bound. *)
Definition generateTexture_legacy (this : Three) : texture * Three :=
  let resolution := of_Z 2000 in
  let (renderTarget, rd) := newRenderTarget resolution resolution (renderer this) in
  let (textureCamera, h) := alloc (objects this) OrthographicCamera in
  let textureScene : list ref := [] in
  let rd := renderer_render h textureScene rd in
  (TargetTexture renderTarget, set_renderer rd (set_objects h this)).

Definition setGeometry (this : Three) : Three :=
  let planeMaterial := new_material (earthtex this) 0xFFFFFF in
  let (r, this) :=
    scene_add_new (MeshObject (new_mesh (of_Z 10000) (of_Z 1) planeMaterial)) this in
  let this := set_planeMesh (Some r) this in
  let (tex, this) := generateTexture this in
  let this := set_methaneTexture (Some tex) this in
  let methaneMaterial :=
    {| map_ := methaneTexture this; color := 0xFFFFFF;
       transparent := true; opacity := decimal 5 1 |} in
  let (r, this) :=
    scene_add_new (MeshObject (new_mesh (of_Z 2) (of_Z 1) methaneMaterial)) this in
  set_methaneMesh (Some r) this.

(** [clock.getElapsedTime()], read at time [now] (milliseconds). *)
Definition getElapsedTime (now : number) (c : Clock) : number * Clock :=
  if running c then
    let diff := div (sub now (oldTime c)) (of_Z 1000) in
    let e := add (elapsedTime c) diff in
    (e, {| running := true; oldTime := now; elapsedTime := e |})
  else
    (of_Z 0, {| running := true; oldTime := now; elapsedTime := of_Z 0 |}).

(** Assignment to [mesh.visible] through a field that may still be
    [undefined]. *)
Definition assign_visible (field : option ref) (b : bool) (this : Three)
  : completion Three :=
  match field with
  | None => Throw TypeError
  | Some r => Normal (set_objects (update (objects this) r (set_visible b)) this)
  end.

(** [render] (three.js lines 268-278): one tick of the render loop. *)
Definition render (now : number) (this : Three) : completion Three :=
  let (elapsedTime, c) := getElapsedTime now (clock this) in
  let this := set_clock c this in
  match assign_visible (planeMesh this) (earth (layers this)) this with
  | Throw e => Throw e
  | Normal this =>
      match assign_visible (methaneMesh this) (methane (layers this)) this with
      | Throw e => Throw e
      | Normal this =>
          let this :=
            set_renderer (renderer_render (objects this) (scene this) (renderer this)) this in
          Normal (set_animationFrames (S (animationFrames this)) this)
      end
  end.

Definition setResize (this : Three) : Three :=
  set_resizeListeners (S (resizeListeners this)) this.

Definition set_aspect (a : number) (o : object3D) : object3D :=
  match o with
  | PerspectiveCamera _ p => PerspectiveCamera a p
  | _ => o
  end.

Definition updateProjectionMatrix (o : object3D) : object3D :=
  match o with
  | PerspectiveCamera a _ => PerspectiveCamera a a
  | _ => o
  end.

(** [onResize] (three.js lines 286-295). *)
Definition onResize (w : Window) (this : Three) : completion Three :=
  let d := {| width := innerWidth w; height := innerHeight w;
              devicePixelRatio := devicePixelRatio (device this) |} in
  let this := set_device d this in
  match camera this with
  | None => Throw TypeError
  | Some cam =>
      let h := update (objects this) cam (set_aspect (div (width d) (height d))) in
      let h := update h cam updateProjectionMatrix in
      let this := set_objects h this in
      let rd := setSize (width d) (height d) (renderer this) in
      let rd := setPixelRatio (Math_min (devicePixelRatio d) (of_Z 2)) rd in
      Normal (set_renderer rd this)
  end.

(** The module-level [device], read from the window when the module is
    loaded. *)
Definition load_device (w : Window) : Device :=
  {| width := innerWidth w; height := innerHeight w;
     devicePixelRatio := windowPixelRatio w |}.

(** The object before the constructor body runs: the class fields, with
    the renderer as [new WebGLRenderer] makes it (pixel ratio 1, the
    canvas as target). *)
Definition fields (d : Device) : Three :=
  {| device := d; objects := []; scene := []; camera := None;
     renderer := {| size := (of_Z 0, of_Z 0); pixelRatio := of_Z 1;
                    currentRenderTarget := None; renderTargets := [];
                    commands := [] |};
     clock := {| running := false; oldTime := of_Z 0; elapsedTime := of_Z 0 |};
     gui := []; earthtex := None;
     scaleX := of_Z 1; scaleY := of_Z 1; scaleZ := of_Z 1;
     layers := {| earth := true; methane := true; cow := true; someCrop := true |};
     planeMesh := None; methaneMesh := None; ambientLight := None;
     methaneTexture := None; animationFrames := 0; resizeListeners := 0 |}.

(** [constructor] (three.js lines 71-115); [now] is the time of the first
    tick.  [loadMethaneAssets()] is started and not awaited: it touches
    none of the fields below. *)
Definition constructor (d : Device) (now : number) : completion Three :=
  let this := fields d in
  let aspect := div (width d) (height d) in
  let (cam, this) := scene_add_new (PerspectiveCamera aspect aspect) this in
  let this := set_camera (Some cam) this in
  let rd := setSize (width d) (height d) (renderer this) in
  let rd := setPixelRatio (Math_min (devicePixelRatio d) (of_Z 2)) rd in
  let this := set_renderer rd this in
  let this := loadAssets this in
  let this := setup_params this in
  let this := renderUI this in
  let this := setLights this in
  let this := setGeometry this in
  match render now this with
  | Throw e => Throw e
  | Normal this => Normal (setResize this)
  end.

(** ** The control panel

    The panel is the dat.GUI library, a dependency that is not among the
    sources: [renderUI] only binds its controllers. *)

(** Modelled from the spec: the value a number controller stores for a
    value [v] it is given, the clamping being code of the control panel
    and not of the sources ("bounded to a configured range (e.g.,
    0.1-5.0) - out-of-range values are clamped, never rejected").  This
    is [NumberController.setValue] of dat.GUI with [min] and [max] given
    and no step: [v] is replaced by [min] when [v < min], else by [max]
    when [v > max], and the result is stored in the bound property. *)
Definition bounded_value (min max v : number) : number :=
  if lt v min then min else if gt v max then max else v.

Definition set_scale (p : scale) (v : number) (this : Three) : Three :=
  match p with
  | ScaleX => set_scaleX v this
  | ScaleY => set_scaleY v this
  | ScaleZ => set_scaleZ v this
  end.

Definition get_scale (p : scale) (this : Three) : number :=
  match p with
  | ScaleX => scaleX this
  | ScaleY => scaleY this
  | ScaleZ => scaleZ this
  end.

(** What a controller receives: a number from a slider or a number box,
    a boolean from a checkbox. *)
Inductive input : Type :=
  | NumberInput (v : number)
  | BooleanInput (b : bool).

Definition setValue (c : controller) (i : input) (this : Three) : Three :=
  match c, i with
  | NumberController p min max, NumberInput v =>
      set_scale p (bounded_value min max v) this
  | BooleanController l, BooleanInput b =>
      set_layers (set_layer l b (layers this)) this
  | _, _ => this
  end.

(** The callbacks the host runs after construction. *)
Inductive event : Type :=
  | AnimationFrame (now : number)
  | Resize (w : Window)
  | PanelInput (c : nat) (i : input).   (* the [c]-th controller of the panel *)

Definition handle (e : event) (this : Three) : completion Three :=
  match e with
  | AnimationFrame now => render now this
  | Resize w => onResize w this
  | PanelInput c i =>
      match nth_error (gui this) c with
      | Some ctl => Normal (setValue ctl i this)
      | None => Normal this
      end
  end.

Fixpoint run (es : list event) (this : Three) : completion Three :=
  match es with
  | [] => Normal this
  | e :: es' =>
      match handle e this with
      | Normal this' => run es' this'
      | Throw x => Throw x
      end
  end.

Definition scenario_window : Window :=
  {| innerWidth := of_Z 1280; innerHeight := of_Z 720; windowPixelRatio := of_Z 3 |}.

(** * Vocabulary of the statements *)

(** A point as [transform] returns it, fed back to [transform]. *)
Definition apply {num : Type} `{Arith num} (M : list num) (p : list num) : list num :=
  transform (at_index p 0) (at_index p 1) M false.

(** [inverse(forward(px, py))] for the dataset with tie point [(gx, gy)]
    and pixel scale [(sx, sy)] as read from the file: the ingestion path
    negates [sy] before it builds the two matrices. *)
Definition round_trip {num : Type} `{Arith num} (gx gy sx sy px py : num) : list num :=
  let sy := minus sy in
  apply (gpsToPixel gx gy sx sy) (apply (pixelToGPS gx gy sx sy) [px; py]).

(** Whether two numbers differ by more than [tol]: [Math.abs(x - y) > tol]. *)
Definition differ_by_more_than (tol x y : value) : bool :=
  gt (SFabs (ToNumber (js_sub x y))) (ToNumber tol).

(** A run of the ingestion on a fetched file. *)
Definition ingest (asset : GeoTIFF) (random1 random2 : number)
  : ingest_state * completion unit :=
  loadMethaneAssets (Normal asset) random1 random2 initial_ingest.

(** The first two components of a pixel scale, as the destructuring
    reads them. *)
Definition scale_x (s : list number) : value := at_index (map VNumber s) 0.
Definition scale_y (s : list number) : value := at_index (map VNumber s) 1.

(** A dataset whose pixel scale is zero on both axes. *)
Definition degenerate_image : GeoTIFFImage := {|
  ModelPixelScale := Some [of_Z 0; of_Z 0; of_Z 0];
  ModelTiepoint := Some [of_Z 0; of_Z 0; of_Z 0; of_Z (-100); of_Z 40; of_Z 0];
  getBoundingBox := Normal [of_Z (-100); of_Z 40; of_Z (-100); of_Z 40]
|}.

Definition degenerate_asset : GeoTIFF := {| getImage := Normal degenerate_image |}.

(** A dataset without the [ModelTiepoint] tag, and one whose pixel scale
    has two elements instead of three. *)
Definition untied_image : GeoTIFFImage := {|
  ModelPixelScale := Some [decimal 1 2; decimal 1 2; of_Z 0];
  ModelTiepoint := None;
  getBoundingBox := Throw LibraryFailure
|}.

Definition short_scale_image : GeoTIFFImage := {|
  ModelPixelScale := Some [decimal 1 2; decimal 1 2];
  ModelTiepoint := Some [of_Z 0; of_Z 0; of_Z 0; of_Z (-100); of_Z 40; of_Z 0];
  getBoundingBox := Normal [of_Z (-100); of_Z 30; of_Z (-90); of_Z 40]
|}.

(** An update of the camera leaves the meshes as they are. *)
Definition keeps_meshes (f : object3D -> object3D) : Prop :=
  forall o, match o with
            | MeshObject m => f o = MeshObject m
            | _ => match f o with MeshObject _ => False | _ => True end
            end.

(** The controllers [renderUI] adds. *)
Definition panel : list controller :=
  [ NumberController ScaleX (decimal 1 1) (of_Z 5);
    NumberController ScaleY (decimal 1 1) (of_Z 5);
    NumberController ScaleZ (decimal 1 1) (of_Z 5);
    BooleanController Earth;
    BooleanController Methane;
    BooleanController Cow;
    BooleanController SomeCrop ].

(** What construction establishes and every callback keeps: the two mesh
    fields name two distinct meshes, which are the meshes of the scene;
    the camera exists; the panel is the one of [renderUI]; the device
    pixel ratio is the one read at load time, and the renderer's ratio is
    derived from it. *)
Record constructed (d : Device) (this : Three) (p m : ref) : Prop := {
  c_plane : planeMesh this = Some p;
  c_methane : methaneMesh this = Some m;
  c_distinct : p <> m;
  c_plane_mesh : exists mp, mesh_at (objects this) p = Some mp;
  c_methane_mesh : exists mm, mesh_at (objects this) m = Some mm;
  c_scene : map fst (meshes_of (objects this) (scene this)) = [p; m];
  c_camera : exists c, camera this = Some c;
  c_gui : gui this = panel;
  c_device : devicePixelRatio (device this) = devicePixelRatio d;
  c_ratio : pixelRatio (renderer this) = Math_min (devicePixelRatio d) (of_Z 2)
}.

(** The states the object goes through: construction with the device
    [d], then any callbacks. *)
Definition reachable (d : Device) (this : Three) : Prop :=
  exists now es this0, constructor d now = Normal this0 /\ run es this0 = Normal this.

(** Evaluation of the methods on a symbolic state: everything is
    computed except the arithmetic on numbers. *)
Ltac evaluate := cbv -[add sub mul div of_Z decimal Math_min Math_trunc].

(** The store after a tick: the two assignments to [visible]. *)
Definition synced (this : Three) (p m : ref) : store :=
  update (update (objects this) p (set_visible (earth (layers this))))
         m (set_visible (methane (layers this))).

(** The [visible] flag of the mesh a field refers to. *)
Definition visible_at (this : Three) (r : ref) : option bool :=
  option_map visible (mesh_at (objects this) r).

(** The position in the panel of the checkbox of a layer. *)
Definition checkbox (l : layer) : nat :=
  match l with
  | Earth => 3
  | Methane => 4
  | Cow => 5
  | SomeCrop => 6
  end.

(** The object constructed in a 1280 x 720 window of device pixel ratio
    3. *)
Definition scenario_three : Three :=
  match constructor (load_device scenario_window) (of_Z 0) with
  | Normal this => this
  | Throw _ => fields (load_device scenario_window)
  end.

(** The object with the two flags [cow] and [someCrop] masked. *)
Definition without_cow_someCrop (this : Three) : Three :=
  set_layers {| earth := earth (layers this); methane := methane (layers this);
                cow := false; someCrop := false |} this.

(** Two ticks end alike: both complete, with objects equal up to the
    two flags, or both throw the same exception. *)
Definition same_completion (x y : completion Three) : Prop :=
  match x, y with
  | Normal a, Normal b => without_cow_someCrop a = without_cow_someCrop b
  | Throw e, Throw e' => e = e'
  | _, _ => False
  end.

(** What a tick writes: the store (with the [visible] flags of all
    meshes), the renderer (with the draw issued), the clock and the
    scheduled callbacks. *)
Definition written (c : completion Three)
  : option (store * WebGLRenderer * Clock * nat) :=
  match c with
  | Normal this => Some (objects this, renderer this, clock this, animationFrames this)
  | Throw _ => None
  end.

Definition layers_after (c : completion Three) : option Layers :=
  match c with
  | Normal this => Some (layers this)
  | Throw _ => None
  end.


(** The constructed object with the two unused layers switched off. *)
Definition scenario_three_no_cow : Three :=
  setValue (BooleanController SomeCrop) (BooleanInput false)
    (setValue (BooleanController Cow) (BooleanInput false) scenario_three).

Definition option_list {A} (o : option A) : list A :=
  match o with Some a => [a] | None => [] end.

(** Every reference held by the scene and by the two mesh fields names
    an object of the store. *)
Definition refs_in_store (this : Three) : bool :=
  forallb (fun r => Nat.ltb r (length (objects this)))
    (scene this ++ option_list (planeMesh this) ++ option_list (methaneMesh this)).

(** The draw a tick issues, if the tick completes. *)
Definition tick_draw (now : number) (this : Three) : option gl_command :=
  match render now this with
  | Normal this' => Some (last (commands (renderer this')) (Clear None))
  | Throw _ => None
  end.

(** The position in the panel of the controller of a scale factor. *)
Definition slider (p : scale) : nat :=
  match p with
  | ScaleX => 0
  | ScaleY => 1
  | ScaleZ => 2
  end.

(** The callback of the controller of the scale factor [p], given [v]. *)
Definition scale_input (p : scale) (v : number) (this : Three) : completion Three :=
  handle (PanelInput (slider p) (NumberInput v)) this.

(** The scale factor [p] after a completed callback. *)
Definition scale_after (p : scale) (c : completion Three) : option number :=
  match c with
  | Normal this => Some (get_scale p this)
  | Throw _ => None
  end.

(** The integer a number is, when it is one. *)
Definition integer_value (x : number) : option Z :=
  match x with
  | S754_zero _ => Some 0%Z
  | S754_finite s m e =>
      if (Z.shiftl (Z.shiftl (Zpos m) e) (- e) =? Zpos m)%Z
      then Some (cond_Zopp s (Z.shiftl (Zpos m) e))
      else None
  | S754_infinity _ | S754_nan => None
  end.

(** [Math.abs(x - y) <= tol]. *)
Definition within (tol x y : number) : bool := le (SFabs (sub x y)) tol.

(** The pixel indices 0 .. 1000 of the end-to-end dataset. *)
Definition pixels : list Z := map Z.of_nat (seq 0 1001).

Definition is_zero_signed (s : bool) (x : number) : bool :=
  match x with
  | S754_zero s' => Bool.eqb s s'
  | _ => false
  end.

(** The numbers of the dataset and the coefficients of its inverse
    matrix, evaluated once. *)
Definition scenario_gx : number := Eval vm_compute in of_Z (-100).
Definition scenario_gy : number := Eval vm_compute in of_Z 40.
Definition scenario_s : number := Eval vm_compute in decimal 1 2.
Definition scenario_a : number :=
  Eval vm_compute in div (neg (of_Z (-100))) (decimal 1 2).
Definition scenario_b : number :=
  Eval vm_compute in div (of_Z 1) (decimal 1 2).
Definition scenario_c : number :=
  Eval vm_compute in div (neg (of_Z 40)) (neg (decimal 1 2)).
Definition scenario_d : number :=
  Eval vm_compute in div (of_Z 1) (neg (decimal 1 2)).

(** The components of the round trip, with the products by the zero
    coefficients replaced by their values. *)
Definition scenario_lon (i : Z) : number :=
  add (add scenario_gx (mul scenario_s (of_Z i))) (S754_zero false).

Definition scenario_lat (j : Z) : number :=
  add (add scenario_gy (S754_zero false)) (mul (neg scenario_s) (of_Z j)).

Definition scenario_px (i : Z) : number :=
  add (add scenario_a (mul scenario_b (scenario_lon i))) (S754_zero false).

Definition scenario_py (j : Z) : number :=
  add (add scenario_c (S754_zero true)) (mul scenario_d (scenario_lat j)).

(** ** Vocabulary of the rounding error *)

(** [2^e] as a real. *)
Definition bpow (e : Z) : R := powerRZ 2 e.

(** The real a finite number stands for; 0 for the others. *)
Definition B2R (x : number) : R :=
  match x with
  | S754_finite s m e => (IZR (cond_Zopp s (Zpos m)) * bpow e)%R
  | _ => 0%R
  end.

(** The sign of a number as a factor. *)
Definition sign (s : bool) : R := if s then (-1)%R else 1%R.

(** The result of rounding, from its mantissa and exponent. *)
Definition build (s : bool) (m e : Z) : number :=
  match m with
  | Z0 => S754_zero s
  | Zpos p => if (e <=? 971)%Z then S754_finite s p e else S754_infinity s
  | Zneg _ => S754_nan
  end.

(** A finite number of the format whose magnitude is at most [2^k]. *)
Definition good (k : Z) (x : number) : Prop :=
  isFinite x = true /\ valid_binary prec emax x = true /\ (Rabs (B2R x) <= bpow k)%R.

(** The error of one operation: [v] is the rounding of the real [z]. *)
Definition rounded (v z : R) : Prop :=
  (Rabs (v - z) <= bpow (-52) * Rabs z + bpow (-1074))%R.

(** The magnitude of a number is below [2^k] (a zero is), or at least
    [2^k], read off the number of digits of the mantissa and the
    exponent. *)
Definition magnitude_le (k : Z) (x : number) : bool :=
  match x with
  | S754_zero _ => true
  | S754_finite _ m e => (Zpos (digits2_pos m) + e <=? k)%Z
  | _ => false
  end.

Definition magnitude_ge (k : Z) (x : number) : bool :=
  match x with
  | S754_finite _ m e => (k <? Zpos (digits2_pos m) + e)%Z
  | _ => false
  end.

(** The datasets and pixels of the round trip: binary64 numbers, the two
    pixel scale components at least [2^-100] and below [2^100] in
    magnitude, the tie point and the pixel coordinates below [2^100] in
    magnitude. *)
Definition dataset_in_range (gx gy sx sy px py : number) : bool :=
  forallb (valid_binary prec emax) [gx; gy; sx; sy; px; py]
  && forallb (magnitude_ge (-100)) [sx; sy]
  && forallb (magnitude_le 100) [sx; sy; gx; gy; px; py].

(** ** Vocabulary of the further properties *)

(** The coordinate a run looked up, as written to the console. *)
Fixpoint logged_lookup (c : list log_entry) : option (value * value) :=
  match c with
  | [] => None
  | LogLookup lat long :: _ => Some (lat, long)
  | _ :: c' => logged_lookup c'
  end.

(** The end-to-end dataset anchored at pixel [(5, 7, 2)] instead of
    [(0, 0, 0)], with other third components. *)
Definition anchored_image : GeoTIFFImage := {|
  ModelPixelScale := Some [decimal 1 2; decimal 1 2; of_Z 9];
  ModelTiepoint := Some [of_Z 5; of_Z 7; of_Z 2; of_Z (-100); of_Z 40; of_Z 3];
  getBoundingBox := Normal [of_Z (-100); of_Z 30; of_Z (-90); of_Z 40]
|}.

(** The end-to-end dataset when the library reports no bounding box
    corner. *)
Definition boxless_image : GeoTIFFImage := {|
  ModelPixelScale := Some [decimal 1 2; decimal 1 2; of_Z 0];
  ModelTiepoint := Some [of_Z 0; of_Z 0; of_Z 0; of_Z (-100); of_Z 40; of_Z 0];
  getBoundingBox := Normal []
|}.

(** The number of ticks among callbacks. *)
Fixpoint ticks (es : list event) : nat :=
  match es with
  | [] => 0
  | AnimationFrame _ :: es' => S (ticks es')
  | _ :: es' => ticks es'
  end.

(** What a mesh is made of: its geometry and its material. *)
Definition mesh_shape (h : store) (r : ref) : option (number * number * Material) :=
  option_map (fun m => (geometry m, material m)) (mesh_at h r).

(** The camera projects with the aspect of the device size, and the
    renderer has the device size. *)
Definition viewport_consistent (this : Three) : Prop :=
  exists c a,
    camera this = Some c
    /\ nth_error (objects this) c = Some (PerspectiveCamera a a)
    /\ a = div (width (device this)) (height (device this))
    /\ size (renderer this) = (width (device this), height (device this)).

(** The object with its three scale factors masked. *)
Definition without_scales (this : Three) : Three :=
  set_scaleX (of_Z 1) (set_scaleY (of_Z 1) (set_scaleZ (of_Z 1) this)).

(** A scale factor within the range of its controller. *)
Definition in_range (x : number) : Prop :=
  le (decimal 1 1) x = true /\ le x (of_Z 5) = true.

(** Callbacks of the panel that carry a number carry one that is not
    NaN. *)
Definition numeric (e : event) : bool :=
  match e with
  | PanelInput _ (NumberInput v) => negb (isNaN v)
  | _ => true
  end.

(** [n] calls of [generateTexture] in a row, with the textures they
    return. *)
Fixpoint synthesize (n : nat) (this : Three) : list texture * Three :=
  match n with
  | O => ([], this)
  | S k =>
      let (t, this1) := generateTexture this in
      let (ts, this2) := synthesize k this1 in
      (t :: ts, this2)
  end.

(** The plane of the offscreen scene of [generateTexture]. *)
Definition texture_plane : Mesh :=
  new_mesh (decimal 1 1) (decimal 3 1) (new_material None 0xFF0000).

(** The constructed object after its first scale factor was set to 3. *)
Definition scenario_three_scaled : Three := set_scaleX (of_Z 3) scenario_three.

(** Two ticks end alike up to the scale factors. *)
Definition same_up_to_scales (x y : completion Three) : Prop :=
  match x, y with
  | Normal a, Normal b => without_scales a = without_scales b
  | Throw e, Throw e' => e = e'
  | _, _ => False
  end.

(** Two ticks end alike up to the clock. *)
Definition same_up_to_clock (x y : completion Three) : Prop :=
  match x, y with
  | Normal a, Normal b => set_clock (clock b) a = b
  | Throw e, Throw e' => e = e'
  | _, _ => False
  end.

(** A draw into the canvas. *)
Definition canvas_draw (c : gl_command) : bool :=
  match c with
  | Draw None _ => true
  | _ => false
  end.

(** The material [setGeometry] gives the methane plane. *)
Definition methane_material : Material :=
  {| map_ := Some (TargetTexture 0); color := 0xFFFFFF;
     transparent := true; opacity := decimal 5 1 |}.

(** A forward matrix: tie point (-180, 90), pixel scale 0.36 by 0.18. *)
Definition sample_matrix : list value :=
  pixelToGPS (int (-180)) (int 90) (dec 36 2) (js_neg (dec 18 2)).

(** * Properties *)

#[local] Arguments add : simpl never.
#[local] Arguments sub : simpl never.
#[local] Arguments mul : simpl never.
#[local] Arguments div : simpl never.
#[local] Arguments of_Z : simpl never.
#[local] Arguments decimal : simpl never.
#[local] Arguments Math_min : simpl never.
#[local] Arguments Math_trunc : simpl never.

(** ** Comparison of numbers *)

Lemma SFcompare_antisym (x y : number) :
  SFcompare y x = option_map CompOpp (SFcompare x y).
Proof.
  destruct x as [sx|sx| |sx mx ex], y as [sy|sy| |sy my ey]; simpl;
    try (destruct sx; reflexivity); try (destruct sy; reflexivity);
    try (destruct sx, sy; reflexivity); try reflexivity.
  assert (Hm : Pos.compare_cont Eq my mx = CompOpp (Pos.compare_cont Eq mx my))
    by (rewrite Pos.compare_cont_antisym; reflexivity).
  rewrite (Z.compare_antisym ex ey), Hm.
  destruct sx, sy; simpl; try reflexivity;
    destruct (ex ?= ey)%Z; simpl; try reflexivity;
    destruct (Pos.compare_cont Eq mx my); reflexivity.
Qed.

Lemma SFcompare_refl (x : number) : isNaN x = false -> SFcompare x x = Some Eq.
Proof.
  destruct x as [s|s| |s m e]; simpl; intro H; try discriminate;
    try (destruct s; reflexivity).
  rewrite Z.compare_refl, Pos.compare_cont_refl. destruct s; reflexivity.
Qed.

Lemma SFcompare_defined (x y : number) :
  isNaN x = false -> isNaN y = false -> exists c, SFcompare x y = Some c.
Proof.
  destruct x, y; simpl; intros; try discriminate; eauto.
Qed.

Lemma le_refl (x : number) : isNaN x = false -> le x x = true.
Proof. intro H. unfold le, SFleb. now rewrite SFcompare_refl. Qed.

(** [!(x < y)] on two numbers that are not NaN gives [y <= x]. *)
Lemma not_lt_le (x y : number) :
  isNaN x = false -> isNaN y = false -> lt x y = false -> le y x = true.
Proof.
  intros Hx Hy. unfold lt, le, SFltb, SFleb. rewrite (SFcompare_antisym x y).
  destruct (SFcompare_defined x y Hx Hy) as [c ->]. now destruct c.
Qed.



(** ** Rounding to an integer *)

Lemma iter_xO_shiftl (q d : positive) :
  Zpos (Pos.iter xO q d) = Z.shiftl (Zpos q) (Zpos d).
Proof.
  simpl. induction d as [|d IH] using Pos.peano_ind.
  - reflexivity.
  - rewrite !Pos.iter_succ, <- IH. reflexivity.
Qed.

Lemma digits_iter_xO (q d : positive) :
  digits2_pos (Pos.iter xO q d) = (digits2_pos q + d)%positive.
Proof.
  induction d as [|d IH] using Pos.peano_ind.
  - simpl. now rewrite Pos.add_1_r.
  - rewrite Pos.iter_succ. simpl. rewrite IH. now rewrite Pos.add_succ_r.
Qed.

Lemma digits_log2 (p : positive) : Zpos (digits2_pos p) = Z.succ (Z.log2 (Zpos p)).
Proof.
  assert (H : forall q, digits2_pos q = Pos.size q)
    by (induction q; simpl; congruence).
  destruct p as [p|p|]; simpl; rewrite ?H; lia.
Qed.

Lemma digits_le (p q : positive) :
  (Zpos p <= Zpos q)%Z -> (Zpos (digits2_pos p) <= Zpos (digits2_pos q))%Z.
Proof.
  intro Hle. rewrite !digits_log2. apply Zsucc_le_compat. now apply Z.log2_le_mono.
Qed.

Lemma digits_below (p : positive) (n : Z) :
  (0 < n)%Z -> (Zpos p < 2 ^ n)%Z -> (Zpos (digits2_pos p) <= n)%Z.
Proof.
  intros Hn Hp. rewrite digits_log2.
  assert (Z.log2 (Zpos p) < n)%Z by (apply Z.log2_lt_pow2; lia). lia.
Qed.

(** A mantissa of 53 bits with an exponent in range is kept as it is. *)
Lemma binary_round_aux_exact (s : bool) (mz : positive) (ez : Z) :
  Zpos (digits2_pos mz) = 53%Z -> (-1074 <= ez <= 971)%Z ->
  binary_round_aux prec emax s (Zpos mz) ez loc_Exact = S754_finite s mz ez.
Proof.
  intros Hd He. unfold binary_round_aux, shr_fexp. simpl Zdigits2.
  assert (Hf : (fexp prec emax (Zpos (digits2_pos mz) + ez) - ez = 0)%Z)
    by (unfold fexp, emin, prec, emax; lia).
  rewrite Hf.
  cbv beta iota delta [shr shr_record_of_loc loc_of_shr_record round_nearest_even
                       shr_m Zdigits2].
  rewrite Hf.
  assert (Hle : (ez <=? emax - prec)%Z = true)
    by (apply Z.leb_le; unfold emax, prec; lia).
  now rewrite Hle.
Qed.

(** Rounding an integer of at most 53 bits to binary64 is exact. *)
Lemma binary_round_integer (s : bool) (q : positive) :
  (Zpos (digits2_pos q) <= 53)%Z ->
  exists mz ez,
    binary_round prec emax s q 0 = S754_finite s mz ez
    /\ (ez <= 0)%Z /\ Zpos mz = Z.shiftl (Zpos q) (- ez).
Proof.
  intro Hd. unfold binary_round.
  assert (Hf : fexp prec emax (Zpos (digits2_pos q) + 0) = (Zpos (digits2_pos q) - 53)%Z)
    by (unfold fexp, emin, prec, emax; lia).
  rewrite Hf. unfold shl_align.
  destruct (Zpos (digits2_pos q) - 53 - 0)%Z as [|d|d] eqn:Hk; try lia.
  - exists q, 0%Z. split; [|split; [lia|reflexivity]].
    apply binary_round_aux_exact; lia.
  - exists (Pos.iter xO q d), (Zpos (digits2_pos q) - 53)%Z.
    split; [|split; [lia|]].
    + apply binary_round_aux_exact; [rewrite digits_iter_xO|]; lia.
    + replace (- (Zpos (digits2_pos q) - 53))%Z with (Zpos d) by lia.
      apply iter_xO_shiftl.
Qed.

Lemma integer_value_binary_round (s : bool) (q : positive) :
  (Zpos (digits2_pos q) <= 53)%Z ->
  integer_value (binary_round prec emax s q 0) = Some (cond_Zopp s (Zpos q)).
Proof.
  intro Hd. destruct (@binary_round_integer s q Hd) as (mz & ez & -> & Hez & Hmz).
  assert (Hback : Z.shiftl (Zpos mz) ez = Zpos q).
  { rewrite Hmz. replace ez with (- (- ez))%Z at 2 by lia.
    rewrite Z.shiftl_opp_r, Z.shiftr_shiftl_l by lia. now rewrite Z.sub_diag. }
  simpl. rewrite Hback, <- Hmz, Z.eqb_refl. reflexivity.
Qed.

(** An integer below 2^53 in magnitude is a number. *)
Lemma integer_value_of_Z (z : Z) :
  (Z.abs z < 2 ^ 53)%Z -> integer_value (of_Z z) = Some z.
Proof.
  intro Hz. unfold of_Z, binary_normalize.
  destruct z as [|q|q]; [reflexivity| |];
    apply integer_value_binary_round; apply digits_below; simpl in Hz; lia.
Qed.

Lemma valid_digits (s : bool) (m : positive) (e : Z) :
  valid_binary prec emax (S754_finite s m e) = true ->
  (Zpos (digits2_pos m) <= 53)%Z.
Proof.
  simpl. unfold bounded, canonical_mantissa, fexp, emin, prec, emax.
  intro H. apply andb_prop in H. destruct H as [H _].
  apply Z.eqb_eq in H. lia.
Qed.

(** [Math.trunc] truncates toward zero: its result is the integer that
    is the integral part of its argument (and NaN or an infinity when the
    argument is). *)
Lemma Math_trunc_truncates (x : number) :
  valid_binary prec emax x = true ->
  integer_value (Math_trunc x) = integral_part x.
Proof.
  destruct x as [s|s| |s m e]; try reflexivity.
  intro Hv. unfold Math_trunc.
  destruct (0 <=? e)%Z eqn:He.
  - apply Z.leb_le in He. simpl.
    replace (Z.shiftl (Z.shiftl (Zpos m) e) (- e)) with (Zpos m);
      [now rewrite Z.eqb_refl|].
    rewrite Z.shiftl_opp_r, Z.shiftr_shiftl_l by lia. now rewrite Z.sub_diag.
  - apply Z.leb_gt in He.
    destruct (Z.shiftl (Zpos m) e) as [|q|q] eqn:Hq.
    + simpl. rewrite Hq. now destruct s.
    + assert (Hqm : (Zpos q <= Zpos m)%Z).
      { rewrite <- Hq. replace e with (- (- e))%Z at 1 by lia.
        rewrite Z.shiftl_opp_r, Z.shiftr_div_pow2 by lia.
        assert (Hpow : (0 < 2 ^ (- e))%Z) by (apply Z.pow_pos_nonneg; lia).
        apply Z.div_le_upper_bound; [exact Hpow|]. nia. }
      rewrite integer_value_binary_round.
      * simpl. now rewrite Hq.
      * pose proof (@valid_digits s m e Hv). pose proof (@digits_le q m Hqm). lia.
    + exfalso.
      assert (0 <= Z.shiftl (Zpos m) e)%Z by (apply Z.shiftl_nonneg; lia). lia.
Qed.

(** [ToInt32] is the integral part exactly when that part fits in 32
    signed bits; it wraps otherwise. *)
Lemma ToInt32_integral_part (x : number) (z : Z) :
  integral_part x = Some z ->
  (- 2 ^ 31 <= ToInt32 x < 2 ^ 31)%Z
  /\ (ToInt32 x = z <-> (- 2 ^ 31 <= z < 2 ^ 31)%Z).
Proof.
  intro Hz. unfold ToInt32. rewrite Hz.
  pose proof (Z.mod_pos_bound z (2 ^ 32) ltac:(lia)) as Hb.
  pose proof (Z.div_mod z (2 ^ 32) ltac:(lia)) as Hd.
  destruct (2 ^ 31 <=? z mod 2 ^ 32)%Z eqn:E;
    [apply Z.leb_le in E | apply Z.leb_gt in E]; lia.
Qed.

(** [v | 0] is the number [ToInt32(v)]. *)
Lemma bitor_zero (x : number) :
  bitor x (of_Z 0) = of_Z (ToInt32 x)
  /\ integer_value (bitor x (of_Z 0)) = Some (ToInt32 x).
Proof.
  unfold bitor.
  replace (ToInt32 (of_Z 0)) with 0%Z by reflexivity. rewrite Z.lor_0_r.
  split; [reflexivity|]. apply integer_value_of_Z.
  destruct (integral_part x) as [z|] eqn:Hz.
  - destruct (@ToInt32_integral_part x z Hz) as [Hr _]. lia.
  - unfold ToInt32. rewrite Hz. simpl. lia.
Qed.

(** With [roundToInt = true] the transform of three.js truncates each
    component toward zero, for every input whose unrounded component is a
    binary64 number; the older variant returns the integral part only
    when it fits in 32 signed bits. *)
Lemma transform_rounding (a b : value) (M : list value) (i : nat) :
  let v := ToNumber (nth i (transform a b M false) VUndefined) in
  let r := ToNumber (nth i (transform a b M true) VUndefined) in
  let r' := ToNumber (nth i (transform_legacy a b M true) VUndefined) in
  i < 2 ->
  valid_binary prec emax v = true ->
  integer_value r = integral_part v
  /\ (forall z, integral_part v = Some z ->
      (integer_value r' = Some z <-> (- 2 ^ 31 <= z < 2 ^ 31)%Z)).
Proof.
  intros v r r' Hi Hv.
  assert (Hr : r = Math_trunc v /\ r' = bitor v (of_Z 0)).
  { subst v r r'. destruct i as [|[|i]]; [split; reflexivity ..| lia]. }
  destruct Hr as [-> ->]. split; [now apply Math_trunc_truncates|].
  intros z Hz. destruct (bitor_zero v) as [_ ->].
  destruct (@ToInt32_integral_part v z Hz) as [_ H].
  split; [intros [= E]; now apply H | intro E; f_equal; now apply H].
Qed.

(** ** Rounding error of the arithmetic

    Every operation of binary64 returns the real result rounded to the
    format: when no overflow occurs it is off by at most [2^-52] of the
    result plus [2^-1074].  The lemmas below derive this from the
    definitions of [SpecFloat] for the three operations of [transform]
    and the two matrices. *)

Lemma shr_1_m (r : shr_record) :
  (0 <= shr_m r)%Z -> shr_m (shr_1 r) = (shr_m r / 2)%Z.
Proof.
  destruct r as [m b s]. simpl. intro H.
  destruct m as [|[p|p|]|p]; simpl; try reflexivity; try lia.
  - apply Z.div_unique with 1%Z; lia.
  - apply Z.div_unique with 0%Z; lia.
Qed.

Lemma div_pow2_twice (a x y : Z) :
  (0 <= x)%Z -> (0 <= y)%Z -> (a / 2 ^ x / 2 ^ y = a / 2 ^ (x + y))%Z.
Proof.
  intros Hx Hy. rewrite Z.pow_add_r by assumption.
  apply Z.div_div; [apply Z.pow_nonzero; lia | apply Z.pow_pos_nonneg; lia].
Qed.

Lemma div_pow2_nonneg (a x : Z) : (0 <= a)%Z -> (0 <= a / 2 ^ x)%Z.
Proof.
  intro Ha. destruct (Z.le_gt_cases 0 x) as [Hx|Hx].
  - apply Z.div_pos; [exact Ha | apply Z.pow_pos_nonneg; lia].
  - rewrite Z.pow_neg_r by exact Hx. now destruct a.
Qed.

Lemma iter_pos_shr_m (p : positive) (r : shr_record) :
  (0 <= shr_m r)%Z -> shr_m (iter_pos shr_1 p r) = (shr_m r / 2 ^ Zpos p)%Z.
Proof.
  revert r. induction p as [p IH|p IH|]; intros r Hr; simpl iter_pos.
  - assert (H1 : (0 <= shr_m (shr_1 r))%Z)
      by (rewrite shr_1_m by exact Hr; apply Z.div_pos; lia).
    assert (H2 : (0 <= shr_m (iter_pos shr_1 p (shr_1 r)))%Z)
      by (rewrite IH by exact H1; now apply div_pow2_nonneg).
    rewrite IH by exact H2. rewrite IH by exact H1. rewrite shr_1_m by exact Hr.
    change (shr_m r / 2)%Z with (shr_m r / 2 ^ 1)%Z.
    rewrite !div_pow2_twice by lia. f_equal. f_equal. lia.
  - assert (H2 : (0 <= shr_m (iter_pos shr_1 p r))%Z)
      by (rewrite IH by exact Hr; now apply div_pow2_nonneg).
    rewrite IH by exact H2. rewrite IH by exact Hr.
    rewrite !div_pow2_twice by lia. f_equal. f_equal. lia.
  - rewrite shr_1_m by exact Hr. reflexivity.
Qed.

(** the mantissa after [shr_fexp]: the quotient by [2^n], whatever the location *)
Lemma shr_m_of_loc (m : Z) (l : location) : shr_m (shr_record_of_loc m l) = m.
Proof. destruct l as [|[| |]]; reflexivity. Qed.

Lemma shr_spec (m : Z) (l : location) (e n : Z) :
  (0 <= m)%Z ->
  let r := shr (shr_record_of_loc m l) e n in
  (0 < n -> shr_m (fst r) = m / 2 ^ n /\ snd r = e + n)%Z
  /\ (n <= 0 -> fst r = shr_record_of_loc m l /\ snd r = e)%Z.
Proof.
  intros Hm r. subst r. split; intro Hn.
  - destruct n as [|p|p]; try lia. simpl.
    rewrite iter_pos_shr_m by (rewrite shr_m_of_loc; exact Hm).
    now rewrite shr_m_of_loc.
  - destruct n as [|p|p]; try lia; split; reflexivity.
Qed.

Lemma round_nearest_even_cases (m : Z) (l : location) :
  round_nearest_even m l = m \/ round_nearest_even m l = (m + 1)%Z.
Proof.
  destruct l as [|[| |]]; simpl; auto. destruct (Z.even m); auto.
Qed.

Lemma round_nearest_even_exact (m : Z) : round_nearest_even m loc_Exact = m.
Proof. reflexivity. Qed.

Lemma Zdigits2_bounds (m : Z) :
  (0 < m)%Z -> (1 <= Zdigits2 m /\ 2 ^ (Zdigits2 m - 1) <= m < 2 ^ Zdigits2 m)%Z.
Proof.
  intro Hm. destruct m as [|p|p]; try lia. simpl Zdigits2. rewrite digits_log2.
  pose proof (Z.log2_spec (Zpos p) ltac:(lia)) as H.
  pose proof (Z.log2_nonneg (Zpos p)).
  unfold Z.succ in *.
  replace (Z.log2 (Zpos p) + 1 - 1)%Z with (Z.log2 (Zpos p)) by lia. lia.
Qed.

Lemma Zdigits2_unique (m k : Z) :
  (1 <= k)%Z -> (2 ^ (k - 1) <= m < 2 ^ k)%Z -> Zdigits2 m = k.
Proof.
  intros Hk H.
  assert (Hm : (0 < m)%Z) by (assert (0 < 2 ^ (k - 1))%Z by (apply Z.pow_pos_nonneg; lia); lia).
  destruct m as [|p|p]; try lia. simpl Zdigits2. rewrite digits_log2.
  assert (Z.log2 (Zpos p) = k - 1)%Z; [|lia].
  apply Z.log2_unique; [lia|]. replace (Z.succ (k - 1)) with k by lia. exact H.
Qed.

Lemma Zdigits2_le_of_lt (m k : Z) :
  (0 <= k)%Z -> (0 <= m < 2 ^ k)%Z -> (Zdigits2 m <= k)%Z.
Proof.
  intros Hk H. destruct (Z.eq_dec m 0) as [->|Hm]; [simpl; lia|].
  destruct (Zdigits2_bounds (m := m) ltac:(lia)) as (H1 & H2 & H3).
  destruct (Z.le_gt_cases (Zdigits2 m) k) as [|Hgt]; [assumption|exfalso].
  assert (2 ^ k <= 2 ^ (Zdigits2 m - 1))%Z by (apply Z.pow_le_mono_r; lia). lia.
Qed.

Lemma fexp_eq (k : Z) : fexp prec emax k = Z.max (k - 53) (-1074).
Proof. reflexivity. Qed.

Lemma div_pow2_bounds (m n a b : Z) :
  (0 <= n)%Z -> (n <= a)%Z -> (2 ^ a <= m < 2 ^ b)%Z ->
  (2 ^ (a - n) <= m / 2 ^ n < 2 ^ (b - n))%Z.
Proof.
  intros Hn Ha [H1 H2].
  assert (Hp : (0 < 2 ^ n)%Z) by (apply Z.pow_pos_nonneg; lia).
  assert (Hb : (a < b)%Z).
  { destruct (Z.le_gt_cases b a) as [Hle|]; [|assumption].
    assert (2 ^ b <= 2 ^ a)%Z by (apply Z.pow_le_mono_r; lia). lia. }
  split.
  - apply Z.div_le_lower_bound; [exact Hp|].
    rewrite <- Z.pow_add_r by lia. replace (n + (a - n))%Z with a by lia. exact H1.
  - apply Z.div_lt_upper_bound; [exact Hp|].
    rewrite <- Z.pow_add_r by lia. replace (n + (b - n))%Z with b by lia. exact H2.
Qed.

Lemma div_pow2_small (m n b : Z) :
  (0 <= n)%Z -> (0 <= m < 2 ^ b)%Z -> (0 <= b)%Z ->
  (0 <= m / 2 ^ n)%Z /\ (m / 2 ^ n < 2 ^ Z.max 0 (b - n))%Z.
Proof.
  intros Hn [H0 H1] Hb.
  assert (Hp : (0 < 2 ^ n)%Z) by (apply Z.pow_pos_nonneg; lia).
  split; [apply Z.div_pos; lia|].
  apply Z.div_lt_upper_bound; [exact Hp|].
  rewrite <- Z.pow_add_r by lia.
  assert (2 ^ b <= 2 ^ (n + Z.max 0 (b - n)))%Z by (apply Z.pow_le_mono_r; lia). lia.
Qed.

(** What [binary_round_aux] returns when the exponent is not above the
    one of the format. *)
Lemma binary_round_aux_core (sx : bool) (mx ex : Z) (lx : location) :
  (0 <= mx)%Z ->
  (ex <= fexp prec emax (Zdigits2 mx + ex))%Z ->
  let e1 := fexp prec emax (Zdigits2 mx + ex) in
  let q := (mx / 2 ^ (e1 - ex))%Z in
  exists m3 e3,
    binary_round_aux prec emax sx mx ex lx = build sx m3 e3
    /\ (0 <= m3)%Z
    /\ ((e3 = e1 /\ (m3 = q \/ m3 = q + 1))
        \/ (e3 = e1 + 1 /\ 2 * m3 = q + 1))%Z
    /\ (0 < m3 -> fexp prec emax (Zdigits2 m3 + e3) = e3)%Z.
Proof.
  intros Hm He e1 q.
  assert (Hq0 : (0 <= q)%Z) by (apply div_pow2_nonneg; exact Hm).
  (* the shape of the quotient *)
  assert (Hshape : (e1 = -1074 /\ q < 2 ^ 52)%Z \/ (-1074 <= e1 /\ 2 ^ 52 <= q < 2 ^ 53)%Z).
  { destruct (Z.eq_dec mx 0) as [->|Hne].
    - left. subst q e1. simpl Zdigits2 in *. rewrite fexp_eq in *. split; [lia|].
      rewrite Z.div_0_l; [lia|]. apply Z.pow_nonzero; lia.
    - destruct (Zdigits2_bounds (m := mx) ltac:(lia)) as (Hd1 & Hd2 & Hd3).
      subst q e1. rewrite fexp_eq in *.
      destruct (Z.le_gt_cases (-1074) (Zdigits2 mx + ex - 53)) as [Hc|Hc].
      + right. rewrite Z.max_l in * by lia. split; [lia|].
        replace (Zdigits2 mx + ex - 53 - ex)%Z with (Zdigits2 mx - 53)%Z by lia.
        pose proof (@div_pow2_bounds mx (Zdigits2 mx - 53) (Zdigits2 mx - 1)
                      (Zdigits2 mx) ltac:(lia) ltac:(lia) ltac:(lia)) as Hb.
        replace (Zdigits2 mx - 1 - (Zdigits2 mx - 53))%Z with 52%Z in Hb by lia.
        replace (Zdigits2 mx - (Zdigits2 mx - 53))%Z with 53%Z in Hb by lia.
        exact Hb.
      + left. rewrite Z.max_r in * by lia. split; [reflexivity|].
        destruct (@div_pow2_small mx (-1074 - ex) (Zdigits2 mx) ltac:(lia) ltac:(lia) ltac:(lia))
          as [_ Hlt].
        assert (2 ^ Z.max 0 (Zdigits2 mx - (-1074 - ex)) <= 2 ^ 52)%Z
          by (apply Z.pow_le_mono_r; lia).
        lia. }
  (* the first shift *)
  unfold binary_round_aux, shr_fexp. fold e1.
  pose proof (@shr_spec mx lx ex (e1 - ex) Hm) as [Hpos Hzero].
  destruct (shr (shr_record_of_loc mx lx) ex (e1 - ex)) as [mrs e'] eqn:Hshr.
  simpl fst in *; simpl snd in *.
  assert (H1 : shr_m mrs = q /\ e' = e1).
  { destruct (Z.eq_dec (e1 - ex) 0) as [E|E].
    - destruct (Hzero ltac:(lia)) as [-> ->]. rewrite shr_m_of_loc. subst q.
      rewrite E, Z.pow_0_r, Z.div_1_r. lia.
    - destruct (Hpos ltac:(lia)) as [-> ->]. split; [reflexivity|lia]. }
  destruct H1 as [H1 ->]. rewrite H1.
  set (m2 := round_nearest_even q (loc_of_shr_record mrs)).
  assert (Hm2 : m2 = q \/ m2 = (q + 1)%Z) by apply round_nearest_even_cases.
  (* the second shift *)
  assert (Hcase : (m2 < 2 ^ 53 /\ Zdigits2 m2 + e1 - 53 <= e1
                   /\ (0 < m2 -> fexp prec emax (Zdigits2 m2 + e1) = e1))%Z
                  \/ (m2 = 2 ^ 53 /\ q + 1 = m2)%Z).
  { destruct Hshape as [[E Hlt]|[E Hr]].
    - left. assert (Hb : (0 <= m2 < 2 ^ 53)%Z) by lia.
      pose proof (@Zdigits2_le_of_lt m2 53 ltac:(lia) Hb).
      split; [lia|]. split; [lia|]. intros _. rewrite fexp_eq. lia.
    - destruct (Z.eq_dec m2 (2 ^ 53)) as [E2|E2]; [right; lia|left].
      assert (Hd : Zdigits2 m2 = 53%Z) by (apply Zdigits2_unique; lia).
      split; [lia|]. split; [lia|]. intros _. rewrite fexp_eq. lia. }
  destruct Hcase as [(Hlt & Hd & Hcan)|[E2 Eq]].
  - assert (Hn2 : (fexp prec emax (Zdigits2 m2 + e1) - e1 <= 0)%Z)
      by (rewrite fexp_eq; destruct Hshape as [[E _]|[E _]]; lia).
    pose proof (@shr_spec m2 loc_Exact e1 (fexp prec emax (Zdigits2 m2 + e1) - e1)
                  ltac:(lia)) as [_ Hz].
    destruct (Hz Hn2) as [Hf Hs].
    destruct (shr (shr_record_of_loc m2 loc_Exact) e1
                (fexp prec emax (Zdigits2 m2 + e1) - e1)) as [mrs2 e2].
    simpl in Hf, Hs. subst mrs2 e2. simpl shr_m.
    exists m2, e1. split; [|split; [lia|split; [left; split; [reflexivity|exact Hm2]|exact Hcan]]].
    unfold build. destruct m2 as [|p|p]; reflexivity.
  - assert (Hd : Zdigits2 m2 = 54%Z) by (apply Zdigits2_unique; lia).
    assert (Hn2 : (fexp prec emax (Zdigits2 m2 + e1) - e1 = 1)%Z)
      by (rewrite Hd, fexp_eq; destruct Hshape as [[E _]|[E _]]; lia).
    rewrite Hn2.
    pose proof (@shr_spec m2 loc_Exact e1 1 ltac:(lia)) as [Hp _].
    destruct (Hp ltac:(lia)) as [Hf Hs].
    destruct (shr (shr_record_of_loc m2 loc_Exact) e1 1) as [mrs2 e2].
    simpl in Hf, Hs. subst e2. rewrite Hf, E2.
    exists (2 ^ 52)%Z, (e1 + 1)%Z.
    split; [reflexivity|]. split; [lia|]. split; [right; split; [reflexivity|lia]|].
    intros _. rewrite fexp_eq. simpl Zdigits2. destruct Hshape as [[E _]|[E _]]; lia.
Qed.

(** ** Powers of two *)

Lemma bpow_pos (e : Z) : (0 < bpow e)%R.
Proof. apply powerRZ_lt. lra. Qed.

Lemma bpow_add (a b : Z) : bpow (a + b) = (bpow a * bpow b)%R.
Proof. apply powerRZ_add. lra. Qed.

Lemma bpow_IZR (n : Z) : (0 <= n)%Z -> bpow n = IZR (2 ^ n).
Proof.
  intro Hn. rewrite <- (Z2Nat.id n Hn). unfold bpow.
  now rewrite <- pow_powerRZ, pow_IZR.
Qed.

Lemma bpow_ge_1 (n : Z) : (0 <= n)%Z -> (1 <= bpow n)%R.
Proof.
  intro Hn. rewrite bpow_IZR by exact Hn. apply IZR_le.
  assert (0 < 2 ^ n)%Z by (apply Z.pow_pos_nonneg; lia). lia.
Qed.

Lemma bpow_le (a b : Z) : (a <= b)%Z -> (bpow a <= bpow b)%R.
Proof.
  intro H. replace b with (a + (b - a))%Z by lia. rewrite bpow_add.
  pose proof (bpow_pos a). pose proof (@bpow_ge_1 (b - a) ltac:(lia)). nra.
Qed.

Lemma bpow_lt_inv (a b : Z) : (bpow a < bpow b)%R -> (a < b)%Z.
Proof.
  intro H. destruct (Z.lt_ge_cases a b) as [|Hge]; [assumption|exfalso].
  pose proof (@bpow_le b a Hge). lra.
Qed.

Lemma bpow_opp (a : Z) : (bpow (- a) * bpow a = 1)%R.
Proof.
  rewrite <- bpow_add. replace (- a + a)%Z with 0%Z by lia. reflexivity.
Qed.

(** ** The error of one rounding *)

Lemma build_finite (s : bool) (m3 e3 : Z) :
  (0 <= m3)%Z -> (e3 <= 971)%Z ->
  (0 < m3 -> fexp prec emax (Zdigits2 m3 + e3) = e3)%Z ->
  isFinite (build s m3 e3) = true
  /\ valid_binary prec emax (build s m3 e3) = true
  /\ B2R (build s m3 e3) = ((if s then -1 else 1) * (IZR m3 * bpow e3))%R.
Proof.
  intros Hm He Hc. unfold build. destruct m3 as [|p|p]; try lia.
  - simpl. repeat split; try reflexivity. destruct s; lra.
  - apply Z.leb_le in He. rewrite He. simpl. split; [reflexivity|]. split.
    + unfold bounded, canonical_mantissa. simpl Zdigits2 in Hc.
      rewrite (Hc ltac:(lia)), Z.eqb_refl. exact He.
    + destruct s; simpl;
        [change (Zneg p) with (Z.opp (Zpos p)); rewrite opp_IZR|]; lra.
Qed.

Lemma binary_round_aux_error (sx : bool) (mx ex : Z) (lx : location) (t : R) :
  (0 <= mx)%Z ->
  (ex <= fexp prec emax (Zdigits2 mx + ex))%Z ->
  (IZR mx * bpow ex <= t <= IZR (mx + 1) * bpow ex)%R ->
  (t < bpow 1023)%R ->
  exists v,
    isFinite (binary_round_aux prec emax sx mx ex lx) = true
    /\ valid_binary prec emax (binary_round_aux prec emax sx mx ex lx) = true
    /\ B2R (binary_round_aux prec emax sx mx ex lx) = ((if sx then -1 else 1) * v)%R
    /\ (Rabs (v - t) <= bpow (-52) * t + bpow (-1074))%R.
Proof.
  intros Hm He Ht Hmax.
  destruct (@binary_round_aux_core sx mx ex lx Hm He) as (m3 & e3 & -> & Hm3 & Hv & Hcan).
  set (e1 := fexp prec emax (Zdigits2 mx + ex)) in *.
  set (n := (e1 - ex)%Z) in *.
  set (q := (mx / 2 ^ n)%Z) in *.
  assert (Hn : (0 <= n)%Z) by (subst n; lia).
  assert (Hp : (0 < 2 ^ n)%Z) by (apply Z.pow_pos_nonneg; lia).
  assert (He1 : bpow e1 = (bpow n * bpow ex)%R)
    by (rewrite <- bpow_add; f_equal; subst n; lia).
  pose proof (bpow_pos ex) as Hpex. pose proof (bpow_pos e1) as Hpe1.
  pose proof (bpow_pos n) as Hpn.
  assert (Ht0 : (0 <= t)%R).
  { apply Rle_trans with (IZR mx * bpow ex)%R; [|apply Ht].
    apply Rmult_le_pos; [apply IZR_le; exact Hm|lra]. }
  (* the value lies between two neighbours *)
  assert (Hlo : (IZR q * bpow e1 <= t)%R).
  { apply Rle_trans with (IZR mx * bpow ex)%R; [|apply Ht].
    rewrite He1, (@bpow_IZR n Hn). rewrite <- Rmult_assoc, <- mult_IZR.
    apply Rmult_le_compat_r; [lra|]. apply IZR_le.
    pose proof (Z.mul_div_le mx (2 ^ n) Hp). subst q. lia. }
  assert (Hhi : (t <= IZR (q + 1) * bpow e1)%R).
  { apply Rle_trans with (IZR (mx + 1) * bpow ex)%R; [apply Ht|].
    rewrite He1, (@bpow_IZR n Hn). rewrite <- Rmult_assoc, <- mult_IZR.
    apply Rmult_le_compat_r; [lra|]. apply IZR_le.
    pose proof (Z.mul_succ_div_gt mx (2 ^ n) Hp). subst q. lia. }
  (* the ulp is small *)
  assert (Hulp : (bpow e1 <= bpow (-52) * t + bpow (-1074))%R
                 /\ (e1 <= 970)%Z).
  { pose proof (bpow_pos (-52)). pose proof (bpow_pos (-1074)).
    destruct (Z.eq_dec e1 (-1074)) as [E|E].
    - rewrite E. split; [nra|lia].
    - assert (Hmx : (0 < mx)%Z).
      { destruct (Z.eq_dec mx 0) as [E0|]; [|lia]. exfalso.
        subst e1. rewrite E0, fexp_eq in *. simpl Zdigits2 in *. lia. }
      destruct (Zdigits2_bounds Hmx) as (Hd1 & Hd2 & Hd3).
      assert (Ee : e1 = (Zdigits2 mx + ex - 53)%Z) by (subst e1; rewrite fexp_eq in *; lia).
      assert (Hbig : (bpow (e1 + 52) <= t)%R).
      { apply Rle_trans with (IZR mx * bpow ex)%R; [|apply Ht].
        replace (e1 + 52)%Z with ((Zdigits2 mx - 1) + ex)%Z by lia.
        rewrite bpow_add, bpow_IZR by lia.
        apply Rmult_le_compat_r; [lra|]. apply IZR_le. exact Hd2. }
      split.
      + rewrite bpow_add in Hbig. pose proof (bpow_opp 52) as Ho.
        simpl Z.opp in Ho. pose proof (bpow_pos 52). nra.
      + assert (e1 + 52 < 1023)%Z by (apply bpow_lt_inv; lra). lia. }
  destruct Hulp as [Hulp He970].
  destruct (@build_finite sx m3 e3 Hm3 ltac:(lia) Hcan) as (Hf & Hval & Hr).
  exists (IZR m3 * bpow e3)%R. split; [exact Hf|]. split; [exact Hval|].
  split; [exact Hr|].
  assert (Hval3 : (IZR m3 * bpow e3 = IZR q * bpow e1
                   \/ IZR m3 * bpow e3 = IZR (q + 1) * bpow e1)%R).
  { destruct Hv as [[-> [->| ->]]|[-> H2]]; auto. right.
    assert (E1 : bpow 1 = 2%R) by (unfold bpow; simpl; lra).
    rewrite bpow_add, E1, <- H2, mult_IZR. lra. }
  rewrite plus_IZR in *. apply Rabs_le.
  destruct Hval3 as [-> | ->]; lra.
Qed.

(** ** The error of the operations *)

Lemma sign_xorb (a b : bool) : sign (xorb a b) = (sign a * sign b)%R.
Proof. destruct a, b; unfold sign; simpl; lra. Qed.

Lemma sign_abs (s : bool) (v : R) : Rabs (sign s * v) = Rabs v.
Proof.
  destruct s; unfold sign.
  - replace (-1 * v)%R with (- v)%R by lra. apply Rabs_Ropp.
  - now rewrite Rmult_1_l.
Qed.

Lemma IZR_cond_Zopp (s : bool) (z : Z) : IZR (cond_Zopp s z) = (sign s * IZR z)%R.
Proof. destruct s; unfold sign; simpl; [rewrite opp_IZR|]; lra. Qed.

Lemma B2R_finite (s : bool) (m : positive) (e : Z) :
  B2R (S754_finite s m e) = (sign s * (IZR (Zpos m) * bpow e))%R.
Proof.
  destruct s; unfold sign; simpl; [|lra].
  change (Zneg m) with (Z.opp (Zpos m)). rewrite opp_IZR. lra.
Qed.

Lemma valid_canonical (s : bool) (m : positive) (e : Z) :
  valid_binary prec emax (S754_finite s m e) = true ->
  (fexp prec emax (Zpos (digits2_pos m) + e) = e /\ e <= 971)%Z.
Proof.
  simpl. unfold bounded, canonical_mantissa. intro H.
  apply andb_prop in H. destruct H as [H1 H2].
  apply Z.eqb_eq in H1. apply Z.leb_le in H2. split; [exact H1|exact H2].
Qed.

Lemma Zdigits2_ge (m k : Z) : (0 <= k)%Z -> (2 ^ k <= m)%Z -> (k + 1 <= Zdigits2 m)%Z.
Proof.
  intros Hk H.
  assert (Hm : (0 < m)%Z) by (assert (0 < 2 ^ k)%Z by (apply Z.pow_pos_nonneg; lia); lia).
  destruct (Zdigits2_bounds Hm) as (H1 & H2 & H3).
  destruct (Z.lt_ge_cases k (Zdigits2 m)) as [|Hge]; [lia|exfalso].
  assert (2 ^ Zdigits2 m <= 2 ^ k)%Z by (apply Z.pow_le_mono_r; lia). lia.
Qed.

(** The magnitude of a finite number, from its digits. *)
Lemma B2R_magnitude (s : bool) (m : positive) (e : Z) :
  (bpow (Zpos (digits2_pos m) + e - 1) <= IZR (Zpos m) * bpow e
   < bpow (Zpos (digits2_pos m) + e))%R.
Proof.
  destruct (@Zdigits2_bounds (Zpos m) ltac:(lia)) as (H1 & H2 & H3).
  simpl Zdigits2 in *. pose proof (bpow_pos e).
  split.
  - replace (Zpos (digits2_pos m) + e - 1)%Z with ((Zpos (digits2_pos m) - 1) + e)%Z by lia.
    rewrite bpow_add, (@bpow_IZR (Zpos (digits2_pos m) - 1) ltac:(lia)).
    apply Rmult_le_compat_r; [lra|]. now apply IZR_le.
  - rewrite bpow_add, (@bpow_IZR (Zpos (digits2_pos m)) ltac:(lia)).
    apply Rmult_lt_compat_r; [lra|]. now apply IZR_lt.
Qed.

(** Multiplication. *)
Lemma mul_error (x y : number) :
  valid_binary prec emax x = true -> valid_binary prec emax y = true ->
  isFinite x = true -> isFinite y = true ->
  (Rabs (B2R x * B2R y) < bpow 1023)%R ->
  isFinite (mul x y) = true
  /\ valid_binary prec emax (mul x y) = true
  /\ (Rabs (B2R (mul x y) - B2R x * B2R y)
      <= bpow (-52) * Rabs (B2R x * B2R y) + bpow (-1074))%R.
Proof.
  intros Vx Vy Fx Fy Hmax.
  pose proof (bpow_pos (-52)) as Hu. pose proof (bpow_pos (-1074)) as Heta.
  assert (Hz : forall z : R, z = 0%R ->
               (Rabs (0 - z) <= bpow (-52) * Rabs z + bpow (-1074))%R).
  { intros z ->. rewrite Rminus_0_r, Rabs_R0. lra. }
  destruct x as [sx|sx| |sx mx ex], y as [sy|sy| |sy my ey]; try discriminate;
    try (split; [reflexivity|split; [reflexivity|]]; simpl B2R; apply Hz; ring).
  destruct (@valid_canonical _ _ _ Vx) as [Cx _], (@valid_canonical _ _ _ Vy) as [Cy _].
  rewrite !B2R_finite in *.
  set (t := (IZR (Zpos (mx * my)) * bpow (ex + ey))%R).
  assert (Et : (sign sx * (IZR (Zpos mx) * bpow ex) * (sign sy * (IZR (Zpos my) * bpow ey))
                = sign (xorb sx sy) * t)%R).
  { subst t. rewrite sign_xorb, Pos2Z.inj_mul, mult_IZR, bpow_add. ring. }
  rewrite Et in *. rewrite sign_abs in Hmax.
  assert (Ht0 : (0 <= t)%R).
  { subst t. apply Rmult_le_pos; [apply IZR_le; lia|]. pose proof (bpow_pos (ex + ey)). lra. }
  rewrite (Rabs_right t) in Hmax by lra.
  assert (Hpre : (ex + ey <= fexp prec emax (Zdigits2 (Zpos (mx * my)) + (ex + ey)))%Z).
  { destruct (@Zdigits2_bounds (Zpos mx) ltac:(lia)) as (X1 & X2 & X3).
    destruct (@Zdigits2_bounds (Zpos my) ltac:(lia)) as (Y1 & Y2 & Y3).
    simpl Zdigits2 in X1, X2, X3, Y1, Y2, Y3.
    assert (Hd : (Zpos (digits2_pos mx) + Zpos (digits2_pos my) - 2 + 1
                  <= Zdigits2 (Zpos (mx * my)))%Z).
    { apply Zdigits2_ge; [lia|].
      replace (Zpos (digits2_pos mx) + Zpos (digits2_pos my) - 2)%Z
        with ((Zpos (digits2_pos mx) - 1) + (Zpos (digits2_pos my) - 1))%Z by lia.
      rewrite Z.pow_add_r, Pos2Z.inj_mul by lia.
      apply Z.mul_le_mono_nonneg; try lia; apply Z.pow_nonneg; lia. }
    rewrite fexp_eq in *. lia. }
  destruct (@binary_round_aux_error (xorb sx sy) (Zpos (mx * my)) (ex + ey) loc_Exact t
              ltac:(lia) Hpre) as (v & Hf & Hv & Hr & Hb).
  { subst t. rewrite plus_IZR. pose proof (bpow_pos (ex + ey)). split; nra. }
  { exact Hmax. }
  unfold mul, SFmul. split; [exact Hf|]. split; [exact Hv|].
  rewrite Hr. fold (sign (xorb sx sy)).
  rewrite <- Rmult_minus_distr_l, !sign_abs, (Rabs_right t) by lra. exact Hb.
Qed.

Lemma shl_align_spec (m : positive) (e e' : Z) :
  exists mz ez,
    shl_align m e e' = (mz, ez)
    /\ ez = Z.min e e'
    /\ Zpos mz = (Zpos m * 2 ^ (e - ez))%Z
    /\ Zpos (digits2_pos mz) = (Zpos (digits2_pos m) + (e - ez))%Z.
Proof.
  unfold shl_align. destruct (e' - e)%Z as [|d|d] eqn:E.
  - exists m, e. replace (Z.min e e') with e by lia.
    rewrite Z.sub_diag, Z.pow_0_r. repeat split; lia.
  - exists m, e. replace (Z.min e e') with e by lia.
    rewrite Z.sub_diag, Z.pow_0_r. repeat split; lia.
  - exists (Pos.iter xO m d), e'. replace (Z.min e e') with e' by lia.
    replace (e - e')%Z with (Zpos d) by lia.
    split; [reflexivity|]. split; [reflexivity|]. split.
    + rewrite iter_xO_shiftl, Z.shiftl_mul_pow2 by lia. reflexivity.
    + rewrite digits_iter_xO. lia.
Qed.

Lemma shl_align_value (m mz : positive) (e ez : Z) :
  (ez <= e)%Z -> Zpos mz = (Zpos m * 2 ^ (e - ez))%Z ->
  (IZR (Zpos mz) * bpow ez = IZR (Zpos m) * bpow e)%R.
Proof.
  intros Hle ->. rewrite mult_IZR, <- (@bpow_IZR (e - ez) ltac:(lia)), Rmult_assoc.
  rewrite <- bpow_add. do 2 f_equal. lia.
Qed.

Lemma binary_round_error (s : bool) (m : positive) (e : Z) :
  (IZR (Zpos m) * bpow e < bpow 1023)%R ->
  exists v,
    isFinite (binary_round prec emax s m e) = true
    /\ valid_binary prec emax (binary_round prec emax s m e) = true
    /\ B2R (binary_round prec emax s m e) = (sign s * v)%R
    /\ (Rabs (v - IZR (Zpos m) * bpow e)
        <= bpow (-52) * (IZR (Zpos m) * bpow e) + bpow (-1074))%R.
Proof.
  intro Hmax. unfold binary_round.
  destruct (@shl_align_spec m e (fexp prec emax (Zpos (digits2_pos m) + e)))
    as (mz & ez & -> & Hez & Hmz & Hdz).
  assert (Hv : (IZR (Zpos mz) * bpow ez = IZR (Zpos m) * bpow e)%R)
    by (apply shl_align_value; [lia|exact Hmz]).
  rewrite <- Hv in *.
  apply binary_round_aux_error; try lia.
  - simpl Zdigits2. rewrite Hdz.
    replace (Zpos (digits2_pos m) + (e - ez) + ez)%Z with (Zpos (digits2_pos m) + e)%Z by lia.
    lia.
  - rewrite plus_IZR. pose proof (bpow_pos ez). split; nra.
  - exact Hmax.
Qed.

(** Addition. *)
Lemma add_error (x y : number) :
  valid_binary prec emax x = true -> valid_binary prec emax y = true ->
  isFinite x = true -> isFinite y = true ->
  (Rabs (B2R x + B2R y) < bpow 1023)%R ->
  isFinite (add x y) = true
  /\ valid_binary prec emax (add x y) = true
  /\ (Rabs (B2R (add x y) - (B2R x + B2R y))
      <= bpow (-52) * Rabs (B2R x + B2R y) + bpow (-1074))%R.
Proof.
  intros Vx Vy Fx Fy Hmax.
  pose proof (bpow_pos (-52)) as Hu. pose proof (bpow_pos (-1074)) as Heta.
  assert (Hz : forall a z : R, a = z ->
               (Rabs (a - z) <= bpow (-52) * Rabs z + bpow (-1074))%R).
  { intros a z ->. rewrite Rminus_diag, Rabs_R0. pose proof (Rabs_pos z). nra. }
  destruct x as [sx|sx| |sx mx ex], y as [sy|sy| |sy my ey]; try discriminate.
  - split; [now destruct sx, sy|]. split; [now destruct sx, sy|].
    apply Hz. destruct sx, sy; simpl; lra.
  - split; [reflexivity|]. split; [exact Vy|]. apply Hz.
    unfold add, SFadd. simpl B2R at 2. lra.
  - split; [reflexivity|]. split; [exact Vx|]. apply Hz.
    unfold add, SFadd. simpl B2R at 3. lra.
  - unfold add, SFadd.
    destruct (@shl_align_spec mx ex (Z.min ex ey)) as (mx' & ex' & Ex & Hex & Hmx & _).
    destruct (@shl_align_spec my ey (Z.min ex ey)) as (my' & ey' & Ey & Hey & Hmy & _).
    rewrite Ex, Ey. simpl fst.
    assert (Ex' : ex' = Z.min ex ey) by lia. assert (Ey' : ey' = Z.min ex ey) by lia.
    rewrite Ex' in Hmx. rewrite Ey' in Hmy. clear Ex Ey Hex Hey Ex' Ey' ex' ey'.
    set (ez := Z.min ex ey) in *.
    set (S := (cond_Zopp sx (Zpos mx') + cond_Zopp sy (Zpos my'))%Z).
    assert (HS : (IZR S * bpow ez
                  = B2R (S754_finite sx mx ex) + B2R (S754_finite sy my ey))%R).
    { rewrite !B2R_finite.
      rewrite <- (@shl_align_value mx mx' ex ez ltac:(lia) Hmx).
      rewrite <- (@shl_align_value my my' ey ez ltac:(lia) Hmy).
      subst S. rewrite plus_IZR, !IZR_cond_Zopp. ring. }
    rewrite <- HS in *. pose proof (bpow_pos ez) as Hpz.
    destruct S as [|p|p] eqn:ES; simpl binary_normalize.
    + split; [reflexivity|]. split; [reflexivity|]. simpl B2R. apply Hz. lra.
    + assert (Hp0 : (0 <= IZR (Zpos p) * bpow ez)%R)
        by (apply Rmult_le_pos; [apply IZR_le; lia|lra]).
      rewrite (Rabs_right (IZR (Zpos p) * bpow ez)) in * by lra.
      destruct (@binary_round_error false p ez Hmax) as (v & Hf & Hv & Hr & Hb).
      split; [exact Hf|]. split; [exact Hv|]. rewrite Hr. unfold sign.
      rewrite Rmult_1_l. exact Hb.
    + change (Zneg p) with (Z.opp (Zpos p)) in *. rewrite opp_IZR in *.
      assert (Hp0 : (0 <= IZR (Zpos p) * bpow ez)%R)
        by (apply Rmult_le_pos; [apply IZR_le; lia|lra]).
      replace (- IZR (Zpos p) * bpow ez)%R with (- (IZR (Zpos p) * bpow ez))%R in * by lra.
      rewrite Rabs_Ropp, (Rabs_right (IZR (Zpos p) * bpow ez)) in * by lra.
      destruct (@binary_round_error true p ez Hmax) as (v & Hf & Hv & Hr & Hb).
      split; [exact Hf|]. split; [exact Hv|]. rewrite Hr. unfold sign.
      replace (-1 * v - - (IZR (Zpos p) * bpow ez))%R
        with (- (v - IZR (Zpos p) * bpow ez))%R by lra.
      rewrite Rabs_Ropp. exact Hb.
Qed.

(** Division. *)
Lemma div_core_spec (mx my : positive) (ex ey : Z) :
  exists q e' l,
    SFdiv_core_binary prec emax (Zpos mx) ex (Zpos my) ey = (q, e', l)
    /\ (0 <= q)%Z
    /\ (e' <= fexp prec emax (Zdigits2 q + e'))%Z
    /\ (IZR q * bpow e' <= IZR (Zpos mx) * bpow ex / (IZR (Zpos my) * bpow ey)
        <= IZR (q + 1) * bpow e')%R.
Proof.
  unfold SFdiv_core_binary.
  set (d1 := Zdigits2 (Zpos mx)). set (d2 := Zdigits2 (Zpos my)).
  set (k := (d1 + ex - (d2 + ey))%Z).
  set (e' := Z.min (fexp prec emax k) (ex - ey)).
  set (s := (ex - ey - e')%Z).
  assert (Hs : (0 <= s)%Z) by (subst s e'; lia).
  assert (Es : s = (ex - ey - e')%Z) by reflexivity. clearbody s.
  assert (He' : (e' <= fexp prec emax k)%Z) by (subst e'; lia).
  clearbody e'.
  set (m' := match s with Zpos _ => Z.shiftl (Zpos mx) s | Z0 => Zpos mx | Zneg _ => 0%Z end).
  assert (Hm' : m' = (Zpos mx * 2 ^ s)%Z).
  { subst m'. destruct s as [|p|p]; [simpl; lia| |lia].
    now rewrite Z.shiftl_mul_pow2 by lia. }
  clearbody m'.
  assert (Hps : (0 < 2 ^ s)%Z) by (apply Z.pow_pos_nonneg; lia).
  pose proof (Z_div_mod m' (Zpos my) ltac:(lia)) as Hdm.
  destruct (Z.div_eucl m' (Zpos my)) as [q r]. destruct Hdm as [Hdm Hr].
  assert (Hq0 : (0 <= q)%Z) by nia.
  exists q, e', (new_location (Zpos my) r). split; [reflexivity|]. split; [exact Hq0|].
  destruct (@Zdigits2_bounds (Zpos mx) ltac:(lia)) as (X1 & X2 & X3).
  destruct (@Zdigits2_bounds (Zpos my) ltac:(lia)) as (Y1 & Y2 & Y3).
  fold d1 in X1, X2, X3. fold d2 in Y1, Y2, Y3.
  split.
  - destruct (Z.le_gt_cases e' (-1074)) as [Hle|Hgt]; [rewrite fexp_eq; lia|].
    assert (Hk : (e' <= k - 53)%Z) by (rewrite fexp_eq in *; lia).
    assert (Hbig : (2 ^ (d1 - 1 + s - d2) <= q)%Z).
    { assert (Hexp : (0 <= d1 - 1 + s - d2)%Z) by (subst k; lia).
      assert (H1 : (2 ^ (d1 - 1 + s - d2) * 2 ^ d2 <= m')%Z).
      { rewrite <- Z.pow_add_r by lia.
        replace (d1 - 1 + s - d2 + d2)%Z with ((d1 - 1) + s)%Z by lia.
        rewrite Z.pow_add_r, Hm' by lia. apply Z.mul_le_mono_nonneg_r; lia. }
      assert (Hp : (0 < 2 ^ (d1 - 1 + s - d2))%Z) by (apply Z.pow_pos_nonneg; lia).
      nia. }
    pose proof (@Zdigits2_ge q (d1 - 1 + s - d2) ltac:(subst k; lia) Hbig) as Hd.
    rewrite fexp_eq. subst k. lia.
  - pose proof (bpow_pos ex) as Pex. pose proof (bpow_pos ey) as Pey.
    pose proof (bpow_pos e') as Pe'. pose proof (bpow_pos s) as Ps.
    assert (HY : (0 < IZR (Zpos my))%R) by (apply IZR_lt; lia).
    assert (Hex : bpow ex = (bpow s * bpow e' * bpow ey)%R).
    { rewrite <- !bpow_add. f_equal. lia. }
    assert (Ht : (IZR (Zpos mx) * bpow ex / (IZR (Zpos my) * bpow ey)
                  = IZR m' * bpow e' / IZR (Zpos my))%R).
    { rewrite Hm', mult_IZR, <- (@bpow_IZR s Hs), Hex. field. lra. }
    rewrite Ht.
    assert (Hm'R : IZR m' = (IZR (Zpos my) * IZR q + IZR r)%R)
      by (rewrite Hdm, plus_IZR, mult_IZR; reflexivity).
    assert (Hr0 : (0 <= IZR r)%R) by (apply IZR_le; lia).
    assert (Hr1 : (IZR r < IZR (Zpos my))%R) by (apply IZR_lt; lia).
    rewrite plus_IZR. split.
    + apply Rmult_le_reg_r with (IZR (Zpos my)); [exact HY|].
      replace (IZR m' * bpow e' / IZR (Zpos my) * IZR (Zpos my))%R
        with (IZR m' * bpow e')%R by (field; lra).
      rewrite Hm'R. nra.
    + apply Rmult_le_reg_r with (IZR (Zpos my)); [exact HY|].
      replace (IZR m' * bpow e' / IZR (Zpos my) * IZR (Zpos my))%R
        with (IZR m' * bpow e')%R by (field; lra).
      rewrite Hm'R. nra.
Qed.

Lemma div_error (x y : number) :
  valid_binary prec emax x = true -> valid_binary prec emax y = true ->
  isFinite x = true -> isFinite y = true -> isZero y = false ->
  (Rabs (B2R x / B2R y) < bpow 1023)%R ->
  isFinite (div x y) = true
  /\ valid_binary prec emax (div x y) = true
  /\ (Rabs (B2R (div x y) - B2R x / B2R y)
      <= bpow (-52) * Rabs (B2R x / B2R y) + bpow (-1074))%R.
Proof.
  intros Vx Vy Fx Fy Zy Hmax.
  pose proof (bpow_pos (-52)) as Hu. pose proof (bpow_pos (-1074)) as Heta.
  destruct y as [sy|sy| |sy my ey]; try discriminate.
  destruct x as [sx|sx| |sx mx ex]; try discriminate.
  - split; [reflexivity|]. split; [reflexivity|]. simpl B2R at 1 2 4.
    unfold Rdiv. rewrite Rmult_0_l, Rminus_0_r, Rabs_R0. lra.
  - unfold div, SFdiv.
    destruct (@div_core_spec mx my ex ey) as (q & e' & l & -> & Hq & Hpre & Ht).
    set (t := (IZR (Zpos mx) * bpow ex / (IZR (Zpos my) * bpow ey))%R) in *.
    pose proof (bpow_pos ex) as Pex. pose proof (bpow_pos ey) as Pey.
    assert (HX : (0 < IZR (Zpos mx))%R) by (apply IZR_lt; lia).
    assert (HY : (0 < IZR (Zpos my))%R) by (apply IZR_lt; lia).
    assert (Et : (B2R (S754_finite sx mx ex) / B2R (S754_finite sy my ey)
                  = sign (xorb sx sy) * t)%R).
    { rewrite !B2R_finite, sign_xorb. subst t.
      destruct sx, sy; unfold sign; field; split; nra. }
    rewrite Et in *. rewrite sign_abs in *.
    assert (Ht0 : (0 < t)%R).
    { subst t. apply Rdiv_lt_0_compat; nra. }
    rewrite (Rabs_right t) in * by lra.
    destruct (@binary_round_aux_error (xorb sx sy) q e' l t Hq Hpre Ht Hmax)
      as (v & Hf & Hv & Hr & Hb).
    split; [exact Hf|]. split; [exact Hv|].
    rewrite Hr. fold (sign (xorb sx sy)).
    rewrite <- Rmult_minus_distr_l, sign_abs. exact Hb.
Qed.

Lemma neg_value (x : number) :
  B2R (neg x) = (- B2R x)%R
  /\ isFinite (neg x) = isFinite x
  /\ valid_binary prec emax (neg x) = valid_binary prec emax x.
Proof.
  destruct x as [s|s| |s m e]; simpl; try (repeat split; lra).
  repeat split. destruct s; simpl;
    [change (Zneg m) with (Z.opp (Zpos m)); rewrite opp_IZR|
     change (Zneg m) with (Z.opp (Zpos m)); rewrite opp_IZR]; lra.
Qed.

(** ** Operations on numbers of bounded magnitude *)

Lemma bpow_52 : bpow (-52) = (/ 4503599627370496)%R.
Proof.
  pose proof (bpow_opp 52) as H. rewrite (@bpow_IZR 52 ltac:(lia)) in H.
  change (2 ^ 52)%Z with 4503599627370496%Z in H. simpl Z.opp in H.
  apply Rmult_eq_reg_r with 4503599627370496%R; [|lra].
  rewrite Rinv_l by lra. exact H.
Qed.

Lemma bpow_eta_small : (bpow (-1074) <= / 2)%R.
Proof.
  pose proof (@bpow_le (-1074) (-1) ltac:(lia)) as H.
  assert (E : bpow (-1) = (/ 2)%R) by (unfold bpow; simpl; lra). lra.
Qed.

Lemma rounded_grows (v z : R) (k : Z) :
  rounded v z -> (0 <= k)%Z -> (Rabs z <= bpow k)%R -> (Rabs v <= bpow (k + 1))%R.
Proof.
  unfold rounded. intros H Hk Hz.
  pose proof bpow_52 as HU. pose proof bpow_eta_small as HE.
  pose proof (bpow_ge_1 Hk) as H1.
  assert (E2 : bpow (k + 1) = (2 * bpow k)%R).
  { assert (E1 : bpow 1 = 2%R) by (unfold bpow; simpl; lra).
    rewrite bpow_add, E1. lra. }
  rewrite E2. pose proof (Rabs_pos z).
  pose proof (Rabs_triang (v - z) z) as Ht.
  replace (v - z + z)%R with v in Ht by lra. rewrite HU in H. lra.
Qed.

Lemma bpow_lt (a b : Z) : (a < b)%Z -> (bpow a < bpow b)%R.
Proof.
  intro H. replace b with (a + 1 + (b - a - 1))%Z by lia. rewrite !bpow_add.
  assert (E1 : bpow 1 = 2%R) by (unfold bpow; simpl; lra). rewrite E1.
  pose proof (bpow_pos a). pose proof (@bpow_ge_1 (b - a - 1) ltac:(lia)). nra.
Qed.

Lemma good_weaken (i j : Z) (x : number) : (i <= j)%Z -> good i x -> good j x.
Proof.
  intros Hij (F & V & B). repeat split; try assumption.
  pose proof (bpow_le Hij). lra.
Qed.

Lemma mul_good (i j : Z) (x y : number) :
  good i x -> good j y -> (0 <= i + j <= 1000)%Z ->
  good (i + j + 1) (mul x y) /\ rounded (B2R (mul x y)) (B2R x * B2R y).
Proof.
  intros (Fx & Vx & Bx) (Fy & Vy & By) Hk.
  assert (Hz : (Rabs (B2R x * B2R y) <= bpow (i + j))%R).
  { rewrite Rabs_mult, bpow_add. pose proof (Rabs_pos (B2R x)). pose proof (Rabs_pos (B2R y)).
    apply Rmult_le_compat; assumption. }
  assert (Hmax : (Rabs (B2R x * B2R y) < bpow 1023)%R)
    by (apply Rle_lt_trans with (bpow (i + j)); [exact Hz|apply bpow_lt; lia]).
  destruct (@mul_error x y Vx Vy Fx Fy Hmax) as (F & V & E).
  split; [|exact E]. split; [exact F|]. split; [exact V|].
  apply (@rounded_grows _ _ (i + j) E); [lia|exact Hz].
Qed.

Lemma add_good (i j : Z) (x y : number) :
  good i x -> good j y -> (0 <= i <= 1000)%Z -> (0 <= j <= 1000)%Z ->
  good (Z.max i j + 2) (add x y) /\ rounded (B2R (add x y)) (B2R x + B2R y).
Proof.
  intros (Fx & Vx & Bx) (Fy & Vy & By) Hi Hj.
  assert (Hz : (Rabs (B2R x + B2R y) <= bpow (Z.max i j + 1))%R).
  { assert (E2 : bpow (Z.max i j + 1) = (2 * bpow (Z.max i j))%R).
    { assert (E1 : bpow 1 = 2%R) by (unfold bpow; simpl; lra).
      rewrite bpow_add, E1. lra. }
    rewrite E2.
    pose proof (@bpow_le i (Z.max i j) ltac:(lia)).
    pose proof (@bpow_le j (Z.max i j) ltac:(lia)).
    pose proof (Rabs_triang (B2R x) (B2R y)). lra. }
  assert (Hmax : (Rabs (B2R x + B2R y) < bpow 1023)%R)
    by (apply Rle_lt_trans with (bpow (Z.max i j + 1)); [exact Hz|apply bpow_lt; lia]).
  destruct (@add_error x y Vx Vy Fx Fy Hmax) as (F & V & E).
  split; [|exact E]. split; [exact F|]. split; [exact V|].
  replace (Z.max i j + 2)%Z with (Z.max i j + 1 + 1)%Z by lia.
  apply (@rounded_grows _ _ (Z.max i j + 1) E); [lia|exact Hz].
Qed.

Lemma ratio_bound (i j : Z) (x y : number) :
  good i x -> (bpow (- j) <= Rabs (B2R y))%R ->
  (Rabs (B2R x / B2R y) <= bpow (i + j))%R.
Proof.
  intros (_ & _ & Bx) By.
  pose proof (bpow_pos (- j)) as Pj. pose proof (bpow_pos i) as Pi.
  unfold Rdiv. rewrite Rabs_mult, Rabs_inv, bpow_add.
  assert (Hinv : (/ Rabs (B2R y) <= bpow j)%R).
  { pose proof (bpow_opp j) as Ho. pose proof (bpow_pos j) as Pj'.
    apply Rmult_le_reg_r with (Rabs (B2R y)); [lra|].
    rewrite Rinv_l by lra. nra. }
  pose proof (Rabs_pos (B2R x)).
  assert (0 < / Rabs (B2R y))%R by (apply Rinv_0_lt_compat; lra).
  apply Rmult_le_compat; lra.
Qed.

Lemma div_good (i j : Z) (x y : number) :
  good i x -> isFinite y = true -> valid_binary prec emax y = true ->
  (bpow (- j) <= Rabs (B2R y))%R -> (0 <= i + j <= 1000)%Z ->
  good (i + j + 1) (div x y) /\ rounded (B2R (div x y)) (B2R x / B2R y).
Proof.
  intros (Fx & Vx & Bx) Fy Vy By Hk.
  pose proof (bpow_pos (- j)) as Pj. pose proof (bpow_pos i) as Pi.
  assert (Hy0 : B2R y <> 0%R).
  { intro E0. rewrite E0, Rabs_R0 in By. lra. }
  assert (Zy : isZero y = false).
  { destruct y; try reflexivity. simpl in Hy0. lra. }
  assert (Hz : (Rabs (B2R x / B2R y) <= bpow (i + j))%R)
    by (apply ratio_bound; [repeat split; assumption|exact By]).
  assert (Hmax : (Rabs (B2R x / B2R y) < bpow 1023)%R)
    by (apply Rle_lt_trans with (bpow (i + j)); [exact Hz|apply bpow_lt; lia]).
  destruct (@div_error x y Vx Vy Fx Fy Zy Hmax) as (F & V & E).
  split; [|exact E]. split; [exact F|]. split; [exact V|].
  apply (@rounded_grows _ _ (i + j) E); [lia|exact Hz].
Qed.

Lemma add_zero_good (i : Z) (x z : number) :
  good i x -> isZero z = true ->
  good i (add x z) /\ B2R (add x z) = B2R x.
Proof.
  intros (F & V & B) Hz. destruct z as [sz| | |]; try discriminate.
  destruct x as [sx|sx| |sx mx ex]; try discriminate.
  - assert (E : B2R (add (S754_zero sx) (S754_zero sz)) = 0%R)
      by (destruct sx, sz; reflexivity).
    split; [|exact E]. split; [now destruct sx, sz|]. split; [now destruct sx, sz|].
    rewrite E. exact B.
  - split; [|reflexivity]. split; [exact F|]. split; [exact V|exact B].
Qed.

Lemma mul_zero_l (y : number) :
  isFinite y = true -> isZero (mul (of_Z 0) y) = true.
Proof. destruct y; try discriminate; reflexivity. Qed.

Lemma neg_good (i : Z) (x : number) : good i x -> good i (neg x).
Proof.
  intros (F & V & B). destruct (neg_value x) as (E1 & E2 & E3).
  split; [congruence|]. split; [congruence|]. rewrite E1, Rabs_Ropp. exact B.
Qed.

Lemma one_good : good 0 (of_Z 1) /\ B2R (of_Z 1) = 1%R.
Proof.
  assert (E : B2R (of_Z 1) = 1%R).
  { change (of_Z 1) with (S754_finite false 4503599627370496 (-52)).
    unfold B2R, cond_Zopp. rewrite bpow_52. lra. }
  split; [|exact E]. split; [reflexivity|]. split; [reflexivity|].
  rewrite E, Rabs_R1. change (bpow 0) with 1%R. lra.
Qed.

(** ** The error of the round trip on one axis, over the reals *)

Lemma scaled_bound (e z c w : R) :
  (Rabs e <= bpow (-52) * z + c)%R -> (0 <= w)%R ->
  (Rabs e * w <= bpow (-52) * (z * w) + c * w)%R.
Proof. intros H Hw. pose proof (Rabs_pos e). nra. Qed.

Lemma affine_error (g s p p1 l a0 b0 t r : R) :
  (bpow (-100) <= Rabs s <= bpow 100)%R ->
  rounded p1 (s * p) -> rounded l (g + p1) ->
  rounded a0 (- g / s) -> rounded b0 (1 / s) ->
  rounded t (b0 * l) -> rounded r (a0 + t) ->
  (Rabs (r - p) <= bpow (-48) * (Rabs (g / s) + Rabs p) + bpow (-800))%R.
Proof.
  unfold rounded. intros [Hs1 Hs2] H1 H2 H4 H5 H6 H7.
  pose proof bpow_52 as HU.
  assert (H48 : bpow (-48) = (16 * bpow (-52))%R).
  { replace (-48)%Z with (4 + -52)%Z by lia. rewrite bpow_add.
    rewrite (@bpow_IZR 4 ltac:(lia)). change (2 ^ 4)%Z with 16%Z. reflexivity. }
  pose proof (bpow_pos (-1074)) as PE. pose proof (bpow_pos (-100)) as P100.
  set (E := bpow (-1074)) in *. set (T := bpow (-974)).
  assert (HT : (E * bpow 100 = T)%R)
    by (subst E T; rewrite <- bpow_add; reflexivity).
  assert (HT800 : (T * 1024 <= bpow (-800))%R).
  { subst T. assert (E10 : bpow 10 = 1024%R) by (rewrite bpow_IZR by lia; reflexivity).
    rewrite <- E10, <- bpow_add. apply bpow_le. lia. }
  assert (HTU : (T <= bpow (-52))%R) by (apply bpow_le; lia).
  assert (HET : (E <= T)%R) by (apply bpow_le; lia).
  assert (Hs0 : s <> 0%R) by (intro E0; rewrite E0, Rabs_R0 in Hs1; lra).
  set (W := (/ Rabs s)%R).
  assert (Has : (0 < Rabs s)%R) by lra.
  assert (HW0 : (0 < W)%R) by (apply Rinv_0_lt_compat; exact Has).
  assert (HasW : (Rabs s * W = 1)%R) by (subst W; field; lra).
  assert (HW : (W <= bpow 100)%R).
  { pose proof (bpow_opp 100) as Ho. simpl Z.opp in Ho. pose proof (bpow_pos 100).
    apply Rmult_le_reg_r with (Rabs s); [lra|]. rewrite Rmult_comm, HasW. nra. }
  assert (HEW : (E * W <= T)%R) by (rewrite <- HT; nra).
  assert (HEas : (E * Rabs s <= T)%R) by (rewrite <- HT; nra).
  pose proof (Rabs_pos g) as Pg. pose proof (Rabs_pos p) as Pp.
  set (gw := (Rabs g * W)%R). assert (Pgw : (0 <= gw)%R) by (subst gw; nra).
  assert (Egw : Rabs (g / s) = gw).
  { unfold Rdiv. rewrite Rabs_mult, Rabs_inv. reflexivity. }
  assert (Egw' : Rabs (- g / s) = gw).
  { unfold Rdiv. rewrite Rabs_mult, Rabs_inv, Rabs_Ropp. reflexivity. }
  assert (EW : Rabs (1 / s) = W).
  { unfold Rdiv. rewrite Rabs_mult, Rabs_inv, Rabs_R1. subst W. lra. }
  rewrite Egw, H48. rewrite Egw' in H4. rewrite EW in H5.
  (* the errors *)
  set (e1 := (p1 - s * p)%R) in *. set (e2 := (l - (g + p1))%R) in *.
  set (e4 := (a0 - - g / s)%R) in *. set (e5 := (b0 - 1 / s)%R) in *.
  set (e6 := (t - b0 * l)%R) in *. set (e7 := (r - (a0 + t))%R) in *.
  rewrite Rabs_mult in H1.
  set (x1 := (Rabs e1 * W)%R). set (x2 := (Rabs e2 * W)%R). set (lw := (Rabs l * W)%R).
  pose proof (Rabs_pos e1) as Pe1. pose proof (Rabs_pos e2) as Pe2.
  pose proof (Rabs_pos l) as Pl.
  assert (F1 : (x1 <= bpow (-52) * Rabs p + T)%R).
  { pose proof (@scaled_bound e1 (Rabs s * Rabs p) E W H1 ltac:(lra)) as Hx.
    replace (Rabs s * Rabs p * W)%R with (Rabs p * (Rabs s * W))%R in Hx by ring.
    rewrite HasW in Hx. subst x1. lra. }
  assert (Hgp : (Rabs (g + p1) <= Rabs g + Rabs s * Rabs p + Rabs e1)%R).
  { replace (g + p1)%R with (g + (s * p + e1))%R by (subst e1; ring).
    pose proof (Rabs_triang g (s * p + e1)). pose proof (Rabs_triang (s * p) e1).
    rewrite Rabs_mult in *. lra. }
  assert (F2 : (x2 <= bpow (-52) * (gw + Rabs p + x1) + T)%R).
  { assert (H2' : (Rabs e2 <= bpow (-52) * (Rabs g + Rabs s * Rabs p + Rabs e1) + E)%R).
    { rewrite HU in *. lra. }
    pose proof (@scaled_bound e2 _ E W H2' ltac:(lra)) as Hx.
    replace ((Rabs g + Rabs s * Rabs p + Rabs e1) * W)%R
      with (Rabs g * W + Rabs p * (Rabs s * W) + Rabs e1 * W)%R in Hx by ring.
    rewrite HasW in Hx. subst x2 gw x1. lra. }
  assert (F3 : (lw <= gw + Rabs p + x1 + x2)%R).
  { assert (Hl : (Rabs l <= Rabs g + Rabs s * Rabs p + Rabs e1 + Rabs e2)%R).
    { replace l with ((g + p1) + e2)%R by (subst e2; ring).
      pose proof (Rabs_triang (g + p1) e2). lra. }
    subst lw gw x1 x2.
    replace (Rabs g * W + Rabs p + Rabs e1 * W + Rabs e2 * W)%R
      with ((Rabs g + Rabs s * Rabs p + Rabs e1 + Rabs e2) * W + Rabs p * (1 - Rabs s * W))%R by ring.
    rewrite HasW. nra. }
  assert (Plw : (0 <= lw)%R) by (subst lw; nra).
  assert (F5 : (Rabs (e5 * l) <= 2 * bpow (-52) * lw)%R).
  { rewrite Rabs_mult.
    pose proof (@scaled_bound e5 W E (Rabs l) H5 Pl) as Hx.
    assert (HEl : (E * Rabs l <= bpow (-52) * lw)%R).
    { replace (E * Rabs l)%R with ((E * Rabs s) * lw)%R
        by (subst lw; replace (E * Rabs s * (Rabs l * W))%R
              with (E * Rabs l * (Rabs s * W))%R by ring; rewrite HasW; ring).
      apply Rmult_le_compat_r; lra. }
    subst lw. replace (W * Rabs l)%R with (Rabs l * W)%R in Hx by ring. lra. }
  set (bl := Rabs (b0 * l)) in *.
  assert (F6 : (bl <= lw + Rabs (e5 * l))%R).
  { subst bl. replace (b0 * l)%R with (l * / s + e5 * l)%R by (subst e5; field; exact Hs0).
    pose proof (Rabs_triang (l * / s) (e5 * l)) as Ht.
    rewrite Rabs_mult, Rabs_inv in Ht. exact Ht. }
  assert (Hat : (Rabs (a0 + t) <= gw + Rabs e4 + bl + Rabs e6)%R).
  { replace (a0 + t)%R with ((- g / s + e4) + (b0 * l + e6))%R by (subst e4 e6; ring).
    pose proof (Rabs_triang (- g / s + e4) (b0 * l + e6)) as Ta.
    pose proof (Rabs_triang (- g / s) e4) as Tb.
    pose proof (Rabs_triang (b0 * l) e6) as Tc.
    fold bl in Tc. rewrite Egw' in Tb. lra. }
  assert (Hid : (r - p = e4 + (e1 + e2) * / s + e5 * l + e6 + e7)%R).
  { subst e1 e2 e4 e5 e6 e7. field. exact Hs0. }
  assert (Hx12 : (Rabs ((e1 + e2) * / s) <= x1 + x2)%R).
  { rewrite Rabs_mult, Rabs_inv. fold W. subst x1 x2.
    pose proof (Rabs_triang e1 e2). nra. }
  rewrite Hid.
  pose proof (Rabs_triang (e4 + (e1 + e2) * / s + e5 * l + e6) e7).
  pose proof (Rabs_triang (e4 + (e1 + e2) * / s + e5 * l) e6).
  pose proof (Rabs_triang (e4 + (e1 + e2) * / s) (e5 * l)).
  pose proof (Rabs_triang e4 ((e1 + e2) * / s)).
  pose proof (Rabs_pos e4). pose proof (Rabs_pos e6). pose proof (Rabs_pos e7).
  pose proof (Rabs_pos (e5 * l)).
  assert (Px1 : (0 <= x1)%R) by (subst x1; nra).
  assert (Px2 : (0 <= x2)%R) by (subst x2; nra).
  rewrite HU in *. lra.
Qed.

Lemma magnitude_le_good (k : Z) (x : number) :
  valid_binary prec emax x = true -> magnitude_le k x = true -> good k x.
Proof.
  intros V H. destruct x as [s| | |s m e]; try discriminate.
  - split; [reflexivity|]. split; [reflexivity|]. simpl. rewrite Rabs_R0.
    pose proof (bpow_pos k). lra.
  - split; [reflexivity|]. split; [exact V|]. unfold magnitude_le in H.
    apply Z.leb_le in H. rewrite B2R_finite, sign_abs.
    destruct (B2R_magnitude s m e) as [H1 H2].
    pose proof (bpow_le H). pose proof (bpow_pos (Zpos (digits2_pos m) + e - 1)).
    rewrite Rabs_right by lra. lra.
Qed.

Lemma magnitude_ge_bound (k : Z) (x : number) :
  magnitude_ge k x = true -> (bpow k <= Rabs (B2R x))%R.
Proof.
  intro H. destruct x as [s| | |s m e]; try discriminate.
  unfold magnitude_ge in H. apply Z.ltb_lt in H.
  destruct (B2R_magnitude s m e) as [H1 H2].
  pose proof (@bpow_le k (Zpos (digits2_pos m) + e - 1) ltac:(lia)).
  pose proof (bpow_pos k).
  rewrite B2R_finite, sign_abs, Rabs_right by lra. lra.
Qed.

Lemma round_trip_axis (g g1 s p z : number) :
  good 100 g -> good 100 g1 -> B2R g1 = B2R g ->
  good 100 s -> (bpow (- (100)) <= Rabs (B2R s))%R ->
  good 100 p -> isZero z = true ->
  forall l a : number,
    (l = add g1 (mul s p) \/ l = add (add g1 (mul s p)) z) ->
    (a = div (neg g) s \/ a = add (div (neg g) s) z) ->
    let q := add a (mul (div (of_Z 1) s) l) in
    good 203 l /\ good 308 q
    /\ (Rabs (B2R q - B2R p)
        <= bpow (-48) * (Rabs (B2R g / B2R s) + Rabs (B2R p)) + bpow (-800))%R.
Proof.
  intros Gg Gg1 Eg Gs Hs Gp Hz l a Hl Ha q.
  destruct (@mul_good 100 100 s p Gs Gp ltac:(lia)) as [G1 R1].
  destruct (@add_good 100 201 g1 (mul s p) Gg1 G1 ltac:(lia) ltac:(lia)) as [G2 R2].
  simpl Z.max in G2. simpl Z.add in G1, G2. rewrite Eg in R2.
  assert (Gl : good 203 l /\ B2R l = B2R (add g1 (mul s p))).
  { destruct Hl as [-> | ->]; [split; [exact G2|reflexivity]|].
    apply add_zero_good; assumption. }
  destruct Gl as [Gl El]. rewrite <- El in R2.
  destruct (@div_good 100 100 (neg g) s (neg_good Gg) (proj1 Gs) (proj1 (proj2 Gs))
              Hs ltac:(lia)) as [G4 R4].
  destruct (neg_value g) as (En & _ & _). rewrite En in R4. simpl Z.add in G4.
  assert (Ga : good 201 a /\ B2R a = B2R (div (neg g) s)).
  { destruct Ha as [-> | ->]; [split; [exact G4|reflexivity]|].
    apply add_zero_good; assumption. }
  destruct Ga as [Ga Ea]. rewrite <- Ea in R4.
  destruct one_good as [G0 E0].
  destruct (@div_good 0 100 (of_Z 1) s G0 (proj1 Gs) (proj1 (proj2 Gs)) Hs ltac:(lia))
    as [G5 R5].
  rewrite E0 in R5. simpl Z.add in G5.
  destruct (@mul_good 101 203 _ l G5 Gl ltac:(lia)) as [G6 R6]. simpl Z.add in G6.
  destruct (@add_good 201 305 a _ Ga G6 ltac:(lia) ltac:(lia)) as [G7 R7].
  simpl Z.max in G7. simpl Z.add in G7.
  split; [exact Gl|]. split; [apply (@good_weaken 307 308); [lia|exact G7]|].
  apply (@affine_error (B2R g) (B2R s) (B2R p) (B2R (mul s p)) (B2R l) (B2R a)
           (B2R (div (of_Z 1) s)) (B2R (mul (div (of_Z 1) s) l)) (B2R q));
    try assumption.
  split; [exact Hs|]. destruct Gs as (_ & _ & B). exact B.
Qed.

(** ** The coordinate transform *)

Lemma within_tolerance (d A : R) :
  (d <= bpow (-48) * A + bpow (-800))%R -> (A <= 268435456)%R ->
  (d <= 1 / 1000000)%R.
Proof.
  intros Hd HA.
  assert (H48 : bpow (-48) = (16 * bpow (-52))%R).
  { replace (-48)%Z with (4 + -52)%Z by lia. rewrite bpow_add.
    rewrite (@bpow_IZR 4 ltac:(lia)). change (2 ^ 4)%Z with 16%Z. reflexivity. }
  pose proof (@bpow_le (-800) (-52) ltac:(lia)) as H800.
  rewrite H48, bpow_52 in *. lra.
Qed.

Lemma Rabs_div_opp (a b : R) : Rabs (a / - b) = Rabs (a / b).
Proof.
  destruct (Req_dec b 0) as [->|Hb]; [now rewrite Ropp_0|].
  replace (a / - b)%R with (- (a / b))%R by (field; exact Hb). apply Rabs_Ropp.
Qed.

(** C1, as amended: in binary64, for every dataset and pixel in range,
    the inverse transform applied to the forward transform of [(px, py)]
    is a pair of finite numbers that differ from [px] and [py] by at most
    [2^-48 (|gx / sx| + |px|) + 2^-800] and
    [2^-48 (|gy / sy| + |py|) + 2^-800]; this is within [1e-6] whenever
    [|gx / sx| + |px|] and [|gy / sy| + |py|] are at most [2^28].  A
    dataset is in range when [sx] and [sy] are at least [2^-100] and below
    [2^100] in magnitude, and [gx], [gy], [px] and [py] are below [2^100]
    in magnitude. *)
Theorem round_trip_error_bound (gx gy sx sy px py : number) :
  dataset_in_range gx gy sx sy px py = true ->
  exists qx qy,
    round_trip (VNumber gx) (VNumber gy) (VNumber sx) (VNumber sy)
               (VNumber px) (VNumber py)
    = [VNumber qx; VNumber qy]
    /\ isFinite qx = true /\ isFinite qy = true
    /\ (Rabs (B2R qx - B2R px)
        <= bpow (-48) * (Rabs (B2R gx / B2R sx) + Rabs (B2R px)) + bpow (-800))%R
    /\ (Rabs (B2R qy - B2R py)
        <= bpow (-48) * (Rabs (B2R gy / B2R sy) + Rabs (B2R py)) + bpow (-800))%R
    /\ ((Rabs (B2R gx / B2R sx) + Rabs (B2R px) <= 268435456)%R ->
        (Rabs (B2R qx - B2R px) <= 1 / 1000000)%R)
    /\ ((Rabs (B2R gy / B2R sy) + Rabs (B2R py) <= 268435456)%R ->
        (Rabs (B2R qy - B2R py) <= 1 / 1000000)%R).
Proof.
  intro H. unfold dataset_in_range in H. cbn [forallb] in H.
  repeat match goal with
         | K : (_ && _)%bool = true |- _ => apply andb_prop in K; destruct K
         end.
  assert (Ggx : good 100 gx) by (now apply magnitude_le_good).
  assert (Ggy : good 100 gy) by (now apply magnitude_le_good).
  assert (Gpx : good 100 px) by (now apply magnitude_le_good).
  assert (Gpy : good 100 py) by (now apply magnitude_le_good).
  assert (Gsx : good 100 sx) by (now apply magnitude_le_good).
  assert (Gsy : good 100 sy) by (now apply magnitude_le_good).
  assert (Lsx : (bpow (- (100)) <= Rabs (B2R sx))%R) by (now apply magnitude_ge_bound).
  assert (Lsy : (bpow (- (100)) <= Rabs (B2R sy))%R) by (now apply magnitude_ge_bound).
  destruct (neg_value sy) as (Ensy & _ & _).
  assert (Gsy' : good 100 (neg sy)) by (now apply neg_good).
  assert (Lsy' : (bpow (- (100)) <= Rabs (B2R (neg sy)))%R)
    by (rewrite Ensy, Rabs_Ropp; exact Lsy).
  (* the zero products *)
  assert (Zpy : isZero (mul (of_Z 0) py) = true) by (apply mul_zero_l, Gpy).
  assert (Zpx : isZero (mul (of_Z 0) px) = true) by (apply mul_zero_l, Gpx).
  destruct (@add_zero_good 100 gy (mul (of_Z 0) px) Ggy Zpx) as [Ggy1 Egy1].
  set (lon := add (add gx (mul sx px)) (mul (of_Z 0) py)).
  set (lat := add (add gy (mul (of_Z 0) px)) (mul (neg sy) py)).
  (* the first axis *)
  destruct (@round_trip_axis gx gx sx px (mul (of_Z 0) py) Ggx Ggx eq_refl Gsx Lsx Gpx Zpy
              lon (div (neg gx) sx) (or_intror eq_refl) (or_introl eq_refl))
    as (Glon & Gqx & Bx).
  (* the second axis *)
  assert (Zlon : isZero (mul (of_Z 0) lon) = true) by (apply mul_zero_l, Glon).
  destruct (@round_trip_axis gy (add gy (mul (of_Z 0) px)) (neg sy) py (mul (of_Z 0) lon)
              Ggy Ggy1 Egy1 Gsy' Lsy' Gpy Zlon
              lat (add (div (neg gy) (neg sy)) (mul (of_Z 0) lon))
              (or_introl eq_refl) (or_intror eq_refl))
    as (Glat & Gqy & By).
  assert (Zlat : isZero (mul (of_Z 0) lat) = true) by (apply mul_zero_l, Glat).
  destruct (@add_zero_good 308 _ (mul (of_Z 0) lat) Gqx Zlat) as [Gqx' Eqx].
  rewrite Ensy, Rabs_div_opp in By. rewrite <- Eqx in Bx.
  eexists. eexists. split; [reflexivity|].
  split; [exact (proj1 Gqx')|]. split; [exact (proj1 Gqy)|].
  split; [exact Bx|]. split; [exact By|].
  split; intro HA; [exact (within_tolerance Bx HA)|exact (within_tolerance By HA)].
Qed.

Lemma round_trip_error_bound_witness :
  dataset_in_range (of_Z (-100)) (of_Z 40) (decimal 1 2) (decimal 1 2)
                   (of_Z 1000) (of_Z 1000) = true
  /\ exists qx qy,
      round_trip (int (-100)) (int 40) (dec 1 2) (dec 1 2) (int 1000) (int 1000)
      = [VNumber qx; VNumber qy]
      /\ isFinite qx = true /\ isFinite qy = true
      /\ (Rabs (B2R qx - B2R (of_Z 1000)) <= 1 / 1000000)%R
      /\ (Rabs (B2R qy - B2R (of_Z 1000)) <= 1 / 1000000)%R.
Proof.
  assert (H : dataset_in_range (of_Z (-100)) (of_Z 40) (decimal 1 2) (decimal 1 2)
                (of_Z 1000) (of_Z 1000) = true) by (vm_compute; reflexivity).
  split; [exact H|].
  destruct (@round_trip_error_bound (of_Z (-100)) (of_Z 40) (decimal 1 2) (decimal 1 2)
              (of_Z 1000) (of_Z 1000) H)
    as (qx & qy & E & Fx & Fy & _ & _ & Tx & Ty).
  exists qx, qy. split; [exact E|]. split; [exact Fx|]. split; [exact Fy|].
  assert (Gs : (bpow (- (7)) <= Rabs (B2R (decimal 1 2)))%R)
    by (apply magnitude_ge_bound; vm_compute; reflexivity).
  assert (Gp : good 10 (of_Z 1000))
    by (apply magnitude_le_good; vm_compute; reflexivity).
  assert (Ggx : good 7 (of_Z (-100)))
    by (apply magnitude_le_good; vm_compute; reflexivity).
  assert (Ggy : good 7 (of_Z 40))
    by (apply magnitude_le_good; vm_compute; reflexivity).
  pose proof (@ratio_bound 7 7 _ _ Ggx Gs) as Rx.
  pose proof (@ratio_bound 7 7 _ _ Ggy Gs) as Ry.
  destruct Gp as (_ & _ & Bp).
  assert (E14 : bpow (7 + 7) = 16384%R) by (rewrite bpow_IZR by lia; reflexivity).
  assert (E10 : bpow 10 = 1024%R) by (rewrite bpow_IZR by lia; reflexivity).
  rewrite E14 in Rx, Ry. rewrite E10 in Bp.
  split; [apply Tx|apply Ty]; lra.
Defined.

(** C1, as stated, fails on the binary64 numbers of the program: for the
    tie point [gx = 2^53] and the pixel scale [(1, 1)], the pixel
    [(1, 0)] comes back as [(0, 0)], a whole pixel away, because
    [2^53 + 1] rounds to [2^53]. *)
Lemma round_trip_binary64_counterexample :
  round_trip (int (2 ^ 53)) (int 0) (int 1) (int 1) (int 1) (int 0) = [int 0; int 0]
  /\ isZero (ToNumber (int 1)) = false
  /\ differ_by_more_than (dec 1 6) (int 0) (int 1) = true.
Proof. vm_compute. repeat split. Qed.

(** C2: for the dataset with [pixelScale = (0.01, 0.01, 0)] and
    [tiePoint = (0, 0, 0, -100, 40, 0)], the ingestion derives (and logs)
    a forward matrix that maps pixel [(0, 0)] to [(-100, 40)] and pixel
    [(1000, 1000)] to [(-90, 30)], whatever the two random numbers of the
    run; the values are exact in binary64. *)
Theorem scenario_forward (random1 random2 : number) :
  exists M,
    logged_pixelToGPS
      (console (fst (loadMethaneAssets (Normal scenario_asset) random1 random2
                       initial_ingest))) = Some M
    /\ M = pixelToGPS (int (-100)) (int 40) (dec 1 2) (js_neg (dec 1 2))
    /\ transform (int 0) (int 0) M false = [int (-100); int 40]
    /\ transform (int 1000) (int 1000) M false = [int (-90); int 30].
Proof.
  eexists. split; [reflexivity|].
  split; [reflexivity|]. split; vm_compute; reflexivity.
Qed.

(** C6, at the failing input: with [roundToInt = true] the older variant
    of [transform] returns [-2147483648] for the component
    [0 + 1 * 2147483648 + 0 * 0], whose truncation toward zero is
    [2147483648] itself, which is what the variant of three.js returns. *)
Theorem transform_legacy_wraps :
  let M := [int 0; int 1; int 0; int 0; int 0; int 0] in
  transform (int 2147483648) (int 0) M false = [int 2147483648; int 0]
  /\ integral_part (of_Z 2147483648) = Some 2147483648%Z
  /\ transform (int 2147483648) (int 0) M true = [int 2147483648; int 0]
  /\ transform_legacy (int 2147483648) (int 0) M true = [int (-2147483648); int 0].
Proof. vm_compute. repeat split. Qed.

(** ** The round trip in binary64 on the end-to-end dataset *)

Lemma scenario_numbers :
  int (-100) = VNumber scenario_gx /\ int 40 = VNumber scenario_gy
  /\ dec 1 2 = VNumber scenario_s.
Proof. repeat split; vm_compute; reflexivity. Qed.

Lemma scenario_coefficients :
  div (neg scenario_gx) scenario_s = scenario_a
  /\ div (of_Z 1) scenario_s = scenario_b
  /\ div (neg scenario_gy) (neg scenario_s) = scenario_c
  /\ div (of_Z 1) (neg scenario_s) = scenario_d.
Proof. repeat split; vm_compute; reflexivity. Qed.

Lemma zero_times_pixel :
  forallb (fun i => is_zero_signed false (mul (of_Z 0) (of_Z i))) pixels = true.
Proof. vm_compute. reflexivity. Qed.

Lemma zero_times_lat :
  forallb (fun j => is_zero_signed false (mul (of_Z 0) (scenario_lat j))) pixels = true.
Proof. vm_compute. reflexivity. Qed.

Lemma zero_times_lon :
  forallb (fun i => is_zero_signed true (mul (of_Z 0) (scenario_lon i))) pixels = true.
Proof. vm_compute. reflexivity. Qed.

Lemma scenario_px_close :
  forallb (fun i => within (decimal 1 6) (scenario_px i) (of_Z i)) pixels = true.
Proof. vm_compute. reflexivity. Qed.

Lemma scenario_py_close :
  forallb (fun j => within (decimal 1 6) (scenario_py j) (of_Z j)) pixels = true.
Proof. vm_compute. reflexivity. Qed.

Lemma is_zero_signed_eq (s : bool) (x : number) :
  is_zero_signed s x = true -> x = S754_zero s.
Proof.
  destruct x as [s'| | |]; simpl; try discriminate.
  intro H. apply Bool.eqb_prop in H. now subst.
Qed.

Lemma in_pixels (i : Z) : (0 <= i <= 1000)%Z -> In i pixels.
Proof.
  intro H. unfold pixels. apply in_map_iff. exists (Z.to_nat i).
  split; [lia|]. apply in_seq. lia.
Qed.

Lemma scenario_lon_eq (i : Z) :
  scenario_lon i
  = add (add scenario_gx (mul scenario_s (of_Z i))) (S754_zero false).
Proof. unfold scenario_lon. reflexivity. Qed.

Lemma scenario_lat_eq (j : Z) :
  scenario_lat j
  = add (add scenario_gy (S754_zero false)) (mul (neg scenario_s) (of_Z j)).
Proof. unfold scenario_lat. reflexivity. Qed.

Lemma scenario_px_eq (i : Z) :
  scenario_px i
  = add (add scenario_a (mul scenario_b (scenario_lon i))) (S754_zero false).
Proof. unfold scenario_px. reflexivity. Qed.

Lemma scenario_py_eq (j : Z) :
  scenario_py j
  = add (add scenario_c (S754_zero true)) (mul scenario_d (scenario_lat j)).
Proof. unfold scenario_py. reflexivity. Qed.

(** The round trip when the four products by the zero coefficients of
    the matrices are known. *)
Lemma round_trip_zero_products (gx gy sx sy px py lon lat z1 z2 z3 z4 : number) :
  mul (of_Z 0) py = z1 -> mul (of_Z 0) px = z2 ->
  add (add gx (mul sx px)) z1 = lon ->
  add (add gy z2) (mul (neg sy) py) = lat ->
  mul (of_Z 0) lat = z3 -> mul (of_Z 0) lon = z4 ->
  round_trip (VNumber gx) (VNumber gy) (VNumber sx) (VNumber sy)
             (VNumber px) (VNumber py)
  = [VNumber (add (add (div (neg gx) sx) (mul (div (of_Z 1) sx) lon)) z3);
     VNumber (add (add (div (neg gy) (neg sy)) z4)
                  (mul (div (of_Z 1) (neg sy)) lat))].
Proof. intros <- <- <- <- <- <-. reflexivity. Qed.

(** On the end-to-end dataset, every integer pixel of the extent comes
    back within 1e-6 in binary64. *)
Lemma scenario_round_trip (i j : Z) :
  (0 <= i <= 1000)%Z -> (0 <= j <= 1000)%Z ->
  exists x y,
    round_trip (int (-100)) (int 40) (dec 1 2) (dec 1 2) (int i) (int j)
    = [VNumber x; VNumber y]
    /\ within (decimal 1 6) x (of_Z i) = true
    /\ within (decimal 1 6) y (of_Z j) = true.
Proof.
  intros Hi Hj. apply in_pixels in Hi, Hj.
  pose proof (proj1 (forallb_forall _ _) zero_times_pixel i Hi) as Hi0.
  pose proof (proj1 (forallb_forall _ _) zero_times_pixel j Hj) as Hj0.
  pose proof (proj1 (forallb_forall _ _) zero_times_lat j Hj) as Hlat.
  pose proof (proj1 (forallb_forall _ _) zero_times_lon i Hi) as Hlon.
  pose proof (proj1 (forallb_forall _ _) scenario_px_close i Hi) as Hpx.
  pose proof (proj1 (forallb_forall _ _) scenario_py_close j Hj) as Hpy.
  cbv beta in Hi0, Hj0, Hlat, Hlon, Hpx, Hpy.
  apply is_zero_signed_eq in Hi0, Hj0, Hlon, Hlat.
  rewrite scenario_px_eq in Hpx. rewrite scenario_py_eq in Hpy.
  destruct scenario_numbers as (-> & -> & ->).
  destruct scenario_coefficients as (Ha & Hb & Hc & Hd).
  pose proof (@round_trip_zero_products
                scenario_gx scenario_gy scenario_s scenario_s
                (of_Z i) (of_Z j) (scenario_lon i) (scenario_lat j)
                (S754_zero false) (S754_zero false) (S754_zero false) (S754_zero true)
                Hj0 Hi0 (eq_sym (scenario_lon_eq i)) (eq_sym (scenario_lat_eq j))
                Hlat Hlon) as Hrt.
  rewrite Ha, Hb, Hc, Hd in Hrt.
  do 2 eexists. split; [exact Hrt|]. split; [exact Hpx | exact Hpy].
Qed.

(** ** Raster ingestion *)

Lemma div_by_zero_not_finite (x y : number) :
  isZero y = true -> isFinite (div x y) = false.
Proof.
  destruct y; try discriminate. intros _. destruct x; reflexivity.
Qed.

Lemma neg_zero (y : number) : isZero y = true -> isZero (neg y) = true.
Proof. destruct y; try discriminate. reflexivity. Qed.

(** Both tags present: the destructuring and the derivation of the two
    matrices go through, and the run ends as [getBoundingBox] does. *)
Lemma ingest_tags_present (asset : GeoTIFF) (image : GeoTIFFImage)
    (s t : list number) (random1 random2 : number) :
  getImage asset = Normal image ->
  ModelPixelScale image = Some s ->
  ModelTiepoint image = Some t ->
  let gx := at_index (map VNumber t) 3 in
  let gy := at_index (map VNumber t) 4 in
  let sy := js_neg (scale_y s) in
  let r := ingest asset random1 random2 in
  logged_pixelToGPS (console (fst r)) = Some (pixelToGPS gx gy (scale_x s) sy)
  /\ logged_gpsToPixel (console (fst r)) = Some (gpsToPixel gx gy (scale_x s) sy)
  /\ snd r = match getBoundingBox image with
             | Normal _ => Normal tt
             | Throw e => Throw e
             end.
Proof.
  intros Hi Hs Ht. unfold ingest, loadMethaneAssets, bind, await; simpl.
  rewrite Hi, Hs, Ht; simpl.
  destruct (getBoundingBox image); simpl; repeat split.
Qed.

(** C7, as amended: when both tags are present and [sx] (or [sy]) is
    zero, deriving the inverse transform does not fail: the matrix is
    built and logged, and its coefficients [-gx / sx] and [1 / sx] (or
    [-gy / sy] and [1 / sy]) are infinite or NaN; the run then ends as
    [getBoundingBox] does, and no exception of the derivation exists. *)
Theorem degenerate_scale_gives_non_finite (asset : GeoTIFF) (image : GeoTIFFImage)
    (s t : list number) (random1 random2 : number) :
  getImage asset = Normal image ->
  ModelPixelScale image = Some s ->
  ModelTiepoint image = Some t ->
  let r := ingest asset random1 random2 in
  exists M,
    logged_gpsToPixel (console (fst r)) = Some M
    /\ length M = 6%nat
    /\ (isZero (ToNumber (scale_x s)) = true ->
        isFinite (ToNumber (at_index M 0)) = false
        /\ isFinite (ToNumber (at_index M 1)) = false)
    /\ (isZero (ToNumber (scale_y s)) = true ->
        isFinite (ToNumber (at_index M 3)) = false
        /\ isFinite (ToNumber (at_index M 5)) = false)
    /\ snd r = match getBoundingBox image with
               | Normal _ => Normal tt
               | Throw e => Throw e
               end.
Proof.
  intros Hi Hs Ht r.
  destruct (ingest_tags_present asset random1 random2 Hi Hs Ht) as (_ & HM & Hr).
  eexists. split; [exact HM|]. split; [reflexivity|].
  split; [|split; [|exact Hr]]; intro Hz; simpl; split;
    apply div_by_zero_not_finite; auto using neg_zero.
Qed.

Lemma degenerate_scale_gives_non_finite_witness :
  isZero (ToNumber (scale_x [of_Z 0; of_Z 0; of_Z 0])) = true
  /\ isZero (ToNumber (scale_y [of_Z 0; of_Z 0; of_Z 0])) = true
  /\ exists M,
       logged_gpsToPixel (console (fst (ingest degenerate_asset (of_Z 0) (of_Z 0))))
       = Some M
       /\ length M = 6
       /\ (isFinite (ToNumber (at_index M 0)) = false
           /\ isFinite (ToNumber (at_index M 1)) = false)
       /\ (isFinite (ToNumber (at_index M 3)) = false
           /\ isFinite (ToNumber (at_index M 5)) = false)
       /\ snd (ingest degenerate_asset (of_Z 0) (of_Z 0)) = Normal tt.
Proof.
  assert (Hx : isZero (ToNumber (scale_x [of_Z 0; of_Z 0; of_Z 0])) = true)
    by reflexivity.
  assert (Hy : isZero (ToNumber (scale_y [of_Z 0; of_Z 0; of_Z 0])) = true)
    by reflexivity.
  split; [exact Hx|]. split; [exact Hy|].
  destruct (@degenerate_scale_gives_non_finite degenerate_asset degenerate_image
              [of_Z 0; of_Z 0; of_Z 0]
              [of_Z 0; of_Z 0; of_Z 0; of_Z (-100); of_Z 40; of_Z 0]
              (of_Z 0) (of_Z 0) eq_refl eq_refl eq_refl)
    as (M & HM & Hlen & H0 & H3 & Hr).
  exists M. split; [exact HM|]. split; [exact Hlen|].
  split; [exact (H0 Hx)|]. split; [exact (H3 Hy)|]. exact Hr.
Defined.

(** C7, as stated, fails: with [sx = sy = 0] the run ends normally and
    the inverse matrix it logs is
    [[Infinity, Infinity, 0, Infinity, 0, -Infinity]]. *)
Lemma degenerate_scale_counterexample :
  snd (ingest degenerate_asset (of_Z 0) (of_Z 0)) = Normal tt
  /\ logged_gpsToPixel (console (fst (ingest degenerate_asset (of_Z 0) (of_Z 0))))
     = Some [VNumber Infinity; VNumber Infinity; int 0;
             VNumber Infinity; int 0; VNumber (neg Infinity)].
Proof. split; vm_compute; reflexivity. Qed.

(** C8, as amended: no [InvalidMetadata] error exists.  When a tag is
    absent, the destructuring of [undefined] throws a [TypeError] (the
    promise is rejected) before anything is derived; when both tags are
    present, whatever their element counts, nothing fails: slots past the
    end read as [undefined], extra elements are ignored, both matrices
    are derived and logged, and the run ends as [getBoundingBox] does. *)
Theorem malformed_tags_outcome (asset : GeoTIFF) (image : GeoTIFFImage)
    (random1 random2 : number) :
  getImage asset = Normal image ->
  let r := ingest asset random1 random2 in
  match ModelPixelScale image, ModelTiepoint image with
  | Some s, Some t =>
      let gx := at_index (map VNumber t) 3 in
      let gy := at_index (map VNumber t) 4 in
      let sy := js_neg (scale_y s) in
      logged_pixelToGPS (console (fst r)) = Some (pixelToGPS gx gy (scale_x s) sy)
      /\ logged_gpsToPixel (console (fst r)) = Some (gpsToPixel gx gy (scale_x s) sy)
      /\ snd r = match getBoundingBox image with
                 | Normal _ => Normal tt
                 | Throw e => Throw e
                 end
  | _, _ =>
      snd r = Throw TypeError
      /\ logged_pixelToGPS (console (fst r)) = None
      /\ logged_gpsToPixel (console (fst r)) = None
  end.
Proof.
  intros Hi r.
  destruct (ModelPixelScale image) as [s|] eqn:Hs;
    [destruct (ModelTiepoint image) as [t|] eqn:Ht|].
  - exact (ingest_tags_present asset random1 random2 Hi Hs Ht).
  - subst r. unfold ingest, loadMethaneAssets, bind, await; simpl.
    rewrite Hi; simpl. rewrite Hs, Ht; simpl. auto.
  - subst r. unfold ingest, loadMethaneAssets, bind, await; simpl.
    rewrite Hi; simpl. rewrite Hs; simpl. auto.
Qed.

Lemma malformed_tags_outcome_witness :
  let r := ingest {| getImage := Normal untied_image |} (of_Z 0) (of_Z 0) in
  snd r = Throw TypeError
  /\ logged_pixelToGPS (console (fst r)) = None
  /\ logged_gpsToPixel (console (fst r)) = None.
Proof.
  exact (@malformed_tags_outcome {| getImage := Normal untied_image |} untied_image
           (of_Z 0) (of_Z 0) eq_refl).
Defined.

(** C8, as stated, fails: a pixel scale of two elements (a wrong element
    count) is ingested without any error, and the forward matrix derived
    is that of the well-formed dataset. *)
Lemma short_scale_counterexample :
  ModelPixelScale short_scale_image = Some [decimal 1 2; decimal 1 2]
  /\ snd (ingest {| getImage := Normal short_scale_image |} (of_Z 0) (of_Z 0)) = Normal tt
  /\ logged_pixelToGPS
       (console (fst (ingest {| getImage := Normal short_scale_image |} (of_Z 0) (of_Z 0))))
     = Some (pixelToGPS (int (-100)) (int 40) (dec 1 2) (js_neg (dec 1 2))).
Proof. repeat split. Qed.

(** ** The store *)

Lemma length_update (h : store) (r : ref) (f : object3D -> object3D) :
  length (update h r f) = length h.
Proof.
  revert r. induction h as [|o h IH]; intros [|r]; simpl; auto.
Qed.

Lemma nth_error_update_same (h : store) (r : ref) (f : object3D -> object3D) :
  nth_error (update h r f) r = option_map f (nth_error h r).
Proof.
  revert r. induction h as [|o h IH]; intros [|r]; simpl; auto.
Qed.

Lemma nth_error_update_other (h : store) (r r' : ref) (f : object3D -> object3D) :
  r <> r' -> nth_error (update h r f) r' = nth_error h r'.
Proof.
  revert r r'. induction h as [|o h IH]; intros [|r] [|r'] Hne; simpl; auto;
    try congruence.
Qed.

Lemma update_app (h h' : store) (r : ref) (f : object3D -> object3D) :
  (r < length h)%nat -> update (h ++ h') r f = update h r f ++ h'.
Proof.
  revert r. induction h as [|o h IH]; intros [|r] Hlt; simpl in *; try lia; auto.
  f_equal. apply IH. lia.
Qed.

Lemma mesh_at_app (h h' : store) (r : ref) :
  (r < length h)%nat -> mesh_at (h ++ h') r = mesh_at h r.
Proof.
  intro Hlt. unfold mesh_at. now rewrite nth_error_app1.
Qed.

Lemma meshes_of_app (h h' : store) (children : list ref) :
  Forall (fun r => r < length h)%nat children ->
  meshes_of (h ++ h') children = meshes_of h children.
Proof.
  induction 1 as [|r rs Hr _ IH]; simpl; [reflexivity|].
  rewrite (mesh_at_app h h' Hr), IH. reflexivity.
Qed.

Lemma mesh_at_update_other (h : store) (r r' : ref) (f : object3D -> object3D) :
  r <> r' -> mesh_at (update h r f) r' = mesh_at h r'.
Proof.
  intro Hne. unfold mesh_at. now rewrite nth_error_update_other.
Qed.

Lemma mesh_at_set_visible (h : store) (r r' : ref) (b : bool) :
  mesh_at (update h r (set_visible b)) r'
  = if Nat.eqb r r' then option_map (with_visible b) (mesh_at h r') else mesh_at h r'.
Proof.
  destruct (Nat.eqb_spec r r') as [<-|Hne].
  - unfold mesh_at. rewrite nth_error_update_same.
    destruct (nth_error h r) as [[| | |m']|]; reflexivity.
  - now apply mesh_at_update_other.
Qed.

Lemma meshes_of_set_visible (h : store) (r : ref) (b : bool) (children : list ref) :
  map fst (meshes_of (update h r (set_visible b)) children)
  = map fst (meshes_of h children).
Proof.
  induction children as [|c cs IH]; simpl; [reflexivity|].
  rewrite mesh_at_set_visible.
  destruct (Nat.eqb r c), (mesh_at h c); simpl; now rewrite ?IH.
Qed.

Lemma set_aspect_keeps_meshes (a : number) : keeps_meshes (set_aspect a).
Proof. intros [| | |m]; simpl; auto. Qed.

Lemma updateProjectionMatrix_keeps_meshes : keeps_meshes updateProjectionMatrix.
Proof. intros [| | |m]; simpl; auto. Qed.

Lemma mesh_at_keeps (h : store) (r r' : ref) (f : object3D -> object3D) :
  keeps_meshes f -> mesh_at (update h r f) r' = mesh_at h r'.
Proof.
  intro Hf. destruct (Nat.eq_dec r r') as [<-|Hne].
  - unfold mesh_at. rewrite nth_error_update_same.
    destruct (nth_error h r) as [o|]; simpl; [|reflexivity].
    specialize (Hf o). destruct o; simpl in *; try (destruct (f _); tauto).
    now rewrite Hf.
  - now apply mesh_at_update_other.
Qed.

Lemma meshes_of_keeps (h : store) (r : ref) (f : object3D -> object3D)
    (children : list ref) :
  keeps_meshes f -> meshes_of (update h r f) children = meshes_of h children.
Proof.
  intro Hf. induction children as [|c cs IH]; simpl; [reflexivity|].
  now rewrite (mesh_at_keeps h r c Hf), IH.
Qed.

(** ** States of the constructed object *)

(** Construction always succeeds. *)
Lemma constructor_total (d : Device) (now : number) :
  exists this, constructor d now = Normal this /\ constructed d this 2%nat 5%nat.
Proof.
  evaluate. eexists. split; [reflexivity|].
  split; evaluate; try reflexivity; try (eexists; reflexivity). discriminate.
Qed.

(** What a tick does to an object whose two mesh fields are set. *)
Lemma render_effect (this : Three) (p m : ref) (now : number) :
  planeMesh this = Some p -> methaneMesh this = Some m ->
  exists this',
    render now this = Normal this'
    /\ objects this' = synced this p m
    /\ clock this' = snd (getElapsedTime now (clock this))
    /\ renderer this'
       = renderer_render (synced this p m) (scene this) (renderer this)
    /\ animationFrames this' = S (animationFrames this)
    /\ device this' = device this /\ scene this' = scene this
    /\ camera this' = camera this /\ gui this' = gui this
    /\ earthtex this' = earthtex this
    /\ scaleX this' = scaleX this /\ scaleY this' = scaleY this
    /\ scaleZ this' = scaleZ this /\ layers this' = layers this
    /\ planeMesh this' = Some p /\ methaneMesh this' = Some m
    /\ ambientLight this' = ambientLight this
    /\ methaneTexture this' = methaneTexture this
    /\ resizeListeners this' = resizeListeners this.
Proof.
  intros Hp Hm. destruct this; simpl in *; subst.
  unfold render, synced; simpl.
  destruct (getElapsedTime now clock0) as [e c] eqn:Hc; simpl.
  eexists. split; [reflexivity|]. simpl. repeat split; reflexivity.
Qed.

Lemma synced_mesh_plane (this : Three) (p m : ref) (mp : Mesh) :
  p <> m -> mesh_at (objects this) p = Some mp ->
  mesh_at (synced this p m) p = Some (with_visible (earth (layers this)) mp).
Proof.
  intros Hne Hp. unfold synced.
  rewrite mesh_at_update_other by auto.
  rewrite mesh_at_set_visible, Nat.eqb_refl, Hp. reflexivity.
Qed.

Lemma synced_mesh_methane (this : Three) (p m : ref) (mm : Mesh) :
  p <> m -> mesh_at (objects this) m = Some mm ->
  mesh_at (synced this p m) m = Some (with_visible (methane (layers this)) mm).
Proof.
  intros Hne Hm. unfold synced.
  rewrite mesh_at_set_visible, Nat.eqb_refl.
  rewrite mesh_at_update_other by auto. rewrite Hm. reflexivity.
Qed.

Lemma synced_other (this : Three) (p m r : ref) :
  r <> p -> r <> m -> nth_error (synced this p m) r = nth_error (objects this) r.
Proof.
  intros Hp Hm. unfold synced.
  rewrite !nth_error_update_other by auto. reflexivity.
Qed.

Lemma synced_scene (this : Three) (p m : ref) :
  map fst (meshes_of (synced this p m) (scene this))
  = map fst (meshes_of (objects this) (scene this)).
Proof. unfold synced. now rewrite !meshes_of_set_visible. Qed.

Lemma render_constructed (d : Device) (this : Three) (p m : ref) (now : number) :
  constructed d this p m ->
  exists this', render now this = Normal this' /\ constructed d this' p m.
Proof.
  intros [Hp Hm Hne [mp Hmp] [mm Hmm] Hsc Hcam Hgui Hdev Hr].
  destruct (render_effect this now Hp Hm)
    as (this' & Hrun & Ho & _ & Hrd & _ & Hd & Hs & Hc & Hg & _ & _ & _ & _ & _
        & Hp' & Hm' & _).
  exists this'. split; [exact Hrun|].
  split.
  - exact Hp'.
  - exact Hm'.
  - exact Hne.
  - rewrite Ho. eexists. eapply synced_mesh_plane; eassumption.
  - rewrite Ho. eexists. eapply synced_mesh_methane; eassumption.
  - rewrite Ho, Hs, synced_scene. exact Hsc.
  - rewrite Hc. exact Hcam.
  - congruence.
  - congruence.
  - rewrite Hrd. exact Hr.
Qed.

Lemma onResize_constructed (d : Device) (this : Three) (p m : ref) (w : Window) :
  constructed d this p m ->
  exists this', onResize w this = Normal this' /\ constructed d this' p m
    /\ pixelRatio (renderer this')
       = Math_min (devicePixelRatio (device this)) (of_Z 2).
Proof.
  intros [Hp Hm Hne [mp Hmp] [mm Hmm] Hsc [c Hcam] Hgui Hdev Hr].
  destruct this; simpl in *; subst.
  unfold onResize; simpl.
  eexists. split; [reflexivity|]. split; [|reflexivity].
  split; simpl; auto.
  - exists mp. rewrite !mesh_at_keeps;
      auto using set_aspect_keeps_meshes, updateProjectionMatrix_keeps_meshes.
  - exists mm. rewrite !mesh_at_keeps;
      auto using set_aspect_keeps_meshes, updateProjectionMatrix_keeps_meshes.
  - rewrite !meshes_of_keeps;
      auto using set_aspect_keeps_meshes, updateProjectionMatrix_keeps_meshes.
  - eauto.
  - now rewrite Hdev.
Qed.

Lemma setValue_constructed (d : Device) (this : Three) (p m : ref)
    (c : controller) (i : input) :
  constructed d this p m -> constructed d (setValue c i this) p m.
Proof.
  intros [Hp Hm Hne Hmp Hmm Hsc Hcam Hgui Hdev Hr].
  destruct this; simpl in *.
  destruct c as [[| |] lo hi|l], i as [v|b]; simpl; split; simpl; auto.
Qed.

Lemma handle_constructed (d : Device) (this : Three) (p m : ref) (e : event) :
  constructed d this p m ->
  exists this', handle e this = Normal this' /\ constructed d this' p m.
Proof.
  intro Hc. destruct e as [now|w|c i]; simpl.
  - now apply render_constructed.
  - destruct (onResize_constructed w Hc) as (this' & H1 & H2 & _). eauto.
  - destruct (nth_error (gui this) c); eauto using setValue_constructed.
Qed.

(** No sequence of callbacks fails, and all keep the construction. *)
Lemma run_constructed (d : Device) (es : list event) (this : Three) (p m : ref) :
  constructed d this p m ->
  exists this', run es this = Normal this' /\ constructed d this' p m.
Proof.
  revert this. induction es as [|e es IH]; intros this Hc; simpl.
  - eauto.
  - destruct (handle_constructed e Hc) as (this1 & -> & Hc1). now apply IH.
Qed.

Lemma reachable_constructed (d : Device) (this : Three) :
  reachable d this -> constructed d this 2%nat 5%nat.
Proof.
  intros (now & es & this0 & H0 & Hrun).
  destruct (constructor_total d now) as (this0' & H0' & Hc).
  rewrite H0 in H0'. injection H0' as <-.
  destruct (run_constructed es Hc) as (this' & Hrun' & Hc').
  rewrite Hrun in Hrun'. now injection Hrun' as <-.
Qed.

Lemma reachable_handle (d : Device) (this this' : Three) (e : event) :
  reachable d this -> handle e this = Normal this' -> reachable d this'.
Proof.
  intros (now & es & this0 & H0 & Hrun) He.
  exists now, (es ++ [e]), this0. split; [exact H0|].
  clear H0. revert this0 Hrun. induction es as [|e' es IH]; intros this0 Hrun; simpl in *.
  - injection Hrun as ->. now rewrite He.
  - destruct (handle e' this0); [now apply IH | discriminate].
Qed.

(** ** Layer visibility *)

Lemma checkbox_panel (l : layer) :
  nth_error panel (checkbox l) = Some (BooleanController l).
Proof. destruct l; reflexivity. Qed.

Lemma visibility_after_tick (d : Device) (this : Three) (p m : ref) (now : number) :
  constructed d this p m ->
  exists this',
    render now this = Normal this'
    /\ constructed d this' p m
    /\ visible_at this' p = Some (earth (layers this))
    /\ visible_at this' m = Some (methane (layers this))
    /\ (forall r, r <> p -> r <> m ->
        nth_error (objects this') r = nth_error (objects this) r)
    /\ layers this' = layers this.
Proof.
  intro Hc. destruct (render_constructed now Hc) as (this' & Hrun & Hc').
  exists this'. split; [exact Hrun|]. split; [exact Hc'|].
  destruct Hc as [Hp Hm Hne [mp Hmp] [mm Hmm] _ _ _ _ _].
  destruct (render_effect this now Hp Hm) as (this1 & Hrun1 & Ho & Hrest).
  rewrite Hrun in Hrun1. injection Hrun1 as <-.
  unfold visible_at. rewrite Ho.
  rewrite (synced_mesh_plane this Hne Hmp), (synced_mesh_methane this Hne Hmm).
  repeat split; try reflexivity.
  - intros r Hrp Hrm. now apply synced_other.
  - tauto.
Qed.

(** C3, as amended: the scene holds exactly two meshes, the one of the
    field [planeMesh] for the layer [earth] and the one of [methaneMesh]
    for the layer [methane], and none for [cow] and [someCrop].  Each
    tick sets the [visible] flag of these two meshes from [layers.earth]
    and [layers.methane] and touches no other object; setting one layer
    from the panel and ticking changes the flag of the mesh of that
    layer only (no flag at all for [cow] and [someCrop]). *)
Theorem visibility_sync (d : Device) (this : Three) (now : number) :
  reachable d this ->
  exists p m,
    planeMesh this = Some p /\ methaneMesh this = Some m /\ p <> m
    /\ map fst (meshes_of (objects this) (scene this)) = [p; m]
    /\ (exists this',
          render now this = Normal this'
          /\ map fst (meshes_of (objects this') (scene this')) = [p; m]
          /\ visible_at this' p = Some (earth (layers this))
          /\ visible_at this' m = Some (methane (layers this))
          /\ (forall r, r <> p -> r <> m ->
              nth_error (objects this') r = nth_error (objects this) r))
    /\ (forall (l : layer) (b : bool),
          exists this',
            run [PanelInput (checkbox l) (BooleanInput b); AnimationFrame now] this
            = Normal this'
            /\ visible_at this' p
               = Some (match l with Earth => b | _ => earth (layers this) end)
            /\ visible_at this' m
               = Some (match l with Methane => b | _ => methane (layers this) end)
            /\ (forall r, r <> p -> r <> m ->
                nth_error (objects this') r = nth_error (objects this) r)).
Proof.
  intro Hr. apply reachable_constructed in Hr.
  exists 2%nat, 5%nat.
  destruct Hr as [Hp Hm Hne Hmp Hmm Hsc Hcam Hgui Hdev Hrt] eqn:E. clear E.
  assert (Hc : constructed d this 2 5) by (split; assumption).
  repeat (split; [assumption|]). split.
  - destruct (visibility_after_tick now Hc) as (this' & Hrun & Hc' & Hv).
    exists this'. split; [exact Hrun|]. split; [apply Hc'|]. tauto.
  - intros l b. simpl. rewrite Hgui, checkbox_panel.
    pose proof (setValue_constructed (BooleanController l) (BooleanInput b) Hc) as Hc1.
    destruct (visibility_after_tick now Hc1) as (this' & Hrun & _ & Hv1 & Hv2 & Ho & _).
    rewrite Hrun. exists this'. split; [reflexivity|].
    rewrite Hv1, Hv2. destruct this, l; simpl in *; auto.
Qed.

Lemma scenario_reachable : reachable (load_device scenario_window) scenario_three.
Proof.
  exists (of_Z 0), [], scenario_three. split; [vm_compute|]; reflexivity.
Qed.

Lemma visibility_sync_witness :
  reachable (load_device scenario_window) scenario_three
  /\ exists p m,
    planeMesh scenario_three = Some p /\ methaneMesh scenario_three = Some m /\ p <> m
    /\ map fst (meshes_of (objects scenario_three) (scene scenario_three)) = [p; m]
    /\ (exists this',
          render (of_Z 16) scenario_three = Normal this'
          /\ map fst (meshes_of (objects this') (scene this')) = [p; m]
          /\ visible_at this' p = Some (earth (layers scenario_three))
          /\ visible_at this' m = Some (methane (layers scenario_three))
          /\ (forall r, r <> p -> r <> m ->
              nth_error (objects this') r = nth_error (objects scenario_three) r))
    /\ (forall (l : layer) (b : bool),
          exists this',
            run [PanelInput (checkbox l) (BooleanInput b); AnimationFrame (of_Z 16)]
                scenario_three
            = Normal this'
            /\ visible_at this' p
               = Some (match l with Earth => b | _ => earth (layers scenario_three) end)
            /\ visible_at this' m
               = Some (match l with Methane => b | _ => methane (layers scenario_three) end)
            /\ (forall r, r <> p -> r <> m ->
                nth_error (objects this') r = nth_error (objects scenario_three) r)).
Proof.
  split; [exact scenario_reachable|].
  exact (@visibility_sync (load_device scenario_window) scenario_three (of_Z 16)
           scenario_reachable).
Defined.

(** C3, as stated, fails: with the layers [methane: true, cow: false],
    after a tick the scene holds two meshes for the four declared layers,
    and no mesh has its [visible] flag false. *)
Lemma no_cow_mesh_counterexample :
  exists this',
    run [PanelInput (checkbox Cow) (BooleanInput false); AnimationFrame (of_Z 16)]
        scenario_three = Normal this'
    /\ methane (layers this') = true /\ cow (layers this') = false
    /\ length declared_layers = 4
    /\ length (meshes_of (objects this') (scene this')) = 2
    /\ forallb (fun rm => visible (snd rm)) (meshes_of (objects this') (scene this'))
       = true.
Proof. eexists. split; [vm_compute; reflexivity|]. vm_compute. repeat split. Qed.

(** ** Noninterference of the unused layers *)

(** C10: two ticks started from objects that differ only in
    [layers.cow] and [layers.someCrop] end alike: both complete or both
    throw the same exception, what they write is identical, the objects
    they leave are equal in every field except those two flags, and the
    tick leaves the layers as they were. *)
Theorem render_ignores_cow_someCrop (now : number) (a b : Three) :
  without_cow_someCrop a = without_cow_someCrop b ->
  same_completion (render now a) (render now b)
  /\ written (render now a) = written (render now b)
  /\ (layers_after (render now a) = Some (layers a)
      \/ layers_after (render now a) = None).
Proof.
  intro H. destruct a, b. unfold without_cow_someCrop in H; simpl in H.
  injection H as -> -> -> -> -> -> -> -> -> -> -> He Hm -> -> -> -> -> ->.
  destruct layers0 as [e1 m1 c1 s1], layers1 as [e2 m2 c2 s2]; simpl in *; subst.
  unfold render, same_completion, without_cow_someCrop; simpl.
  destruct (getElapsedTime now clock1) as [t c]; simpl.
  destruct planeMesh1 as [p|], methaneMesh1 as [m|]; simpl; auto.
Qed.

Lemma render_ignores_cow_someCrop_witness :
  without_cow_someCrop scenario_three = without_cow_someCrop scenario_three_no_cow
  /\ same_completion (render (of_Z 16) scenario_three)
                     (render (of_Z 16) scenario_three_no_cow)
  /\ written (render (of_Z 16) scenario_three)
     = written (render (of_Z 16) scenario_three_no_cow)
  /\ (layers_after (render (of_Z 16) scenario_three) = Some (layers scenario_three)
      \/ layers_after (render (of_Z 16) scenario_three) = None).
Proof.
  assert (H : without_cow_someCrop scenario_three
              = without_cow_someCrop scenario_three_no_cow)
    by (vm_compute; reflexivity).
  split; [exact H|].
  exact (@render_ignores_cow_someCrop (of_Z 16) scenario_three scenario_three_no_cow H).
Defined.

(** ** Texture synthesis *)

Lemma shown_app (h h' : store) (children : list ref) :
  Forall (fun r => r < length h) children ->
  shown (h ++ h') children = shown h children.
Proof. intro H. unfold shown. now rewrite meshes_of_app. Qed.

Lemma tick_draw_spec (now : number) (this : Three) (p m : ref) :
  planeMesh this = Some p -> methaneMesh this = Some m ->
  tick_draw now this
  = Some (Draw (currentRenderTarget (renderer this))
               (shown (synced this p m) (scene this))).
Proof.
  intros Hp Hm. unfold tick_draw.
  destruct (render_effect this now Hp Hm) as (this' & -> & _ & _ & -> & _).
  unfold renderer_render, issue; simpl. now rewrite last_last.
Qed.

Lemma tick_draw_extended (now : number) (this : Three) (extra : store)
    (rd : WebGLRenderer) :
  refs_in_store this = true ->
  currentRenderTarget rd = currentRenderTarget (renderer this) ->
  tick_draw now (set_renderer rd (set_objects (objects this ++ extra) this))
  = tick_draw now this.
Proof.
  intros Hrefs Hrd. unfold refs_in_store in Hrefs.
  rewrite forallb_forall in Hrefs.
  assert (Hin : forall r,
             In r (scene this ++ option_list (planeMesh this)
                   ++ option_list (methaneMesh this)) ->
             r < length (objects this)).
  { intros r Hr. apply Nat.ltb_lt. now apply Hrefs. }
  destruct (planeMesh this) as [p|] eqn:Hp.
  - destruct (methaneMesh this) as [m|] eqn:Hm.
    + rewrite (tick_draw_spec now this Hp Hm).
      rewrite (@tick_draw_spec now _ p m)
        by (destruct this; simpl in *; assumption).
      assert (Hpl : p < length (objects this))
        by (apply Hin; rewrite !in_app_iff; simpl; auto).
      assert (Hml : m < length (objects this))
        by (apply Hin; rewrite !in_app_iff; simpl; auto).
      assert (Hsc : Forall (fun r => r < length (objects this)) (scene this)).
      { apply Forall_forall. intros r Hr. apply Hin. rewrite in_app_iff. auto. }
      destruct this; simpl in *. rewrite Hrd. f_equal. f_equal.
      unfold synced; simpl.
      rewrite update_app by assumption.
      rewrite update_app by (now rewrite length_update).
      apply shown_app. now rewrite !length_update.
    + unfold tick_draw, render. destruct this; simpl in *. subst.
      destruct (getElapsedTime now clock0); reflexivity.
  - unfold tick_draw, render. destruct this; simpl in *. subst.
    destruct (getElapsedTime now clock0); reflexivity.
Qed.

(** C9: after [generateTexture], in the variant of three.js and in the
    older one, the renderer's current render target is the one it had
    before the call; and when the references of the object are valid, the
    draw of the next tick (its target and the meshes it shows) is the one
    the tick would have issued without the synthesis. *)
Theorem generateTexture_restores_target (this : Three) :
  getRenderTarget (renderer (snd (generateTexture this)))
  = getRenderTarget (renderer this)
  /\ getRenderTarget (renderer (snd (generateTexture_legacy this)))
     = getRenderTarget (renderer this)
  /\ (refs_in_store this = true ->
      forall now,
        tick_draw now (snd (generateTexture this)) = tick_draw now this
        /\ tick_draw now (snd (generateTexture_legacy this)) = tick_draw now this).
Proof.
  split; [reflexivity|]. split; [reflexivity|].
  intros Hrefs now. split.
  - unfold generateTexture, alloc; simpl. rewrite <- app_assoc.
    now apply tick_draw_extended.
  - unfold generateTexture_legacy, alloc; simpl.
    now apply tick_draw_extended.
Qed.

Lemma generateTexture_restores_target_witness :
  refs_in_store scenario_three = true
  /\ getRenderTarget (renderer (snd (generateTexture scenario_three)))
     = getRenderTarget (renderer scenario_three)
  /\ getRenderTarget (renderer (snd (generateTexture_legacy scenario_three)))
     = getRenderTarget (renderer scenario_three)
  /\ (forall now,
        tick_draw now (snd (generateTexture scenario_three))
        = tick_draw now scenario_three
        /\ tick_draw now (snd (generateTexture_legacy scenario_three))
           = tick_draw now scenario_three).
Proof.
  assert (H : refs_in_store scenario_three = true) by (vm_compute; reflexivity).
  destruct (generateTexture_restores_target scenario_three) as (H1 & H2 & H3).
  split; [exact H|]. split; [exact H1|]. split; [exact H2|]. exact (H3 H).
Defined.

(** ** Pixel ratio *)




(** ** Scale factors *)

Lemma bounded_value_in_range (lo hi v : number) :
  isNaN lo = false -> isNaN hi = false -> le lo hi = true ->
  isNaN v = false ->
  le lo (bounded_value lo hi v) = true /\ le (bounded_value lo hi v) hi = true.
Proof.
  intros Hlo Hhi Hle Hv. unfold bounded_value.
  destruct (lt v lo) eqn:E1; [auto using le_refl|].
  destruct (gt v hi) eqn:E2; [auto using le_refl|].
  split.
  - now apply not_lt_le.
  - unfold gt in E2. fold (lt hi v) in E2. now apply not_lt_le.
Qed.

Lemma bounded_value_cases (lo hi v : number) :
  bounded_value lo hi v = v \/ bounded_value lo hi v = lo
  \/ bounded_value lo hi v = hi.
Proof.
  unfold bounded_value. destruct (lt v lo), (gt v hi); auto.
Qed.

Lemma get_set_scale (p : scale) (v : number) (this : Three) :
  get_scale p (set_scale p v this) = v.
Proof. destruct p, this; reflexivity. Qed.

Lemma bounded_value_unchanged (lo hi v : number) :
  le lo v = true -> le v hi = true -> bounded_value lo hi v = v.
Proof.
  unfold bounded_value, le, lt, gt, SFleb, SFltb. intros H1 H2.
  rewrite (SFcompare_antisym lo v), (SFcompare_antisym v hi).
  destruct (SFcompare lo v) as [[| |]|]; try discriminate;
    destruct (SFcompare v hi) as [[| |]|]; try discriminate; reflexivity.
Qed.

Lemma scale_input_effect (d : Device) (this : Three) (p : scale) (v : number) :
  reachable d this ->
  scale_input p v this
  = Normal (set_scale p (bounded_value (decimal 1 1) (of_Z 5) v) this).
Proof.
  intro Hr. unfold scale_input; simpl.
  rewrite (c_gui (reachable_constructed Hr)). destruct p; reflexivity.
Qed.

(** C4: in every state of the constructed object, a number [v] given to
    the controller of a scale factor is never rejected: the callback
    completes and stores [v] clamped to the configured range [0.1, 5],
    that is a value within [0.1, 5] which is [v], 0.1 or 5, and [v]
    itself when [v] is within the range.  Given 10 the value stored is
    5, and given 0.01 it is 0.1. *)
Theorem scale_clamp (d : Device) (this : Three) (p : scale) (v : number) :
  reachable d this ->
  isNaN v = false ->
  (exists x,
     scale_after p (scale_input p v this) = Some x
     /\ le (decimal 1 1) x = true /\ le x (of_Z 5) = true
     /\ (x = v \/ x = decimal 1 1 \/ x = of_Z 5)
     /\ (le (decimal 1 1) v && le v (of_Z 5) = true -> x = v))
  /\ scale_after p (scale_input p (of_Z 10) this) = Some (of_Z 5)
  /\ scale_after p (scale_input p (decimal 1 2) this) = Some (decimal 1 1).
Proof.
  intros Hr Hv. rewrite !(scale_input_effect p _ Hr). simpl.
  rewrite !get_set_scale. split; [|split; vm_compute; reflexivity].
  eexists. split; [reflexivity|].
  assert (Hrange : le (decimal 1 1) (of_Z 5) = true) by (vm_compute; reflexivity).
  destruct (@bounded_value_in_range (decimal 1 1) (of_Z 5) v) as [H1 H2];
    try assumption; try reflexivity.
  split; [exact H1|]. split; [exact H2|]. split; [apply bounded_value_cases|].
  intro Hin. apply andb_prop in Hin. destruct Hin.
  now apply bounded_value_unchanged.
Qed.

Lemma scale_clamp_witness :
  reachable (load_device scenario_window) scenario_three
  /\ isNaN (of_Z 2) = false
  /\ le (decimal 1 1) (of_Z 2) && le (of_Z 2) (of_Z 5) = true
  /\ scale_after ScaleX (scale_input ScaleX (of_Z 2) scenario_three) = Some (of_Z 2)
  /\ scale_after ScaleX (scale_input ScaleX (of_Z 10) scenario_three) = Some (of_Z 5)
  /\ scale_after ScaleX (scale_input ScaleX (decimal 1 2) scenario_three)
     = Some (decimal 1 1).
Proof.
  assert (Hn : isNaN (of_Z 2) = false) by reflexivity.
  assert (Hin : le (decimal 1 1) (of_Z 2) && le (of_Z 2) (of_Z 5) = true)
    by (vm_compute; reflexivity).
  destruct (@scale_clamp (load_device scenario_window) scenario_three ScaleX (of_Z 2)
              scenario_reachable Hn) as ((x & Hx & _ & _ & _ & Hid) & H10 & H001).
  split; [exact scenario_reachable|]. split; [exact Hn|]. split; [exact Hin|].
  split; [|split; [exact H10 | exact H001]].
  rewrite Hx. f_equal. exact (Hid Hin).
Defined.

(** * Further properties of the code *)

(** ** NaN in arithmetic *)

Lemma add_NaN_r (x : number) : add x NaN = NaN.
Proof. destruct x; reflexivity. Qed.

Lemma add_NaN_l (x : number) : add NaN x = NaN.
Proof. destruct x; reflexivity. Qed.

Lemma mul_NaN_r (x : number) : mul x NaN = NaN.
Proof. destruct x; reflexivity. Qed.

Lemma mul_NaN_l (x : number) : mul NaN x = NaN.
Proof. destruct x; reflexivity. Qed.

Lemma lerp_undefined_r (a t : value) : lerp a VUndefined t = VNumber NaN.
Proof.
  unfold lerp, js_add, js_mul. cbn [ToNumber].
  now rewrite mul_NaN_r, add_NaN_r.
Qed.

Lemma lerp_undefined_l (b t : value) : lerp VUndefined b t = VNumber NaN.
Proof.
  unfold lerp, js_add, js_mul. cbn [ToNumber].
  now rewrite mul_NaN_r, add_NaN_l.
Qed.

(** ** Further properties of the ingestion *)

(** X1: a failure of the library is never masked.  When [fromUrl]
    rejects, [loadMethaneAssets] rejects with the same error and leaves
    the [testasset] field and the console as they were; when [getImage]
    rejects, it rejects with that error after it has stored the asset and
    logged it, and nothing else; and once the file is fetched the asset is
    stored whatever happens afterwards. *)
Theorem ingestion_failure_propagates (fromUrl : completion GeoTIFF)
    (random1 random2 : number) (st : ingest_state) :
  let r := loadMethaneAssets fromUrl random1 random2 st in
  match fromUrl with
  | Throw e => r = (st, Throw e)
  | Normal asset =>
      testasset (fst r) = Some asset
      /\ match getImage asset with
         | Throw e =>
             r = ({| testasset := Some asset;
                     console := console st ++ [LogAsset asset] |}, Throw e)
         | Normal image =>
             match ModelPixelScale image, ModelTiepoint image, getBoundingBox image with
             | Some _, Some _, Throw e => snd r = Throw e
             | _, _, _ => True
             end
         end
  end.
Proof.
  destruct fromUrl as [asset|e]; [|reflexivity].
  unfold loadMethaneAssets, bind, await; simpl.
  destruct (getImage asset) as [image|e]; simpl; [|split; reflexivity].
  destruct (ModelPixelScale image) as [s|]; simpl; [|split; reflexivity].
  destruct (ModelTiepoint image) as [t|]; simpl; [|split; reflexivity].
  destruct (getBoundingBox image); simpl; split; reflexivity.
Qed.

(** X2: the matrices depend on the first two components of the pixel
    scale and on the geographic anchor of the tie point only: the pixel
    anchor [(px, py, k)] of the tie point and the third components are
    read and never used. *)
Theorem ingestion_ignores_pixel_anchor (asset asset' : GeoTIFF)
    (image image' : GeoTIFFImage) (s s' t t' : list number)
    (random1 random2 random1' random2' : number) :
  getImage asset = Normal image -> getImage asset' = Normal image' ->
  ModelPixelScale image = Some s -> ModelPixelScale image' = Some s' ->
  ModelTiepoint image = Some t -> ModelTiepoint image' = Some t' ->
  firstn 2 s = firstn 2 s' ->
  firstn 2 (skipn 3 t) = firstn 2 (skipn 3 t') ->
  let r := ingest asset random1 random2 in
  let r' := ingest asset' random1' random2' in
  logged_pixelToGPS (console (fst r)) = logged_pixelToGPS (console (fst r'))
  /\ logged_gpsToPixel (console (fst r)) = logged_gpsToPixel (console (fst r')).
Proof.
  intros Hi Hi' Hs Hs' Ht Ht' Es Et r r'.
  destruct (ingest_tags_present asset random1 random2 Hi Hs Ht) as (HF & HG & _).
  destruct (ingest_tags_present asset' random1' random2' Hi' Hs' Ht') as (HF' & HG' & _).
  subst r r'. rewrite HF, HG, HF', HG'.
  assert (Ex : scale_x s = scale_x s' /\ scale_y s = scale_y s').
  { unfold scale_x, scale_y, at_index.
    destruct s as [|x [|y s]], s' as [|x' [|y' s']]; try discriminate;
      simpl in *; try (injection Es as -> ->); try (injection Es as ->); auto. }
  assert (Eg : at_index (map VNumber t) 3 = at_index (map VNumber t') 3
               /\ at_index (map VNumber t) 4 = at_index (map VNumber t') 4).
  { unfold at_index.
    destruct t as [|t0 [|t1 [|t2 [|x [|y t]]]]],
             t' as [|t0' [|t1' [|t2' [|x' [|y' t']]]]]; try discriminate;
      simpl in *; try (injection Et as -> ->); try (injection Et as ->); auto. }
  destruct Ex as [-> ->], Eg as [-> ->]. split; reflexivity.
Qed.

Lemma ingestion_ignores_pixel_anchor_witness :
  let r := ingest scenario_asset (of_Z 0) (of_Z 0) in
  let r' := ingest {| getImage := Normal anchored_image |} (of_Z 1) (of_Z 1) in
  logged_pixelToGPS (console (fst r)) = logged_pixelToGPS (console (fst r'))
  /\ logged_gpsToPixel (console (fst r)) = logged_gpsToPixel (console (fst r')).
Proof.
  exact (@ingestion_ignores_pixel_anchor
           scenario_asset {| getImage := Normal anchored_image |}
           scenario_image anchored_image
           [decimal 1 2; decimal 1 2; of_Z 0] [decimal 1 2; decimal 1 2; of_Z 9]
           [of_Z 0; of_Z 0; of_Z 0; of_Z (-100); of_Z 40; of_Z 0]
           [of_Z 5; of_Z 7; of_Z 2; of_Z (-100); of_Z 40; of_Z 3]
           (of_Z 0) (of_Z 0) (of_Z 1) (of_Z 1)
           eq_refl eq_refl eq_refl eq_refl eq_refl eq_refl eq_refl eq_refl).
Defined.

(** X3: when the bounding box the library returns has fewer than four
    numbers, the ingestion still completes: the corners that are missing
    read as [undefined], and the latitude looked up (and the longitude
    too when fewer than three numbers are returned) is NaN. *)
Theorem lookup_of_short_bounding_box (asset : GeoTIFF) (image : GeoTIFFImage)
    (s t bbox : list number) (random1 random2 : number) :
  getImage asset = Normal image ->
  ModelPixelScale image = Some s -> ModelTiepoint image = Some t ->
  getBoundingBox image = Normal bbox ->
  length bbox < 4 ->
  let r := ingest asset random1 random2 in
  snd r = Normal tt
  /\ exists lat long,
       logged_lookup (console (fst r)) = Some (lat, long)
       /\ lat = VNumber NaN
       /\ (length bbox < 3 -> long = VNumber NaN).
Proof.
  intros Hi Hs Ht Hb Hlen r. subst r.
  unfold ingest, loadMethaneAssets, bind, await; simpl.
  rewrite Hi; simpl. rewrite Hs, Ht; simpl. rewrite Hb; simpl.
  split; [reflexivity|]. do 2 eexists. split; [reflexivity|]. split.
  - unfold at_index.
    rewrite (nth_overflow (map VNumber bbox) (n := 3))
      by (rewrite length_map; lia).
    apply lerp_undefined_r.
  - intro H3. unfold at_index.
    rewrite (nth_overflow (map VNumber bbox) (n := 2))
      by (rewrite length_map; lia).
    apply lerp_undefined_r.
Qed.

Lemma lookup_of_short_bounding_box_witness :
  length (@nil number) < 4 /\ length (@nil number) < 3
  /\ snd (ingest {| getImage := Normal boxless_image |} (of_Z 0) (of_Z 0)) = Normal tt
  /\ logged_lookup
       (console (fst (ingest {| getImage := Normal boxless_image |} (of_Z 0) (of_Z 0))))
     = Some (VNumber NaN, VNumber NaN).
Proof.
  assert (H4 : length (@nil number) < 4) by (simpl; lia).
  assert (H3 : length (@nil number) < 3) by (simpl; lia).
  destruct (@lookup_of_short_bounding_box
              {| getImage := Normal boxless_image |} boxless_image
              [decimal 1 2; decimal 1 2; of_Z 0]
              [of_Z 0; of_Z 0; of_Z 0; of_Z (-100); of_Z 40; of_Z 0]
              [] (of_Z 0) (of_Z 0) eq_refl eq_refl eq_refl eq_refl H4)
    as (Hr & lat & long & Hl & Hlat & Hlong).
  split; [exact H4|]. split; [exact H3|]. split; [exact Hr|].
  rewrite Hl, Hlat, (Hlong H3). reflexivity.
Defined.

(** ** Further properties of the transform *)

(** X4: a matrix with fewer than six entries is not rejected: the
    second component (and the first one too when fewer than three entries
    are given) is NaN, with or without [Math.trunc]; the older variant with
    [roundToInt = true] returns 0 there instead, since [NaN | 0] is 0. *)
Theorem transform_of_short_matrix (a b : value) (M : list value) (roundToInt : bool) :
  length M < 6 ->
  nth 1 (transform a b M roundToInt) VUndefined = VNumber NaN
  /\ nth 1 (transform_legacy a b M false) VUndefined = VNumber NaN
  /\ nth 1 (transform_legacy a b M true) VUndefined = int 0
  /\ (length M < 3 ->
      nth 0 (transform a b M roundToInt) VUndefined = VNumber NaN
      /\ nth 0 (transform_legacy a b M true) VUndefined = int 0).
Proof.
  intro Hlen.
  assert (H5 : at_index M 5 = VUndefined) by (apply nth_overflow; lia).
  assert (Hy : plus (plus (at_index M 3) (times (at_index M 4) a))
                    (times (at_index M 5) b) = VNumber NaN).
  { rewrite H5. cbn [plus times javascript]. unfold js_add, js_mul.
    cbn [ToNumber]. now rewrite mul_NaN_l, add_NaN_r. }
  assert (Hz : js_bitor (VNumber NaN) (int 0) = int 0) by (vm_compute; reflexivity).
  assert (Ht : js_trunc (VNumber NaN) = VNumber NaN) by reflexivity.
  unfold transform, transform_legacy. cbn [nth]. rewrite Hy.
  cbn [trunc or_zero javascript]. rewrite Hz, Ht.
  split; [now destruct roundToInt|]. split; [reflexivity|]. split; [reflexivity|].
  intro H3.
  assert (H2 : at_index M 2 = VUndefined) by (apply nth_overflow; lia).
  assert (Hx : plus (plus (at_index M 0) (times (at_index M 1) a))
                    (times (at_index M 2) b) = VNumber NaN).
  { rewrite H2. cbn [plus times javascript]. unfold js_add, js_mul.
    cbn [ToNumber]. now rewrite mul_NaN_l, add_NaN_r. }
  rewrite Hx. rewrite Hz, Ht. split; [now destruct roundToInt | reflexivity].
Qed.

Lemma transform_of_short_matrix_witness :
  length [int 1; int 2] < 6 /\ length [int 1; int 2] < 3
  /\ nth 1 (transform (int 3) (int 4) [int 1; int 2] true) VUndefined = VNumber NaN
  /\ nth 1 (transform_legacy (int 3) (int 4) [int 1; int 2] false) VUndefined
     = VNumber NaN
  /\ nth 1 (transform_legacy (int 3) (int 4) [int 1; int 2] true) VUndefined = int 0
  /\ nth 0 (transform (int 3) (int 4) [int 1; int 2] true) VUndefined = VNumber NaN
  /\ nth 0 (transform_legacy (int 3) (int 4) [int 1; int 2] true) VUndefined = int 0.
Proof.
  assert (H6 : length [int 1; int 2] < 6) by (simpl; lia).
  assert (H3 : length [int 1; int 2] < 3) by (simpl; lia).
  destruct (@transform_of_short_matrix (int 3) (int 4) [int 1; int 2] true H6)
    as (H1 & H2 & H4 & H5).
  destruct (H5 H3) as [H7 H8].
  repeat (split; [assumption|]). assumption.
Defined.


(** ** Further properties of the callbacks *)

Lemma render_completes (now : number) (this this' : Three) :
  render now this = Normal this' ->
  exists p m, planeMesh this = Some p /\ methaneMesh this = Some m.
Proof.
  destruct this. unfold render; simpl.
  destruct (getElapsedTime now clock0) as [e c]; simpl.
  destruct planeMesh0 as [p|], methaneMesh0 as [m|]; simpl; try discriminate.
  eauto.
Qed.

Lemma onResize_effect (w : Window) (this this' : Three) :
  onResize w this = Normal this' ->
  exists c,
    camera this = Some c /\ camera this' = Some c
    /\ objects this'
       = update (update (objects this) c
                   (set_aspect (div (innerWidth w) (innerHeight w))))
                c updateProjectionMatrix
    /\ device this'
       = {| width := innerWidth w; height := innerHeight w;
            devicePixelRatio := devicePixelRatio (device this) |}
    /\ size (renderer this') = (innerWidth w, innerHeight w)
    /\ pixelRatio (renderer this')
       = Math_min (devicePixelRatio (device this)) (of_Z 2)
    /\ currentRenderTarget (renderer this') = currentRenderTarget (renderer this)
    /\ renderTargets (renderer this') = renderTargets (renderer this)
    /\ commands (renderer this') = commands (renderer this)
    /\ scene this' = scene this /\ clock this' = clock this
    /\ gui this' = gui this /\ layers this' = layers this
    /\ scaleX this' = scaleX this /\ scaleY this' = scaleY this
    /\ scaleZ this' = scaleZ this
    /\ planeMesh this' = planeMesh this /\ methaneMesh this' = methaneMesh this
    /\ animationFrames this' = animationFrames this
    /\ resizeListeners this' = resizeListeners this.
Proof.
  destruct this. unfold onResize; simpl.
  destruct camera0 as [c|]; [|discriminate].
  intros [= <-]. eexists. simpl. repeat split; reflexivity.
Qed.

(** X6: every tick issues exactly one renderer command and schedules
    exactly one next callback; a resize and a panel input issue none.  So
    after any callbacks that complete, the frames scheduled and the
    commands issued have grown by the number of ticks, and no resize
    listener was added. *)
Theorem one_draw_per_tick (es : list event) (this this' : Three) :
  run es this = Normal this' ->
  animationFrames this' = animationFrames this + ticks es
  /\ length (commands (renderer this'))
     = length (commands (renderer this)) + ticks es
  /\ resizeListeners this' = resizeListeners this.
Proof.
  revert this. induction es as [|e es IH]; intros this Hrun; simpl in Hrun.
  - injection Hrun as <-. simpl. repeat split; lia.
  - destruct (handle e this) as [this1|x] eqn:He; [|discriminate].
    destruct (IH this1 Hrun) as (H1 & H2 & H3). rewrite H1, H2, H3. clear IH Hrun.
    destruct e as [now|w|c i]; simpl in He.
    + destruct (render_completes now this He) as (p & m & Hp & Hm).
      destruct (render_effect this now Hp Hm)
        as (t & Ht & _ & _ & Hrd & Hf & _ & _ & _ & _ & _ & _ & _ & _ & _ & _ & _
            & _ & _ & Hl).
      rewrite He in Ht. injection Ht as <-.
      rewrite Hrd, Hf, Hl. unfold renderer_render, issue; simpl.
      rewrite length_app. simpl. repeat split; lia.
    + destruct (onResize_effect w this He)
        as (c & _ & _ & _ & _ & _ & _ & _ & _ & Hc & _ & _ & _ & _ & _ & _ & _ & _
            & _ & Hf & Hl).
      rewrite Hc, Hf, Hl. simpl. repeat split; lia.
    + destruct (nth_error (gui this) c) as [ctl|]; injection He as <-;
        [|simpl; repeat split; lia].
      destruct this, ctl as [[| |] lo hi|l], i as [v|b]; simpl; repeat split; lia.
Qed.

Lemma one_draw_per_tick_witness :
  exists this',
    run [AnimationFrame (of_Z 16); Resize scenario_window; AnimationFrame (of_Z 33)]
        scenario_three = Normal this'
    /\ animationFrames this' = animationFrames scenario_three + 2
    /\ length (commands (renderer this'))
       = length (commands (renderer scenario_three)) + 2
    /\ resizeListeners this' = resizeListeners scenario_three.
Proof.
  eexists. split; [vm_compute; reflexivity|].
  refine (@one_draw_per_tick
            [AnimationFrame (of_Z 16); Resize scenario_window; AnimationFrame (of_Z 33)]
            scenario_three _ _).
  vm_compute. reflexivity.
Defined.

(** X8: for every device, start time and sequence of callbacks, the
    construction completes and so does every callback after it: once the
    object is built no tick, resize or panel input throws. *)
Theorem callbacks_never_throw (d : Device) (now : number) (es : list event) :
  exists this0 this,
    constructor d now = Normal this0 /\ run es this0 = Normal this.
Proof.
  destruct (constructor_total d now) as (this0 & H0 & Hc).
  destruct (run_constructed es Hc) as (this & Hrun & _).
  exists this0, this. split; [exact H0|exact Hrun].
Qed.


(** ** What the callbacks keep *)

Lemma mesh_shape_set_visible (h : store) (r r' : ref) (b : bool) :
  mesh_shape (update h r (set_visible b)) r' = mesh_shape h r'.
Proof.
  unfold mesh_shape. rewrite mesh_at_set_visible.
  destruct (Nat.eqb r r'); [|reflexivity].
  destruct (mesh_at h r'); reflexivity.
Qed.

Lemma handle_keeps (e : event) (this this' : Three) :
  handle e this = Normal this' ->
  length (objects this') = length (objects this)
  /\ scene this' = scene this /\ camera this' = camera this
  /\ planeMesh this' = planeMesh this /\ methaneMesh this' = methaneMesh this
  /\ (forall r, mesh_shape (objects this') r = mesh_shape (objects this) r)
  /\ currentRenderTarget (renderer this') = currentRenderTarget (renderer this)
  /\ renderTargets (renderer this') = renderTargets (renderer this).
Proof.
  destruct e as [now|w|c i]; simpl; intro He.
  - destruct (render_completes now this He) as (p & m & Hp & Hm).
    destruct (render_effect this now Hp Hm)
      as (t & Ht & Ho & _ & Hrd & _ & _ & Hs & Hc & _ & _ & _ & _ & _ & _ & Hp'
          & Hm' & _).
    rewrite He in Ht. injection Ht as <-.
    rewrite Ho, Hrd, Hs, Hc, Hp', Hm', Hp, Hm. unfold synced.
    rewrite !length_update.
    repeat (split; [reflexivity|]). split; [|split; reflexivity].
    intro r. now rewrite !mesh_shape_set_visible.
  - destruct (onResize_effect w this He)
      as (c & Hc & Hc' & Ho & _ & _ & _ & Ht & Hts & _ & Hs & _ & _ & _ & _ & _ & _
          & Hp & Hm & _).
    rewrite Ho, Hc, Hc', Ht, Hts, Hs, Hp, Hm. rewrite !length_update.
    repeat (split; [reflexivity|]). split; [|split; reflexivity].
    intro r. unfold mesh_shape.
    rewrite (mesh_at_keeps _ c r updateProjectionMatrix_keeps_meshes).
    rewrite (mesh_at_keeps _ c r (set_aspect_keeps_meshes _)). reflexivity.
  - destruct (nth_error (gui this) c) as [ctl|]; injection He as <-;
      [|repeat split; reflexivity].
    destruct this, ctl as [[| |] lo hi|l], i as [v|b]; simpl; repeat split; reflexivity.
Qed.

Lemma run_keeps (es : list event) (this this' : Three) :
  run es this = Normal this' ->
  length (objects this') = length (objects this)
  /\ scene this' = scene this /\ camera this' = camera this
  /\ planeMesh this' = planeMesh this /\ methaneMesh this' = methaneMesh this
  /\ (forall r, mesh_shape (objects this') r = mesh_shape (objects this) r)
  /\ currentRenderTarget (renderer this') = currentRenderTarget (renderer this)
  /\ renderTargets (renderer this') = renderTargets (renderer this).
Proof.
  revert this. induction es as [|e es IH]; intros this Hrun; simpl in Hrun.
  - injection Hrun as <-. repeat split; reflexivity.
  - destruct (handle e this) as [this1|x] eqn:He; [|discriminate].
    destruct (IH this1 Hrun) as (H1 & H2 & H3 & H4 & H5 & H6 & H7 & H8).
    destruct (handle_keeps e this He) as (K1 & K2 & K3 & K4 & K5 & K6 & K7 & K8).
    rewrite H1, H2, H3, H4, H5, H7, H8.
    repeat (split; [assumption|]). split; [|split; assumption].
    intro r. now rewrite H6.
Qed.

(** X9: whatever callbacks run, and whenever they complete, the scene
    graph is the one that was there before: no object is created or
    removed, the scene has the same children, the fields name the same
    camera and meshes, every mesh keeps its geometry and its material, and
    the renderer has the same targets and the same current one.  Only the
    [visible] flags, the camera's aspect and the sizes change. *)
Theorem callbacks_keep_the_scene_graph (es : list event) (this this' : Three) :
  run es this = Normal this' ->
  length (objects this') = length (objects this)
  /\ scene this' = scene this /\ camera this' = camera this
  /\ planeMesh this' = planeMesh this /\ methaneMesh this' = methaneMesh this
  /\ (forall r, mesh_shape (objects this') r = mesh_shape (objects this) r)
  /\ currentRenderTarget (renderer this') = currentRenderTarget (renderer this)
  /\ renderTargets (renderer this') = renderTargets (renderer this).
Proof. exact (@run_keeps es this this'). Qed.

Lemma callbacks_keep_the_scene_graph_witness :
  exists this',
    run [AnimationFrame (of_Z 16); Resize scenario_window;
         PanelInput 4 (BooleanInput false); AnimationFrame (of_Z 33)]
        scenario_three = Normal this'
    /\ length (objects this') = length (objects scenario_three)
    /\ scene this' = scene scenario_three /\ camera this' = camera scenario_three
    /\ planeMesh this' = planeMesh scenario_three
    /\ methaneMesh this' = methaneMesh scenario_three
    /\ (forall r, mesh_shape (objects this') r = mesh_shape (objects scenario_three) r)
    /\ currentRenderTarget (renderer this')
       = currentRenderTarget (renderer scenario_three)
    /\ renderTargets (renderer this') = renderTargets (renderer scenario_three).
Proof.
  eexists. split; [vm_compute; reflexivity|].
  refine (@callbacks_keep_the_scene_graph
            [AnimationFrame (of_Z 16); Resize scenario_window;
             PanelInput 4 (BooleanInput false); AnimationFrame (of_Z 33)]
            scenario_three _ _).
  vm_compute. reflexivity.
Defined.

(** ** What a tick draws *)

Lemma meshes_of_lookup (h : store) (children : list ref) :
  Forall (fun rm => mesh_at h (fst rm) = Some (snd rm)) (meshes_of h children).
Proof.
  induction children as [|r rs IH]; simpl; [constructor|].
  destruct (mesh_at h r) as [x|] eqn:Hx; [constructor; [exact Hx|exact IH]|exact IH].
Qed.

Lemma constructor_draws_to_canvas (d : Device) (now : number) :
  exists this0,
    constructor d now = Normal this0
    /\ currentRenderTarget (renderer this0) = None.
Proof. evaluate. eexists. split; reflexivity. Qed.

(** X10: in every state reached after construction, a tick draws into
    the canvas, and draws exactly the meshes whose layer is switched on:
    the base map first if [layers.earth], then the methane plane if
    [layers.methane], each with the geometry and material it was built
    with, and nothing else. *)
Theorem tick_draws_enabled_layers (d : Device) (this : Three) (now : number) :
  reachable d this ->
  exists p m mp mm,
    planeMesh this = Some p /\ methaneMesh this = Some m
    /\ mesh_at (objects this) p = Some mp /\ mesh_at (objects this) m = Some mm
    /\ tick_draw now this
       = Some (Draw None
                 ((if earth (layers this) then [(p, with_visible true mp)] else [])
                  ++ (if methane (layers this) then [(m, with_visible true mm)]
                      else []))).
Proof.
  intro Hr.
  destruct (reachable_constructed Hr)
    as [Hp Hm Hne [mp Hmp] [mm Hmm] Hsc _ _ _ _].
  destruct Hr as (now0 & es & this0 & H0 & Hrun).
  destruct (run_keeps es this0 Hrun) as (_ & _ & _ & _ & _ & _ & Ht & _).
  destruct (constructor_draws_to_canvas d now0) as (t & H0' & Hn).
  rewrite H0 in H0'. injection H0' as <-. rewrite Hn in Ht. clear H0 Hrun Hn.
  exists 2%nat, 5%nat, mp, mm. repeat (split; [assumption|]).
  rewrite (tick_draw_spec now this Hp Hm), Ht. do 2 f_equal.
  unfold shown.
  pose proof (meshes_of_lookup (synced this 2%nat 5%nat) (scene this)) as Hl.
  pose proof (synced_scene this 2%nat 5%nat) as Hs. rewrite Hsc in Hs.
  destruct (meshes_of (synced this 2%nat 5%nat) (scene this))
    as [|[r1 x] [|[r2 y] [|z l]]]; try discriminate.
  simpl in Hs. injection Hs as -> ->.
  inversion Hl as [|? ? Hx Hl']; subst. inversion Hl' as [|? ? Hy _]; subst.
  simpl in Hx, Hy.
  rewrite (synced_mesh_plane this Hne Hmp) in Hx.
  rewrite (synced_mesh_methane this Hne Hmm) in Hy.
  injection Hx as <-. injection Hy as <-.
  simpl. destruct (earth (layers this)), (methane (layers this)); reflexivity.
Qed.

Lemma tick_draws_enabled_layers_witness :
  exists p m mp mm,
    planeMesh scenario_three = Some p /\ methaneMesh scenario_three = Some m
    /\ mesh_at (objects scenario_three) p = Some mp
    /\ mesh_at (objects scenario_three) m = Some mm
    /\ tick_draw (of_Z 16) scenario_three
       = Some (Draw None
                 ((if earth (layers scenario_three)
                   then [(p, with_visible true mp)] else [])
                  ++ (if methane (layers scenario_three)
                      then [(m, with_visible true mm)] else []))).
Proof.
  refine (@tick_draws_enabled_layers (load_device scenario_window) scenario_three
            (of_Z 16) _).
  exists (of_Z 0), [], scenario_three. split; vm_compute; reflexivity.
Defined.


(** ** Resizing *)

Lemma update_update (h : store) (r : ref) (f g : object3D -> object3D) :
  update (update h r f) r g = update h r (fun o => g (f o)).
Proof.
  revert r. induction h as [|o h IH]; intros [|r]; simpl; try reflexivity.
  now rewrite IH.
Qed.

Lemma update_ext (h : store) (r : ref) (f g : object3D -> object3D) :
  (forall o, f o = g o) -> update h r f = update h r g.
Proof.
  intro E. revert r. induction h as [|o h IH]; intros [|r]; simpl; try reflexivity.
  - now rewrite E.
  - now rewrite IH.
Qed.

Lemma resize_store_twice (h : store) (c : ref) (a : number) :
  update (update (update (update h c (set_aspect a)) c updateProjectionMatrix)
            c (set_aspect a)) c updateProjectionMatrix
  = update (update h c (set_aspect a)) c updateProjectionMatrix.
Proof.
  rewrite !update_update. apply update_ext. intros [x y| | |m]; reflexivity.
Qed.

(** X11: a resize depends on the window by its inner size alone, and
    doing it again changes nothing: after a resize that completed, a
    resize to a window of the same inner size, whatever its device pixel
    ratio, leaves the whole state as it is. *)
Theorem resize_again_changes_nothing (w w' : Window) (this this1 : Three) :
  onResize w this = Normal this1 ->
  innerWidth w' = innerWidth w -> innerHeight w' = innerHeight w ->
  onResize w' this1 = Normal this1.
Proof.
  destruct this, w as [iw ih r], w' as [iw' ih' r']. unfold onResize; simpl.
  destruct camera0 as [c|]; [|discriminate].
  intros [= <-] -> ->. simpl. now rewrite resize_store_twice.
Qed.

Lemma resize_again_changes_nothing_witness :
  exists this1,
    onResize scenario_window scenario_three = Normal this1
    /\ onResize {| innerWidth := of_Z 1280; innerHeight := of_Z 720;
                   windowPixelRatio := of_Z 1 |} this1 = Normal this1.
Proof.
  eexists. split; [vm_compute; reflexivity|].
  refine (@resize_again_changes_nothing scenario_window _ scenario_three _ _ _ _);
    vm_compute; reflexivity.
Defined.

Lemma camera_set_visible (h : store) (r c : ref) (b : bool) (a a' : number) :
  nth_error h c = Some (PerspectiveCamera a a') ->
  nth_error (update h r (set_visible b)) c = Some (PerspectiveCamera a a').
Proof.
  intro H. destruct (Nat.eq_dec r c) as [->|Hne].
  - now rewrite nth_error_update_same, H.
  - now rewrite nth_error_update_other.
Qed.

Lemma handle_viewport (e : event) (this this' : Three) :
  viewport_consistent this -> handle e this = Normal this' ->
  viewport_consistent this'.
Proof.
  intros (c & a & Hc & Ho & Ha & Hs) He.
  destruct e as [now|w|k i]; simpl in He.
  - destruct (render_completes now this He) as (p & m & Hp & Hm).
    destruct (render_effect this now Hp Hm)
      as (t & Ht & Ho' & _ & Hrd & _ & Hd & _ & Hc' & _).
    rewrite He in Ht. injection Ht as <-.
    exists c, a. rewrite Ho', Hrd, Hd, Hc'. unfold synced.
    split; [exact Hc|]. split; [|split; [exact Ha|exact Hs]].
    now apply camera_set_visible, camera_set_visible.
  - destruct (onResize_effect w this He)
      as (c' & Hc1 & Hc2 & Ho' & Hd & Hs' & _).
    rewrite Hc in Hc1. injection Hc1 as <-.
    exists c, (div (innerWidth w) (innerHeight w)).
    rewrite Ho', Hd, Hs'. simpl.
    split; [exact Hc2|]. split; [|split; reflexivity].
    now rewrite !nth_error_update_same, Ho.
  - destruct (nth_error (gui this) k) as [ctl|]; injection He as <-;
      [|exists c, a; repeat split; assumption].
    destruct this, ctl as [[| |] lo hi|l], i as [v|b]; simpl in *;
      exists c, a; repeat split; assumption.
Qed.

Lemma run_viewport (es : list event) (this this' : Three) :
  viewport_consistent this -> run es this = Normal this' ->
  viewport_consistent this'.
Proof.
  revert this. induction es as [|e es IH]; intros this Hv Hrun; simpl in Hrun.
  - now injection Hrun as <-.
  - destruct (handle e this) as [this1|x] eqn:He; [|discriminate].
    exact (IH this1 (handle_viewport e Hv He) Hrun).
Qed.

Lemma constructor_viewport (d : Device) (now : number) :
  exists this0, constructor d now = Normal this0 /\ viewport_consistent this0.
Proof.
  evaluate. eexists. split; [reflexivity|].
  do 2 eexists. repeat split; reflexivity.
Qed.

(** X12: in every state reached after construction the camera is a
    perspective camera whose aspect, and whose projection, is the width
    of the device record divided by its height, and the renderer has the
    size of the device record: camera, renderer and device record never
    disagree about the viewport. *)
Theorem viewport_stays_consistent (d : Device) (this : Three) :
  reachable d this -> viewport_consistent this.
Proof.
  intros (now & es & this0 & H0 & Hrun).
  destruct (constructor_viewport d now) as (t & Ht & Hv).
  rewrite H0 in Ht. injection Ht as <-.
  exact (run_viewport es Hv Hrun).
Qed.

Lemma viewport_stays_consistent_witness : viewport_consistent scenario_three.
Proof.
  refine (@viewport_stays_consistent (load_device scenario_window) scenario_three _).
  exists (of_Z 0), [], scenario_three. split; vm_compute; reflexivity.
Defined.

(** ** What a tick does not depend on *)

(** X13: the three scale factors of the panel are never applied: two
    objects that differ only in [scaleX], [scaleY] and [scaleZ] are drawn
    alike.  Their ticks write the same store, renderer commands, clock
    and scheduled callbacks, and end in states that again differ only in
    the scale factors, which the tick leaves as they were. *)
Theorem render_ignores_scales (now : number) (a b : Three) :
  without_scales a = without_scales b ->
  same_up_to_scales (render now a) (render now b)
  /\ written (render now a) = written (render now b)
  /\ match render now a with
     | Normal a' =>
         scaleX a' = scaleX a /\ scaleY a' = scaleY a /\ scaleZ a' = scaleZ a
     | Throw _ => True
     end.
Proof.
  intro H. destruct a, b. unfold without_scales in H; simpl in H.
  injection H; intros; subst.
  unfold render, same_up_to_scales, without_scales; simpl.
  destruct (getElapsedTime now clock1) as [t c]; simpl.
  destruct planeMesh1 as [p|], methaneMesh1 as [m|]; simpl; auto.
Qed.

Lemma render_ignores_scales_witness :
  without_scales scenario_three = without_scales scenario_three_scaled
  /\ same_up_to_scales (render (of_Z 16) scenario_three)
                       (render (of_Z 16) scenario_three_scaled)
  /\ written (render (of_Z 16) scenario_three)
     = written (render (of_Z 16) scenario_three_scaled)
  /\ match render (of_Z 16) scenario_three with
     | Normal a' =>
         scaleX a' = scaleX scenario_three /\ scaleY a' = scaleY scenario_three
         /\ scaleZ a' = scaleZ scenario_three
     | Throw _ => True
     end.
Proof.
  assert (H : without_scales scenario_three = without_scales scenario_three_scaled)
    by (vm_compute; reflexivity).
  split; [exact H|].
  exact (@render_ignores_scales (of_Z 16) scenario_three scenario_three_scaled H).
Defined.

(** X14: the time of a tick reaches the clock and nothing else: ticks
    of the same object at two different times end alike, both throwing or
    both completing in states that are equal once the clock of one is put
    into the other.  The elapsed time that [render] reads is not used. *)
Theorem render_ignores_time (now now' : number) (this : Three) :
  same_up_to_clock (render now this) (render now' this).
Proof.
  destruct this. unfold render, same_up_to_clock; simpl.
  destruct (getElapsedTime now clock0) as [t c];
    destruct (getElapsedTime now' clock0) as [t' c']; simpl.
  destruct planeMesh0 as [p|], methaneMesh0 as [m|]; simpl; reflexivity.
Qed.

(** ** Texture synthesis, continued *)

Lemma mesh_at_app_length (h : store) (x : Mesh) :
  mesh_at (h ++ [MeshObject x]) (length h) = Some x.
Proof.
  unfold mesh_at. rewrite nth_error_app2 by lia. now rewrite Nat.sub_diag.
Qed.

Lemma generateTexture_effect (this : Three) :
  let t := length (renderTargets (renderer this)) in
  let plane := length (objects this ++ [OrthographicCamera]) in
  generateTexture this
  = (TargetTexture t,
     set_renderer
       {| size := size (renderer this); pixelRatio := pixelRatio (renderer this);
          currentRenderTarget := currentRenderTarget (renderer this);
          renderTargets := renderTargets (renderer this)
                           ++ [(of_Z 2000, div (of_Z 2000) (of_Z 2))];
          commands := (commands (renderer this)
                       ++ [Draw (Some t) [(plane, texture_plane)]])
                      ++ [Clear (currentRenderTarget (renderer this))] |}
       (set_objects ((objects this ++ [OrthographicCamera])
                     ++ [MeshObject texture_plane]) this)).
Proof.
  unfold generateTexture, newRenderTarget, alloc, renderer_render, renderer_clear,
    issue, setRenderTarget, getRenderTarget, shown, meshes_of, texture_plane.
  cbv zeta. rewrite mesh_at_app_length. reflexivity.
Qed.

(** X15: what one call of [generateTexture] leaves behind.  It returns
    the texture of a new render target of 2000 by 1000 pixels, adds an
    orthographic camera and a red plane of 0.1 by 0.3 to the objects but
    not to the scene, and issues two commands: a draw of that plane into
    the new target, then a clear of the target that was current before,
    which is the canvas when none was set.  The older variant creates a
    square target of 2000 by 2000 and only the camera, and its one draw
    goes into the current target with nothing to show: the texture it
    returns is never drawn into. *)
Theorem generateTexture_commands (this : Three) :
  let t := length (renderTargets (renderer this)) in
  let orig := currentRenderTarget (renderer this) in
  let r := generateTexture this in
  let r' := generateTexture_legacy this in
  fst r = TargetTexture t
  /\ renderTargets (renderer (snd r))
     = renderTargets (renderer this) ++ [(of_Z 2000, div (of_Z 2000) (of_Z 2))]
  /\ objects (snd r)
     = objects this ++ [OrthographicCamera; MeshObject texture_plane]
  /\ scene (snd r) = scene this
  /\ commands (renderer (snd r))
     = commands (renderer this)
       ++ [Draw (Some t) [(S (length (objects this)), texture_plane)]; Clear orig]
  /\ fst r' = TargetTexture t
  /\ renderTargets (renderer (snd r'))
     = renderTargets (renderer this) ++ [(of_Z 2000, of_Z 2000)]
  /\ objects (snd r') = objects this ++ [OrthographicCamera]
  /\ commands (renderer (snd r')) = commands (renderer this) ++ [Draw orig []].
Proof.
  intros t orig r r'. subst r. rewrite generateTexture_effect.
  destruct this. simpl. rewrite <- !app_assoc, length_app, Nat.add_1_r. simpl.
  repeat split; reflexivity.
Qed.

Lemma synthesize_effect (n : nat) (this : Three) :
  fst (synthesize n this)
  = map TargetTexture (seq (length (renderTargets (renderer this))) n)
  /\ length (renderTargets (renderer (snd (synthesize n this))))
     = length (renderTargets (renderer this)) + n
  /\ length (objects (snd (synthesize n this))) = length (objects this) + 2 * n
  /\ scene (snd (synthesize n this)) = scene this
  /\ currentRenderTarget (renderer (snd (synthesize n this)))
     = currentRenderTarget (renderer this).
Proof.
  revert this. induction n as [|n IH]; intro this.
  - simpl. repeat split; lia.
  - cbn [synthesize]. rewrite generateTexture_effect. cbv beta iota zeta.
    match goal with
    | |- context [synthesize n ?x] =>
        specialize (IH x); destruct (synthesize n x) as [ts this2]
    end.
    destruct IH as (I1 & I2 & I3 & I4 & I5). destruct this. simpl in *.
    rewrite I1, I2, I3, I4, I5. rewrite !length_app. simpl.
    rewrite Nat.add_1_r. repeat split; lia.
Qed.

Lemma NoDup_targets (a n : nat) : NoDup (map TargetTexture (seq a n)).
Proof.
  revert a. induction n as [|n IH]; intro a; simpl; constructor; [|apply IH].
  intro Hin. apply in_map_iff in Hin. destruct Hin as (x & Hx & Hin).
  injection Hx as ->. apply in_seq in Hin. lia.
Qed.

(** X16: textures are never shared and targets never released: [n] calls
    of [generateTexture] in a row return [n] different textures, none of
    a target that existed before, and leave [n] more render targets and
    [2 n] more objects than there were, with the scene and the current
    target as they were. *)
Theorem generateTexture_allocates_fresh (n : nat) (this : Three) :
  let r := synthesize n this in
  let before := length (renderTargets (renderer this)) in
  NoDup (fst r)
  /\ (forall t, In (TargetTexture t) (fst r) -> before <= t < before + n)
  /\ length (fst r) = n
  /\ length (renderTargets (renderer (snd r))) = before + n
  /\ length (objects (snd r)) = length (objects this) + 2 * n
  /\ scene (snd r) = scene this
  /\ currentRenderTarget (renderer (snd r)) = currentRenderTarget (renderer this).
Proof.
  intros r before. subst r before.
  destruct (synthesize_effect n this) as (H1 & H2 & H3 & H4 & H5).
  rewrite H1. split; [apply NoDup_targets|]. split.
  - intros t Hin. apply in_map_iff in Hin. destruct Hin as (x & Hx & Hin).
    injection Hx as ->. apply in_seq in Hin. lia.
  - rewrite length_map, length_seq. repeat split; assumption.
Qed.


(** ** The methane texture *)

Lemma handle_commands (e : event) (this this' : Three) :
  currentRenderTarget (renderer this) = None ->
  handle e this = Normal this' ->
  exists frames,
    commands (renderer this') = commands (renderer this) ++ frames
    /\ forallb canvas_draw frames = true.
Proof.
  intros Hn He. destruct e as [now|w|c i]; simpl in He.
  - destruct (render_completes now this He) as (p & m & Hp & Hm).
    destruct (render_effect this now Hp Hm) as (t & Ht & _ & _ & Hrd & _).
    rewrite He in Ht. injection Ht as <-.
    rewrite Hrd. unfold renderer_render, issue; simpl. rewrite Hn.
    eexists. split; reflexivity.
  - destruct (onResize_effect w this He)
      as (c & _ & _ & _ & _ & _ & _ & _ & _ & Hc & _).
    exists []. rewrite Hc, app_nil_r. split; reflexivity.
  - exists []. rewrite app_nil_r. split; [|reflexivity].
    destruct (nth_error (gui this) c) as [ctl|]; injection He as <-; [|reflexivity].
    destruct this, ctl as [[| |] lo hi|l], i as [v|b]; reflexivity.
Qed.

Lemma run_commands (es : list event) (this this' : Three) :
  currentRenderTarget (renderer this) = None ->
  run es this = Normal this' ->
  exists frames,
    commands (renderer this') = commands (renderer this) ++ frames
    /\ forallb canvas_draw frames = true.
Proof.
  revert this. induction es as [|e es IH]; intros this Hn Hrun; simpl in Hrun.
  - injection Hrun as <-. exists []. rewrite app_nil_r. split; reflexivity.
  - destruct (handle e this) as [this1|x] eqn:He; [|discriminate].
    destruct (handle_commands e this Hn He) as (f1 & E1 & F1).
    destruct (handle_keeps e this He) as (_ & _ & _ & _ & _ & _ & Ht & _).
    rewrite Hn in Ht.
    destruct (IH this1 Ht Hrun) as (f2 & E2 & F2).
    exists (f1 ++ f2). rewrite E2, E1, app_assoc. split; [reflexivity|].
    rewrite forallb_app, F1, F2. reflexivity.
Qed.

Lemma constructor_commands (d : Device) (now : number) :
  exists this0,
    constructor d now = Normal this0
    /\ currentRenderTarget (renderer this0) = None
    /\ (exists frames,
          commands (renderer this0)
          = [Draw (Some 0) [(4, texture_plane)]; Clear None] ++ frames
          /\ forallb canvas_draw frames = true)
    /\ mesh_shape (objects this0) 5 = Some (of_Z 2, of_Z 1, methane_material).
Proof.
  evaluate. eexists. split; [reflexivity|]. split; [reflexivity|].
  split; [|reflexivity]. eexists. split; reflexivity.
Qed.

(** X17: the methane texture is drawn once and never again.  In every
    state reached after construction the renderer's commands begin with
    the draw of the red plane into render target 0 and the clear of the
    canvas that [generateTexture] issues, and every later command is a
    draw into the canvas; the methane plane is 2 by 1 and its material
    maps the texture of target 0, transparent with opacity 0.5. *)
Theorem methane_texture_drawn_once (d : Device) (this : Three) :
  reachable d this ->
  (exists frames,
     commands (renderer this)
     = [Draw (Some 0) [(4, texture_plane)]; Clear None] ++ frames
     /\ forallb canvas_draw frames = true)
  /\ methaneMesh this = Some 5
  /\ mesh_shape (objects this) 5 = Some (of_Z 2, of_Z 1, methane_material).
Proof.
  intro Hr. pose proof (reachable_constructed Hr) as [_ Hm _ _ _ _ _ _ _ _].
  destruct Hr as (now & es & this0 & H0 & Hrun).
  destruct (constructor_commands d now) as (t & Ht & Hn & (f0 & E0 & F0) & Hs).
  rewrite H0 in Ht. injection Ht as <-.
  destruct (run_commands es this0 Hn Hrun) as (f & E & F).
  destruct (run_keeps es this0 Hrun)
    as (_ & _ & _ & _ & _ & K & _).
  split; [|split; [exact Hm|rewrite K; exact Hs]].
  exists (f0 ++ f). rewrite E, E0, <- app_assoc. split; [reflexivity|].
  rewrite forallb_app, F0, F. reflexivity.
Qed.

Lemma methane_texture_drawn_once_witness :
  (exists frames,
     commands (renderer scenario_three)
     = [Draw (Some 0) [(4, texture_plane)]; Clear None] ++ frames
     /\ forallb canvas_draw frames = true)
  /\ methaneMesh scenario_three = Some 5
  /\ mesh_shape (objects scenario_three) 5 = Some (of_Z 2, of_Z 1, methane_material).
Proof.
  refine (@methane_texture_drawn_once (load_device scenario_window) scenario_three _).
  exists (of_Z 0), [], scenario_three. split; vm_compute; reflexivity.
Defined.

(** ** The coordinate transform, continued *)

(** X5: rounding in the two variants.  With [roundToInt = true] the
    transform of three.js returns, for every component whose unrounded
    value is a finite binary64 number, that value truncated toward zero.
    The older variant returns the same integer exactly when the
    truncated value fits in 32 signed bits. *)
Theorem rounding_of_the_two_variants (a b : value) (M : list value) (i : nat) :
  let v := ToNumber (nth i (transform a b M false) VUndefined) in
  let r := ToNumber (nth i (transform a b M true) VUndefined) in
  let r' := ToNumber (nth i (transform_legacy a b M true) VUndefined) in
  i < 2 ->
  valid_binary prec emax v = true ->
  integer_value r = integral_part v
  /\ (forall z, integral_part v = Some z ->
      (integer_value r' = integer_value r <-> (- 2 ^ 31 <= z < 2 ^ 31)%Z)).
Proof.
  intros v r r' Hi Hv.
  destruct (@transform_rounding a b M i Hi Hv) as [H1 H2].
  fold v r r' in H1, H2. split; [exact H1|].
  intros z Hz. rewrite H1, Hz. exact (H2 z Hz).
Qed.

Lemma rounding_of_the_two_variants_witness :
  let v := ToNumber (nth 0 (transform (int 3) (int 4) sample_matrix false)
                       VUndefined) in
  let r := ToNumber (nth 0 (transform (int 3) (int 4) sample_matrix true)
                       VUndefined) in
  let r' := ToNumber (nth 0 (transform_legacy (int 3) (int 4) sample_matrix
                               true) VUndefined) in
  integer_value r = integral_part v
  /\ (forall z, integral_part v = Some z ->
      (integer_value r' = integer_value r <-> (- 2 ^ 31 <= z < 2 ^ 31)%Z)).
Proof.
  refine (@rounding_of_the_two_variants (int 3) (int 4) sample_matrix 0 _ _);
    [lia | vm_compute; reflexivity].
Defined.

(** X18: the forward matrix is anchored at the tie point.  For every
    dataset whose two pixel scale components are finite and whose tie
    point coordinates are not the negative zero, the forward transform of
    the pixel [(0, 0)] is the tie point itself, with no rounding error. *)
Theorem origin_maps_to_tie_point (gx gy sx sy : number) :
  isFinite sx = true -> isFinite sy = true ->
  is_zero_signed true gx = false -> is_zero_signed true gy = false ->
  transform (int 0) (int 0)
    (pixelToGPS (VNumber gx) (VNumber gy) (VNumber sx) (VNumber sy)) false
  = [VNumber gx; VNumber gy].
Proof.
  intros Hsx Hsy Hgx Hgy.
  assert (H : forall g s, isFinite s = true -> is_zero_signed true g = false ->
              add (add g (mul s (of_Z 0))) (mul (of_Z 0) (of_Z 0)) = g
              /\ add (add g (mul (of_Z 0) (of_Z 0))) (mul s (of_Z 0)) = g).
  { clear. intros g s Hs Hg.
    destruct s as [[|]|[|]| |[|] ms es]; try discriminate;
      destruct g as [[|]|[|]| |[|] mg eg]; try discriminate; split; reflexivity. }
  unfold transform, pixelToGPS, at_index; simpl. unfold js_add, js_mul, int; simpl.
  rewrite (proj1 (H gx sx Hsx Hgx)), (proj2 (H gy sy Hsy Hgy)). reflexivity.
Qed.

Lemma origin_maps_to_tie_point_witness :
  transform (int 0) (int 0)
    (pixelToGPS (int (-180)) (int 90) (dec 36 2) (js_neg (dec 18 2))) false
  = [int (-180); int 90].
Proof.
  refine (@origin_maps_to_tie_point (of_Z (-180)) (of_Z 90) (decimal 36 2)
            (neg (decimal 18 2)) _ _ _ _); vm_compute; reflexivity.
Defined.
